(** * CraftOS-PC 2, Computer.cpp: a shallow embedding and its properties

    The modules follow the source file:
    - [Debugger]: [db_breakpoint] and [db_unsetbreakpoint];
    - [Host]: the [Computer] object, the globals of the file, and the
      trace of what the code does;
    - [Teardown]: [Computer::~Computer];
    - [Lifecycle]: [Computer::Computer] and [startComputer];
    - [ExecLoop]: [runComputer] and [computerThread];
    - [Trampoline]: [yield_loader] and [load_thread], the loader thread
      from one wait to the next, and [yieldable_load] where it leaves
      its wait;
    - [Handover]: [yieldable_load] against the loader thread, with the
      two threads interleaved;
    - [Finalizer]: [load_ctx_gc] against the loader thread, with the two
      threads interleaved;
    - [BootScript]: [file_reader], and the startup script and the default
      globals of [runComputer];
    - [TermEvents]: [Computer_getEvent].
    Every definition that embeds a C++ function carries its name. *)

From Stdlib Require Import ZArith Lia Bool.
From stdpp Require Import gmap strings list fin_maps.

Local Open Scope Z_scope.

(** ** Machine integers *)

(** The value of a C [(int)] cast of a wider integer (two's complement,
    32 bits). *)
Definition to_int (x : Z) : Z := (x + 2 ^ 31) mod 2 ^ 32 - 2 ^ 31.

Definition INT_MAX : Z := 2 ^ 31 - 1.

(** The value of an [int] converted to [Uint32]. *)
Definition to_uint32 (x : Z) : Z := x mod 2 ^ 32.

(** * Breakpoints: [db_breakpoint], [db_unsetbreakpoint] *)

Module Debugger.

Section WithFixpath.

(** [fixpath] lives in the mounter; only its result is stored here. *)
Variable fixpath : string -> string.

(** The hook installed on the two Lua states by [lua_sethook]: the mask
    and the count, or no hook. *)
Definition hook : Type := option (Z * Z).

(** LUA_MASKCOUNT | LUA_MASKLINE | LUA_MASKRET | LUA_MASKCALL |
    LUA_MASKERROR | LUA_MASKRESUME | LUA_MASKYIELD is kept symbolic. *)
Definition full_mask : Z := 127.

(** The fields of [Computer] the two functions touch.  [breakpoints] is a
    [std::map<int, std::pair<std::string, int>>]: an ordered map whose
    [rbegin()] is the entry with the largest key. *)
Record Computer := mkComputer {
  breakpoints : gmap Z (string * Z);
  hasBreakpoints : bool;
  forceCheckTimeout : bool;
  installed_hook : hook
}.

Definition new_computer : Computer :=
  mkComputer ∅ false false None.

(** [breakpoints.rbegin()->first]: the largest key, when there is one. *)
Definition rbegin_first (m : gmap Z (string * Z)) : option Z :=
  map_fold (fun k _ acc => Some (from_option (Z.max k) k acc)) None m.

(** [!breakpoints.empty() ? breakpoints.rbegin()->first + 1 : 1].  The
    sum is taken in Z.  It is the sum the code takes in [int] as long as
    the largest key is below INT_MAX; at INT_MAX the [int] addition
    overflows, which C++ leaves undefined, and the definition says
    nothing of the code. *)
Definition next_id (m : gmap Z (string * Z)) : Z :=
  match rbegin_first m with
  | Some k => k + 1
  | None => 1
  end.

(** [db_breakpoint], after [luaL_checkstring] and [luaL_checkinteger] have
    accepted the two arguments.  Returns the pushed id. *)
Definition db_breakpoint (c : Computer) (path : string) (line : Z)
  : Computer * Z :=
  let id := next_id (breakpoints c) in
  let bps := <[ id := (String.append "@/" (fixpath path), line) ]> (breakpoints c) in
  (mkComputer bps true
     (if hasBreakpoints c then forceCheckTimeout c else true)
     (Some (full_mask, 1000000)),
   id).

(** [db_unsetbreakpoint]: the argument is cast to [int] before the lookup.
    Returns the pushed boolean. *)
Definition db_unsetbreakpoint (c : Computer) (arg : Z) : Computer * bool :=
  let id := to_int arg in
  match breakpoints c !! id with
  | Some _ =>
      let bps := delete id (breakpoints c) in
      if decide (bps = ∅)
      then (mkComputer bps false (forceCheckTimeout c) None, true)
      else (mkComputer bps (hasBreakpoints c) (forceCheckTimeout c)
              (installed_hook c), true)
  | None => (c, false)
  end.

(** A debugging session: the calls the guest makes, in order. *)
Inductive op :=
| SetBreakpoint (path : string) (line : Z)
| UnsetBreakpoint (arg : Z).

(** One entry per [db_breakpoint] call: the map it found and the id it
    returned. *)
Definition allocation : Type := gmap Z (string * Z) * Z.

Fixpoint session (ops : list op) (c : Computer) : Computer * list allocation :=
  match ops with
  | [] => (c, [])
  | SetBreakpoint p l :: rest =>
      let '(c', id) := db_breakpoint c p l in
      let '(c'', log) := session rest c' in
      (c'', (breakpoints c, id) :: log)
  | UnsetBreakpoint a :: rest =>
      session rest (fst (db_unsetbreakpoint c a))
  end.

Definition assigned_ids (ops : list op) : list Z :=
  (snd (session ops new_computer)).*2.

(** How many [db_breakpoint] calls a session makes. *)
Fixpoint count_sets (ops : list op) : Z :=
  match ops with
  | [] => 0
  | SetBreakpoint _ _ :: rest => 1 + count_sets rest
  | UnsetBreakpoint _ :: rest => count_sets rest
  end.

(** The sentence "no id assigned during the session is assigned again",
    as a property of one session. *)
Definition ids_never_reused (ops : list op) : Prop :=
  NoDup (assigned_ids ops).

(** What "one greater than the current maximum, or 1 when the map is
    empty" means for a map [m] and an id, stated on the map alone. *)
Definition one_above_maximum (m : gmap Z (string * Z)) (id : Z) : Prop :=
  (m = ∅ ∧ id = 1) ∨
  (∃ k, is_Some (m !! k) ∧ (∀ j, is_Some (m !! j) → j <= k) ∧ id = k + 1).

(** All the keys of [m] lie in [1..n]. *)
Definition keys_within (n : Z) (m : gmap Z (string * Z)) : Prop :=
  ∀ j, is_Some (m !! j) → 1 <= j <= n.

(** *** The largest key *)

Lemma rbegin_first_spec (m : gmap Z (string * Z)) :
  match rbegin_first m with
  | None => m = ∅
  | Some k => is_Some (m !! k) ∧ ∀ j, is_Some (m !! j) → j <= k
  end.
Proof.
  unfold rbegin_first.
  apply (map_fold_weak_ind
           (fun (r : option Z) (m : gmap Z (string * Z)) =>
              match r with
              | None => m = ∅
              | Some k => is_Some (m !! k) ∧ ∀ j, is_Some (m !! j) → j <= k
              end)).
  - reflexivity.
  - intros i x m' r Hfresh IH. destruct r as [k|]; simpl.
    + destruct IH as [Hk Hmax]. split.
      * destruct (Z.max_spec i k) as [[_ ->]|[_ ->]].
        -- rewrite lookup_insert_ne; [done|]. intros ->.
           rewrite Hfresh in Hk. by destruct Hk.
        -- rewrite lookup_insert_eq. eauto.
      * intros j Hj. destruct (decide (i = j)) as [->|Hne]; [lia|].
        rewrite lookup_insert_ne in Hj by done.
        specialize (Hmax j Hj). lia.
    + subst m'. split.
      * rewrite lookup_insert_eq. eauto.
      * intros j Hj. destruct (decide (i = j)) as [->|Hne]; [lia|].
        rewrite lookup_insert_ne, lookup_empty in Hj by done.
        by destruct Hj.
Qed.

Lemma next_id_one_above (m : gmap Z (string * Z)) :
  one_above_maximum m (next_id m).
Proof.
  unfold next_id, one_above_maximum.
  pose proof (rbegin_first_spec m) as H.
  destruct (rbegin_first m) as [k|]; [right|left]; eauto.
  destruct H as [H1 H2]. eauto.
Qed.

Lemma next_id_above (m : gmap Z (string * Z)) j :
  is_Some (m !! j) → j < next_id m.
Proof.
  intros Hj. unfold next_id.
  pose proof (rbegin_first_spec m) as H.
  destruct (rbegin_first m) as [k|].
  - destruct H as [_ H]. specialize (H j Hj). lia.
  - subst m. rewrite lookup_empty in Hj. by destruct Hj.
Qed.

Lemma next_id_fresh (m : gmap Z (string * Z)) : m !! next_id m = None.
Proof.
  destruct (m !! next_id m) eqn:E; [|done].
  assert (next_id m < next_id m) by (apply next_id_above; eauto). lia.
Qed.

Lemma next_id_within n (m : gmap Z (string * Z)) :
  0 <= n → keys_within n m → 1 <= next_id m <= n + 1.
Proof.
  intros Hn Hk. unfold next_id.
  pose proof (rbegin_first_spec m) as H.
  destruct (rbegin_first m) as [k|]; [|lia].
  destruct H as [H _]. specialize (Hk k H). lia.
Qed.

(** *** Sessions *)

Lemma keys_within_set n c p l :
  0 <= n → keys_within n (breakpoints c) →
  keys_within (n + 1) (breakpoints (db_breakpoint c p l).1).
Proof.
  intros Hn Hk j Hj. simpl in Hj.
  destruct (decide (next_id (breakpoints c) = j)) as [<-|Hne].
  - pose proof (next_id_within n _ Hn Hk). lia.
  - rewrite lookup_insert_ne in Hj by done. specialize (Hk j Hj). lia.
Qed.

Lemma keys_within_unset n c a :
  keys_within n (breakpoints c) →
  keys_within n (breakpoints (db_unsetbreakpoint c a).1).
Proof.
  intros Hk j Hj. unfold db_unsetbreakpoint in Hj.
  destruct (breakpoints c !! to_int a) eqn:E; simpl in Hj; [|by apply Hk].
  assert (is_Some (delete (to_int a) (breakpoints c) !! j)) as Hd
    by (destruct (decide (delete (to_int a) (breakpoints c) = ∅)); exact Hj).
  apply Hk. rewrite lookup_delete in Hd. by case_decide; [destruct Hd|].
Qed.

Lemma session_allocations ops : ∀ c n,
  0 <= n → keys_within n (breakpoints c) →
  Forall (fun a : allocation =>
            one_above_maximum a.1 a.2 ∧ a.1 !! a.2 = None ∧
            (∀ j, is_Some (a.1 !! j) → j < a.2) ∧
            1 <= a.2 <= n + count_sets ops)
         (session ops c).2.
Proof.
  induction ops as [|[p l|a] rest IH]; intros c n Hn Hk; simpl.
  - constructor.
  - pose proof (keys_within_set n c p l Hn Hk) as Hk'.
    specialize (IH (db_breakpoint c p l).1 (n + 1) ltac:(lia) Hk').
    simpl in IH.
    destruct (session rest _) as [c'' log] eqn:E. simpl in *.
    constructor; simpl.
    + split; [apply next_id_one_above|]. split; [apply next_id_fresh|].
      split; [apply next_id_above|].
      pose proof (next_id_within n _ Hn Hk).
      assert (0 <= count_sets rest) by (clear; induction rest as [|[]]; simpl; lia).
      lia.
    + eapply Forall_impl; [exact IH|]. simpl. intros [m id] H; simpl in *.
      intuition lia.
  - apply IH; [done|]. by apply keys_within_unset.
Qed.

End WithFixpath.

Lemma to_int_small (x : Z) : - 2 ^ 31 <= x < 2 ^ 31 → to_int x = x.
Proof.
  intros H. unfold to_int. rewrite Z.mod_small by lia. lia.
Qed.

(** C5, the first half: in every session started on a fresh instance that
    sets fewer than 2^31 breakpoints, each [db_breakpoint] call returns
    an id one greater than the largest id then in the breakpoint map, or
    1 when the map is empty; that id is not the id of any breakpoint
    alive at that moment, it is larger than all of them, and it never
    exceeds the number of breakpoints set so far, so that the addition
    the code makes in [int] does not overflow and gives the same id.
    Nothing is said about ids of breakpoints already removed. *)
Theorem breakpoint_id_is_one_above_maximum
  (fixpath : string → string) (ops : list op)
  (Hsets : count_sets ops < 2 ^ 31) :
  Forall (fun a : allocation =>
            one_above_maximum a.1 a.2 ∧ a.1 !! a.2 = None ∧
            (∀ j, is_Some (a.1 !! j) → j < a.2) ∧
            1 <= a.2 <= count_sets ops ∧
            to_int a.2 = a.2)
         (session fixpath ops new_computer).2.
Proof.
  assert (Forall (fun a : allocation =>
            one_above_maximum a.1 a.2 ∧ a.1 !! a.2 = None ∧
            (∀ j, is_Some (a.1 !! j) → j < a.2) ∧
            1 <= a.2 <= 0 + count_sets ops)
         (session fixpath ops new_computer).2) as H.
  { apply (session_allocations fixpath ops new_computer 0); [lia|].
    intros j Hj. simpl in Hj. rewrite lookup_empty in Hj. by destruct Hj. }
  eapply Forall_impl; [exact H|]. intros a (H1 & H2 & H3 & H4).
  split; [done|]. split; [done|]. split; [done|]. split; [lia|].
  apply to_int_small. lia.
Qed.

Lemma breakpoint_id_is_one_above_maximum_witness :
  let ops := [SetBreakpoint "a.lua" 3; UnsetBreakpoint 1; SetBreakpoint "b.lua" 7] in
  count_sets ops < 2 ^ 31 ∧
  Forall (fun a : allocation => 1 <= a.2 <= 2 ∧ to_int a.2 = a.2)
    (session (fun p => p) ops new_computer).2.
Proof.
  intros ops.
  assert (count_sets ops < 2 ^ 31) as H by (vm_compute; reflexivity).
  split; [exact H|].
  eapply Forall_impl; [exact (breakpoint_id_is_one_above_maximum (fun p => p) ops H)|].
  intros a (_ & _ & _ & H4 & H5). exact (conj H4 H5).
Defined.

(** C5, the second half fails: set a breakpoint, remove it, set another.
    Both [db_breakpoint] calls return id 1. *)
Lemma breakpoint_id_reused_after_removal :
  let ops := [SetBreakpoint "a.lua" 3; UnsetBreakpoint 1; SetBreakpoint "b.lua" 7] in
  assigned_ids (fun p => p) ops = [1; 1] ∧ ¬ ids_never_reused (fun p => p) ops.
Proof.
  assert (assigned_ids (fun p => p)
            [SetBreakpoint "a.lua" 3; UnsetBreakpoint 1; SetBreakpoint "b.lua" 7]
          = [1; 1]) as E by (vm_compute; reflexivity).
  split; [exact E|].
  unfold ids_never_reused. rewrite E. intros H.
  apply NoDup_cons in H as [H _]. apply H. left.
Qed.

(** ** More on the two functions *)

(** The flags and the hook agree with the map: [hasBreakpoints] holds and
    the hook is installed exactly when the map is not empty, and the
    timeout check has been forced whenever there is a breakpoint. *)
Definition flags_agree (c : Computer) : Prop :=
  (hasBreakpoints c = true ↔ breakpoints c ≠ ∅) ∧
  (installed_hook c = Some (full_mask, 1000000) ↔ breakpoints c ≠ ∅) ∧
  (installed_hook c = None ↔ breakpoints c = ∅) ∧
  (hasBreakpoints c = true → forceCheckTimeout c = true).

Lemma flags_agree_set fixpath c p l :
  flags_agree c → flags_agree (db_breakpoint fixpath c p l).1.
Proof.
  intros (H1 & H2 & H3 & H4). unfold flags_agree. simpl.
  assert (<[next_id (breakpoints c) := (String.append "@/" (fixpath p), l)]>
            (breakpoints c) ≠ ∅) as Hne by apply insert_non_empty.
  repeat split; try done.
  destruct (hasBreakpoints c); [by apply H4|done].
Qed.

Lemma flags_agree_unset c a :
  flags_agree c → flags_agree (db_unsetbreakpoint c a).1.
Proof.
  intros (H1 & H2 & H3 & H4). unfold db_unsetbreakpoint.
  destruct (breakpoints c !! to_int a) eqn:E; [|done].
  assert (breakpoints c ≠ ∅) as Hne
    by (intros Hm; rewrite Hm, lookup_empty in E; done).
  case_decide as Hd; unfold flags_agree; simpl.
  - rewrite Hd. repeat split; done.
  - repeat split; try done; intros Hx;
      first [ by apply H1 | by apply H2 | by apply H3 in Hx
            | by apply H4, H1 ].
Qed.

Lemma session_flags_agree fixpath ops : ∀ c,
  flags_agree c → flags_agree (session fixpath ops c).1.
Proof.
  induction ops as [|[p l|a] rest IH]; intros c Hc; simpl.
  - done.
  - specialize (IH _ (flags_agree_set fixpath c p l Hc)). simpl in IH.
    by destruct (session fixpath rest _).
  - apply IH. by apply flags_agree_unset.
Qed.

(** Whatever the guest sets and unsets, starting from a fresh instance,
    [hasBreakpoints] is true and the line hook is installed exactly when
    some breakpoint is left, and the hook is removed exactly when none
    is; the first breakpoint has forced a timeout check. *)
Theorem breakpoint_flags_follow_the_map
  (fixpath : string → string) (ops : list op) :
  flags_agree (session fixpath ops new_computer).1.
Proof.
  apply session_flags_agree. unfold flags_agree, new_computer. simpl.
  repeat split; done.
Qed.

(** [db_unsetbreakpoint] undoes [db_breakpoint]: called with the id just
    returned, or with any number the [(int)] cast maps to it, it answers
    true and the map is the one before the breakpoint was set; a second
    call with the same number answers false and changes nothing. *)
Theorem unset_undoes_set
  (fixpath : string → string) (c : Computer) (path : string) (line arg : Z)
  (Harg : to_int arg = next_id (breakpoints c)) :
  let set := db_breakpoint fixpath c path line in
  let unset := db_unsetbreakpoint set.1 arg in
  unset.2 = true ∧
  breakpoints unset.1 = breakpoints c ∧
  db_unsetbreakpoint unset.1 arg = (unset.1, false).
Proof.
  intros set unset.
  assert (breakpoints set.1 !! to_int arg
          = Some (String.append "@/" (fixpath path), line)) as Hl
    by (rewrite Harg; apply lookup_insert_eq).
  assert (delete (to_int arg) (breakpoints set.1) = breakpoints c) as Hd
    by (rewrite Harg; simpl; rewrite delete_insert_eq;
        apply delete_id, next_id_fresh).
  assert (unset.2 = true ∧ breakpoints unset.1 = breakpoints c) as [H2 H1].
  { unfold unset, db_unsetbreakpoint. rewrite Hl, Hd.
    case_decide; simpl; done. }
  split; [exact H2|]. split; [exact H1|].
  unfold db_unsetbreakpoint. rewrite H1, Harg, next_id_fresh. done.
Qed.

Lemma unset_undoes_set_witness :
  to_int (2 ^ 32 + 1) = next_id (breakpoints new_computer) ∧
  (db_unsetbreakpoint (db_breakpoint (fun p => p) new_computer "a.lua" 3).1
     (2 ^ 32 + 1)).2 = true.
Proof.
  assert (to_int (2 ^ 32 + 1) = next_id (breakpoints new_computer)) as H
    by (vm_compute; reflexivity).
  split; [exact H|].
  exact (proj1 (unset_undoes_set (fun p => p) new_computer "a.lua" 3 (2 ^ 32 + 1) H)).
Defined.

End Debugger.

(** * The host: instances, terminals and the process-wide registries *)

Module Host.

(** Objects are named by their address. *)
Definition addr : Type := nat.

(** The fields of the global [::config] that the modelled code reads. *)
Record configuration := mkConfiguration {
  standardsMode : bool;
  romReadOnly : bool;
  mount_mode : Z;
  abortTimeout : Z;
  debug_enable : bool;
  vanilla : bool;
  http_enable : bool;
  serverMode : bool
}.

(** The two mount modes the constructor compares with; their values come
    from configuration.hpp. *)
Definition MOUNT_MODE_NONE : Z := 0.
Definition MOUNT_MODE_RW : Z := 3.

(** The per-computer configuration ([computer_configuration]). *)
Record computer_configuration := mkComputerConfiguration {
  label : string;
  isColor : bool;
  startFullscreen : bool
}.

(** A [Terminal], whichever renderer made it. *)
Record Terminal := mkTerminal {
  title : string;
  renderer : Z;
  grayscale : bool;
  errorMode : bool
}.

(** A peripheral object: the name its method table carries and, for the
    [computer] peripheral, the instance its [comp] field points at. *)
Record peripheral := mkPeripheral {
  methods_name : string;
  comp : option addr
}.

(** [Computer]. *)
Record Computer := mkComputer {
  id : Z;
  isDebugger : bool;
  term : option addr;
  config : computer_configuration;
  mounts : list (string * string * bool);
  peripherals : list (string * peripheral);
  referencers : list addr;
  userdata_destructors : list Z;
  timerIDs : list Z;
  mouseMoveDebounceTimer : Z;
  eventTimeout : Z;
  openWebsockets : list Z;
  running : Z;
  L : option nat;
  eventQueue : list string;
  debugger : bool
}.

(** What the code does to the world outside the modelled state, in the
    order it does it. *)
Inductive event :=
| EvStderr (msg : string)
| EvMessageBox (title : string)
| EvDisplayFailure (t : option addr) (msg : string)
| EvShowMessage (t : option addr) (title : string)
| EvUserdataDestructor (key : Z)
| EvSetComputerConfig (id : Z)
| EvPeripheralDestructor (side : string)
| EvLock (c : addr)
| EvUnlock (c : addr)
| EvDeletePeripheral (c : addr) (side : string)
| EvRemoveTimer (t : Z)
| EvStopWebsocket (ws : Z)
| EvTermReset (t : addr)
| EvNewState
| EvReinitialize (side : string)
| EvClearEventQueue
| EvOpenLibs
| EvLoadLibrary (name : string)
| EvInstallYieldableLoad
| EvLoadPlugins
| EvRemoveGlobal (name : string)
| EvLoadBios
| EvAddTimer (interval : Z)
| EvResume (narg : Z)
| EvGetNextEvent (filter : string) (narg : Z)
| EvTermPanic
| EvDeinit (name : string)
| EvLuaClose
| EvSpawnThread (c : addr).

(** Work handed to the main thread with [queueTask]. *)
Inductive task :=
| TaskDeleteComputer (c : addr)
| TaskShowMessage (t : option addr) (title : string).

(** The globals of Computer.cpp and the two heaps. *)
Record world := mkWorld {
  gconfig : configuration;
  selectedRenderer : Z;
  computers : list addr;
  freedComputers : gset addr;
  freedTimers : gset Z;
  orphanedTerminals : gset addr;
  computerThreads : list addr;
  customMounts : list (string * string * Z);
  mounter_initializing : bool;
  terminals : gmap addr Terminal;
  instances : gmap addr Computer;
  taskQueue : list task;
  trace : list event
}.

(** Field updates. *)
Definition set_gconfig (v : configuration) (w : world) : world :=
  mkWorld v (selectedRenderer w) (computers w) (freedComputers w)
    (freedTimers w) (orphanedTerminals w) (computerThreads w) (customMounts w)
    (mounter_initializing w) (terminals w) (instances w) (taskQueue w) (trace w).
Definition set_computers (v : list addr) (w : world) : world :=
  mkWorld (gconfig w) (selectedRenderer w) v (freedComputers w)
    (freedTimers w) (orphanedTerminals w) (computerThreads w) (customMounts w)
    (mounter_initializing w) (terminals w) (instances w) (taskQueue w) (trace w).
Definition set_freedComputers (v : gset addr) (w : world) : world :=
  mkWorld (gconfig w) (selectedRenderer w) (computers w) v
    (freedTimers w) (orphanedTerminals w) (computerThreads w) (customMounts w)
    (mounter_initializing w) (terminals w) (instances w) (taskQueue w) (trace w).
Definition set_freedTimers (v : gset Z) (w : world) : world :=
  mkWorld (gconfig w) (selectedRenderer w) (computers w) (freedComputers w)
    v (orphanedTerminals w) (computerThreads w) (customMounts w)
    (mounter_initializing w) (terminals w) (instances w) (taskQueue w) (trace w).
Definition set_orphanedTerminals (v : gset addr) (w : world) : world :=
  mkWorld (gconfig w) (selectedRenderer w) (computers w) (freedComputers w)
    (freedTimers w) v (computerThreads w) (customMounts w)
    (mounter_initializing w) (terminals w) (instances w) (taskQueue w) (trace w).
Definition set_computerThreads (v : list addr) (w : world) : world :=
  mkWorld (gconfig w) (selectedRenderer w) (computers w) (freedComputers w)
    (freedTimers w) (orphanedTerminals w) v (customMounts w)
    (mounter_initializing w) (terminals w) (instances w) (taskQueue w) (trace w).
Definition set_mounter_initializing (v : bool) (w : world) : world :=
  mkWorld (gconfig w) (selectedRenderer w) (computers w) (freedComputers w)
    (freedTimers w) (orphanedTerminals w) (computerThreads w) (customMounts w)
    v (terminals w) (instances w) (taskQueue w) (trace w).
Definition set_terminals (v : gmap addr Terminal) (w : world) : world :=
  mkWorld (gconfig w) (selectedRenderer w) (computers w) (freedComputers w)
    (freedTimers w) (orphanedTerminals w) (computerThreads w) (customMounts w)
    (mounter_initializing w) v (instances w) (taskQueue w) (trace w).
Definition set_instances (v : gmap addr Computer) (w : world) : world :=
  mkWorld (gconfig w) (selectedRenderer w) (computers w) (freedComputers w)
    (freedTimers w) (orphanedTerminals w) (computerThreads w) (customMounts w)
    (mounter_initializing w) (terminals w) v (taskQueue w) (trace w).
Definition set_taskQueue (v : list task) (w : world) : world :=
  mkWorld (gconfig w) (selectedRenderer w) (computers w) (freedComputers w)
    (freedTimers w) (orphanedTerminals w) (computerThreads w) (customMounts w)
    (mounter_initializing w) (terminals w) (instances w) v (trace w).
Definition set_trace (v : list event) (w : world) : world :=
  mkWorld (gconfig w) (selectedRenderer w) (computers w) (freedComputers w)
    (freedTimers w) (orphanedTerminals w) (computerThreads w) (customMounts w)
    (mounter_initializing w) (terminals w) (instances w) (taskQueue w) v.

(** Append to the trace. *)
Definition emit (es : list event) (w : world) : world :=
  set_trace (trace w ++ es) w.

(** Modelled from the spec: [displayFailure] is the display collaborator's
    [showFatalError(message)]; termsupport.cpp is not among the sources.
    The terminal, when there is one, is left showing a fatal error, which
    is what [errorMode] records. *)
Definition displayFailure (t : option addr) (msg : string) (w : world) : world :=
  let w := emit [EvDisplayFailure t msg] w in
  match t with
  | Some a =>
      match terminals w !! a with
      | Some T =>
          set_terminals
            (<[a := mkTerminal (title T) (renderer T) (grayscale T) true]> (terminals w)) w
      | None => w
      end
  | None => w
  end.

Definition set_peripherals (v : list (string * peripheral)) (c : Computer) : Computer :=
  mkComputer (id c) (isDebugger c) (term c) (config c) (mounts c) v
    (referencers c) (userdata_destructors c) (timerIDs c)
    (mouseMoveDebounceTimer c) (eventTimeout c) (openWebsockets c)
    (running c) (L c) (eventQueue c) (debugger c).
Definition set_eventTimeout (v : Z) (c : Computer) : Computer :=
  mkComputer (id c) (isDebugger c) (term c) (config c) (mounts c) (peripherals c)
    (referencers c) (userdata_destructors c) (timerIDs c)
    (mouseMoveDebounceTimer c) v (openWebsockets c)
    (running c) (L c) (eventQueue c) (debugger c).
Definition set_openWebsockets (v : list Z) (c : Computer) : Computer :=
  mkComputer (id c) (isDebugger c) (term c) (config c) (mounts c) (peripherals c)
    (referencers c) (userdata_destructors c) (timerIDs c)
    (mouseMoveDebounceTimer c) (eventTimeout c) v
    (running c) (L c) (eventQueue c) (debugger c).
Definition set_running (v : Z) (c : Computer) : Computer :=
  mkComputer (id c) (isDebugger c) (term c) (config c) (mounts c) (peripherals c)
    (referencers c) (userdata_destructors c) (timerIDs c)
    (mouseMoveDebounceTimer c) (eventTimeout c) (openWebsockets c)
    v (L c) (eventQueue c) (debugger c).
Definition set_L (v : option nat) (c : Computer) : Computer :=
  mkComputer (id c) (isDebugger c) (term c) (config c) (mounts c) (peripherals c)
    (referencers c) (userdata_destructors c) (timerIDs c)
    (mouseMoveDebounceTimer c) (eventTimeout c) (openWebsockets c)
    (running c) v (eventQueue c) (debugger c).
Definition set_eventQueue (v : list string) (c : Computer) : Computer :=
  mkComputer (id c) (isDebugger c) (term c) (config c) (mounts c) (peripherals c)
    (referencers c) (userdata_destructors c) (timerIDs c)
    (mouseMoveDebounceTimer c) (eventTimeout c) (openWebsockets c)
    (running c) (L c) v (debugger c).

End Host.

(** * Teardown: [Computer::~Computer] *)

Module Teardown.
Import Host.

(** [std::string(it->second->getMethods().name) == "computer" &&
    ((computer* )it->second)->comp == this] *)
Definition points_back (this : addr) (p : peripheral) : bool :=
  bool_decide (methods_name p = "computer") && bool_decide (comp p = Some this).

(** The inner loop over [( *c)->peripherals].  The argument is what lies
    from the iterator [it] to [end()], in the map's iteration order; the
    result is what is kept of it and the sides of the peripherals deleted.
    After [it = erase(it)] the iterator designates the entry that followed
    the erased one, and the loop's [++it] then steps over that entry. *)
Fixpoint detach_scan (this : addr) (rest : list (string * peripheral))
  : list (string * peripheral) * list string :=
  match rest with
  | [] => ([], [])
  | (side, p) :: after =>
      if points_back this p then
        match after with
        | [] => ([], [side])
        | next :: after' =>
            let '(kept, deleted) := detach_scan this after' in
            (next :: kept, side :: deleted)
        end
      else
        let '(kept, deleted) := detach_scan this after in
        ((side, p) :: kept, deleted)
  end.

(** One round of the outer loop: the referencer [c] is locked, scanned and
    unlocked. *)
Definition detach_from (this c : addr) (w : world) : world :=
  match instances w !! c with
  | Some other =>
      let '(kept, deleted) := detach_scan this (peripherals other) in
      emit ([EvLock c] ++ map (EvDeletePeripheral c) deleted ++ [EvUnlock c])
        (set_instances (<[c := set_peripherals kept other]> (instances w)) w)
  | None => w
  end.

(** [for (auto c = referencers.begin(); c != referencers.end(); ++c)] *)
Definition detach_referencers (this : addr) (refs : list addr) (w : world) : world :=
  foldl (fun w c => detach_from this c w) w refs.

(** The terminal is handed to [orphanedTerminals] when it shows an error,
    and deleted otherwise. *)
Definition release_terminal (t : option addr) (w : world) : world :=
  match t with
  | Some a =>
      match terminals w !! a with
      | Some T =>
          if errorMode T
          then set_orphanedTerminals ({[a]} ∪ orphanedTerminals w) w
          else set_terminals (delete a (terminals w)) w
      | None => w
      end
  | None => w
  end.

Definition remove_timer (t : Z) (w : world) : world :=
  if decide (t = 0) then w else emit [EvRemoveTimer t] w.

(** [Computer::~Computer], statement by statement. *)
Definition Computer_dtor (this : addr) (w : world) : world :=
  match instances w !! this with
  | None => w
  | Some self =>
      let w := emit (map EvUserdataDestructor (userdata_destructors self)) w in
      let w := release_terminal (term self) w in
      let w := emit [EvSetComputerConfig (id self)] w in
      let w := emit (map (fun p => EvPeripheralDestructor p.1) (peripherals self)) w in
      let w := detach_referencers this (referencers self) w in
      let w := set_freedTimers (list_to_set (timerIDs self) ∪ freedTimers w) w in
      let w := remove_timer (mouseMoveDebounceTimer self) w in
      let w := remove_timer (eventTimeout self) w in
      emit (map EvStopWebsocket (openWebsockets self)) w
  end.

(** [delete comp]: the destructor runs, then the memory is given back. *)
Definition delete_Computer (this : addr) (w : world) : world :=
  let w := Computer_dtor this w in
  set_instances (delete this (instances w)) w.

(** The peripherals of [c] that still point at [this]. *)
Definition back_pointers (this : addr) (c : addr) (w : world) : list string :=
  match instances w !! c with
  | Some other =>
      (filter (fun sp => points_back this sp.2 = true) (peripherals other)).*1
  | None => []
  end.

(** No two neighbours in the iteration order both point back. *)
Fixpoint no_adjacent_back_pointers (this : addr) (l : list (string * peripheral)) : Prop :=
  match l with
  | [] => True
  | (_, p) :: after =>
      match after with
      | [] => True
      | (_, q) :: _ =>
          ¬ (points_back this p = true ∧ points_back this q = true) ∧
          no_adjacent_back_pointers this after
      end
  end.

(** ** What the scan does *)

(** Whatever the scan deletes did point back. *)
Lemma detach_scan_deleted this : ∀ l side,
  side ∈ (detach_scan this l).2 →
  ∃ p, (side, p) ∈ l ∧ points_back this p = true.
Proof.
  fix IH 1. intros [|[s p] after] side; simpl.
  - intros H. by apply elem_of_nil in H.
  - destruct (points_back this p) eqn:E.
    + destruct after as [|next after'].
      * simpl. intros H. apply list_elem_of_singleton in H as ->.
        exists p. split; [left|done].
      * specialize (IH after' side).
        destruct (detach_scan this after') as [kept deleted]. simpl in *.
        intros H. apply elem_of_cons in H as [->|H].
        -- exists p. split; [left|done].
        -- destruct (IH H) as (q & Hq & Hb). exists q. split; [|done].
           right. right. done.
    + specialize (IH after side).
      destruct (detach_scan this after) as [kept deleted]. simpl in *.
      intros H. destruct (IH H) as (q & Hq & Hb). exists q. split; [|done].
      by right.
Qed.

(** When no two neighbours point back, nothing that points back is kept. *)
Lemma detach_scan_complete this : ∀ l,
  no_adjacent_back_pointers this l →
  Forall (fun sp => points_back this sp.2 = false) (detach_scan this l).1.
Proof.
  fix IH 1. intros [|[s p] after]; simpl.
  - constructor.
  - destruct (points_back this p) eqn:E.
    + destruct after as [|[s' q] after'].
      * constructor.
      * intros [Hpq Hrest].
        assert (no_adjacent_back_pointers this after') as Hrest'.
        { simpl in Hrest. destruct after' as [|[s'' r] after'']; [done|].
          by destruct Hrest. }
        specialize (IH after' Hrest').
        destruct (detach_scan this after') as [kept deleted]. simpl in *.
        constructor; [|done]. simpl.
        destruct (points_back this q); [|done]. exfalso. by apply Hpq.
    + intros Hadj.
      assert (no_adjacent_back_pointers this after) as Hrest.
      { destruct after as [|[s' q] after']; [done|]. by destruct Hadj. }
      specialize (IH after Hrest).
      destruct (detach_scan this after) as [kept deleted]. simpl in *.
      constructor; [done|done].
Qed.

(** Instance 2 (at address 2) carries two [computer] peripherals, on sides
    [left] and [right], both pointing at the instance at address 1, and is
    its one referencer. *)
Definition two_links : world :=
  let link := mkPeripheral "computer" (Some 1%nat) in
  let blank := mkComputerConfiguration "" true false in
  let a := mkComputer 0 false None blank [] [] [2%nat] [] [] 0 0 [] 0 None [] false in
  let b := mkComputer 1 false None blank []
             [("left", link); ("right", link)] [] [] [] 0 0 [] 1 None [] false in
  mkWorld (mkConfiguration false true 0 17000 false false false false) 1
    [1%nat; 2%nat] ∅ ∅ ∅ [1%nat; 2%nat] [] false ∅
    (<[1%nat := a]> (<[2%nat := b]> ∅)) [] [].

(** C6 at its failing input: two neighbouring peripherals of the
    referencer point back.  Destroying the instance at address 1 locks the
    referencer, deletes [left], unlocks, and leaves [right] in the
    referencer's map, still pointing at the destroyed instance; the
    referencer itself stays. *)
Lemma teardown_skips_adjacent_peripheral :
  let w := Computer_dtor 1%nat two_links in
  back_pointers 1%nat 2%nat two_links = ["left"; "right"] ∧
  back_pointers 1%nat 2%nat w = ["right"] ∧
  trace w = [EvSetComputerConfig 0; EvLock 2%nat;
             EvDeletePeripheral 2%nat "left"; EvUnlock 2%nat] ∧
  is_Some (instances w !! 2%nat).
Proof. vm_compute. repeat split; eauto. Qed.

(** ** The scan on arbitrary peripheral maps *)

(** How many entries point back. *)
Definition count_back (this : addr) (l : list (string * peripheral)) : nat :=
  length (filter (fun sp => points_back this sp.2 = true) l).

Lemma count_back_cons this sp l :
  count_back this (sp :: l)
  = ((if points_back this sp.2 then 1 else 0) + count_back this l)%nat.
Proof.
  unfold count_back. rewrite filter_cons.
  destruct (points_back this sp.2); case_decide; simpl; congruence.
Qed.

(** What the scan keeps is a part of the map, in the same order, and the
    entries are either kept or deleted. *)
Lemma detach_scan_sublist this : ∀ l,
  sublist (detach_scan this l).1 l ∧
  (length (detach_scan this l).1 + length (detach_scan this l).2)%nat = length l.
Proof.
  fix IH 1. intros [|[s p] after]; simpl.
  - split; [constructor|done].
  - destruct (points_back this p).
    + destruct after as [|next after'].
      * split; [apply sublist_nil_l|done].
      * destruct (IH after') as [H1 H2].
        destruct (detach_scan this after') as [kept deleted]. simpl in *.
        split; [by apply sublist_cons, sublist_skip|lia].
    + destruct (IH after) as [H1 H2].
      destruct (detach_scan this after) as [kept deleted]. simpl in *.
      split; [by apply sublist_skip|lia].
Qed.

(** An entry that does not point back is never removed. *)
Lemma detach_scan_keeps this : ∀ l sp,
  sp ∈ l → points_back this sp.2 = false → sp ∈ (detach_scan this l).1.
Proof.
  fix IH 1. intros [|[s p] after] sp; simpl.
  - intros H. by apply elem_of_nil in H.
  - intros Hin Hsp. destruct (points_back this p) eqn:E.
    + destruct after as [|next after'].
      * apply list_elem_of_singleton in Hin as ->. simpl in Hsp. congruence.
      * specialize (IH after' sp).
        destruct (detach_scan this after') as [kept deleted]. simpl in *.
        apply elem_of_cons in Hin as [->|Hin]; [simpl in Hsp; congruence|].
        apply elem_of_cons in Hin as [->|Hin]; [left|right; by apply IH].
    + specialize (IH after sp).
      destruct (detach_scan this after) as [kept deleted]. simpl in *.
      apply elem_of_cons in Hin as [->|Hin]; [left|right; by apply IH].
Qed.

(** A scan never adds a back pointer, and removes at least one when there
    is one: the first entry that points back is always reached. *)
Lemma detach_scan_count this : ∀ l,
  (count_back this (detach_scan this l).1 ≤ count_back this l)%nat ∧
  ((0 < count_back this l)%nat →
   (count_back this (detach_scan this l).1 < count_back this l)%nat).
Proof.
  fix IH 1. intros [|[s p] after].
  - simpl. split; [done|]. unfold count_back. simpl. lia.
  - rewrite count_back_cons. cbn [detach_scan snd].
    destruct (points_back this p) eqn:E.
    + destruct after as [|next after'].
      * cbn. unfold count_back. simpl. lia.
      * destruct (IH after') as [H1 _].
        destruct (detach_scan this after') as [kept deleted]. cbn [fst] in *.
        rewrite !count_back_cons. lia.
    + destruct (IH after) as [H1 H2].
      destruct (detach_scan this after) as [kept deleted]. cbn [fst] in *.
      rewrite count_back_cons. cbn [snd]. rewrite E. lia.
Qed.

(** ** What the destructor leaves alone *)

Lemma back_pointers_length this c w other :
  instances w !! c = Some other →
  length (back_pointers this c w) = count_back this (peripherals other).
Proof.
  intros H. unfold back_pointers, count_back. rewrite H.
  by rewrite length_fmap.
Qed.

(** One round changes the peripherals of the locked instance and the
    trace, and nothing else. *)
Lemma detach_from_frame this c w :
  let w' := detach_from this c w in
  gconfig w' = gconfig w ∧ computers w' = computers w ∧
  freedComputers w' = freedComputers w ∧ freedTimers w' = freedTimers w ∧
  orphanedTerminals w' = orphanedTerminals w ∧
  computerThreads w' = computerThreads w ∧ terminals w' = terminals w ∧
  taskQueue w' = taskQueue w ∧
  (∀ a, a ≠ c → instances w' !! a = instances w !! a) ∧
  instances w' !! c
  = (fun other => set_peripherals (detach_scan this (peripherals other)).1 other)
      <$> instances w !! c.
Proof.
  unfold detach_from. destruct (instances w !! c) as [other|] eqn:E.
  - cbn [fmap option_fmap option_map].
    destruct (detach_scan this (peripherals other)) as [kept deleted].
    simpl. repeat split; try done.
    + intros a Ha. by apply lookup_insert_ne.
    + apply lookup_insert_eq.
  - simpl. repeat split; try done.
Qed.

(** The same instance with another peripheral map. *)
Definition same_but_peripherals (a b : Computer) : Prop :=
  set_peripherals (peripherals a) b = a.

Lemma same_but_peripherals_refl a : same_but_peripherals a a.
Proof. by destruct a. Qed.

Lemma same_but_peripherals_set a b l :
  same_but_peripherals a b → same_but_peripherals a (set_peripherals l b).
Proof. unfold same_but_peripherals. intros <-. by destruct b. Qed.

Lemma detach_referencers_frame this refs : ∀ w,
  let w' := detach_referencers this refs w in
  gconfig w' = gconfig w ∧ computers w' = computers w ∧
  freedComputers w' = freedComputers w ∧ freedTimers w' = freedTimers w ∧
  orphanedTerminals w' = orphanedTerminals w ∧
  computerThreads w' = computerThreads w ∧ terminals w' = terminals w ∧
  taskQueue w' = taskQueue w ∧
  (∀ a, a ∉ refs → instances w' !! a = instances w !! a) ∧
  (∀ a other, instances w !! a = Some other →
     ∃ other', instances w' !! a = Some other' ∧
               same_but_peripherals other other' ∧
               sublist (peripherals other') (peripherals other)) ∧
  (∀ a, instances w !! a = None → instances w' !! a = None).
Proof.
  induction refs as [|c refs IH]; intros w; simpl.
  - repeat split; try done.
    intros a other H. exists other.
    split; [done|]. split; [apply same_but_peripherals_refl|done].
  - destruct (detach_from_frame this c w)
      as (F1 & F2 & F3 & F4 & F5 & F6 & F7 & F8 & F9 & F10).
    destruct (IH (detach_from this c w))
      as (G1 & G2 & G3 & G4 & G5 & G6 & G7 & G8 & G9 & G10 & G11).
    simpl in *. unfold detach_referencers in *.
    repeat split; try congruence.
    + intros a Ha. apply not_elem_of_cons in Ha as [Hac Ha].
      rewrite G9 by done. by apply F9.
    + intros a other Ha.
      destruct (decide (a = c)) as [->|Hac].
      * rewrite Ha in F10. simpl in F10.
        destruct (G10 _ _ F10) as (o' & Ho' & Hs & Hsub).
        exists o'. split; [done|]. split.
        -- unfold same_but_peripherals in *. by destruct other, o'; simplify_eq/=.
        -- etrans; [exact Hsub|]. simpl.
           apply (detach_scan_sublist this (peripherals other)).
      * rewrite <- F9 in Ha by done. by apply G10.
    + intros a Ha. apply G11.
      destruct (decide (a = c)) as [->|Hac].
      * by rewrite F10, Ha.
      * by rewrite F9.
Qed.

(** After the rounds, the back pointers left in [c] are at most those it
    had, less one for each time [c] is listed. *)
Lemma detach_referencers_count this c refs : ∀ w,
  (length (back_pointers this c (detach_referencers this refs w))
   ≤ length (back_pointers this c w) - length (filter (fun r => r = c) refs))%nat.
Proof.
  induction refs as [|r refs IH]; intros w; simpl.
  - lia.
  - etrans; [apply IH|].
    destruct (detach_from_frame this r w) as (_&_&_&_&_&_&_&_& F9 & F10).
    rewrite filter_cons. case_decide as Hr.
    + subst r. simpl in F10.
      destruct (instances w !! c) as [other|] eqn:E.
      * rewrite (back_pointers_length this c w other E).
        rewrite (back_pointers_length this c _ _ F10). simpl.
        destruct (detach_scan_count this (peripherals other)) as [H1 H2].
        destruct (decide (0 < count_back this (peripherals other))%nat) as [Hp|Hp].
        -- specialize (H2 Hp). lia.
        -- lia.
      * unfold back_pointers at 1. simpl in F10. rewrite F10. simpl. lia.
    + assert (back_pointers this c (detach_from this r w) = back_pointers this c w)
        as -> by (unfold back_pointers; by rewrite F9).
      lia.
Qed.

Lemma release_terminal_frame t w :
  let w' := release_terminal t w in
  gconfig w' = gconfig w ∧ computers w' = computers w ∧
  freedComputers w' = freedComputers w ∧ freedTimers w' = freedTimers w ∧
  computerThreads w' = computerThreads w ∧ instances w' = instances w ∧
  taskQueue w' = taskQueue w ∧ trace w' = trace w.
Proof.
  unfold release_terminal. destruct t as [a|]; [|done].
  destruct (terminals w !! a) as [T|]; [|done].
  by destruct (errorMode T).
Qed.

Lemma remove_timer_frame t w :
  let w' := remove_timer t w in
  gconfig w' = gconfig w ∧ computers w' = computers w ∧
  freedComputers w' = freedComputers w ∧ freedTimers w' = freedTimers w ∧
  orphanedTerminals w' = orphanedTerminals w ∧
  computerThreads w' = computerThreads w ∧ terminals w' = terminals w ∧
  instances w' = instances w ∧ taskQueue w' = taskQueue w.
Proof. unfold remove_timer. by case_decide. Qed.

(** The instances after the destructor are those after its scans. *)
Lemma Computer_dtor_instances this w self :
  instances w !! this = Some self →
  ∃ w0, instances w0 = instances w ∧ computers w0 = computers w ∧
        freedComputers w0 = freedComputers w ∧ freedTimers w0 = freedTimers w ∧
        taskQueue w0 = taskQueue w ∧ computerThreads w0 = computerThreads w ∧
        gconfig w0 = gconfig w ∧
        let w1 := detach_referencers this (referencers self) w0 in
        let w' := Computer_dtor this w in
        instances w' = instances w1 ∧ computers w' = computers w1 ∧
        freedComputers w' = freedComputers w1 ∧
        freedTimers w' = list_to_set (timerIDs self) ∪ freedTimers w1 ∧
        taskQueue w' = taskQueue w1 ∧ computerThreads w' = computerThreads w1 ∧
        gconfig w' = gconfig w1.
Proof.
  intros H. unfold Computer_dtor. rewrite H.
  set (w0 := emit (map (fun p : string * peripheral => EvPeripheralDestructor p.1)
                    (peripherals self))
              (emit [EvSetComputerConfig (id self)]
                 (release_terminal (term self)
                    (emit (map EvUserdataDestructor (userdata_destructors self)) w)))).
  exists w0.
  destruct (release_terminal_frame (term self)
              (emit (map EvUserdataDestructor (userdata_destructors self)) w))
    as (R1 & R2 & R3 & R4 & R5 & R6 & R7 & R8).
  simpl in *. repeat split; try done.
  all: set (w1 := detach_referencers this (referencers self) w0).
  all: set (w2 := set_freedTimers (list_to_set (timerIDs self) ∪ freedTimers w1) w1).
  all: destruct (remove_timer_frame (mouseMoveDebounceTimer self) w2)
         as (A1 & A2 & A3 & A4 & A5 & A6 & A7 & A8 & A9).
  all: destruct (remove_timer_frame (eventTimeout self)
                   (remove_timer (mouseMoveDebounceTimer self) w2))
         as (B1 & B2 & B3 & B4 & B5 & B6 & B7 & B8 & B9).
  all: simpl in *; congruence.
Qed.

(** [delete comp], seen from outside. *)
Lemma delete_Computer_summary this w self :
  instances w !! this = Some self →
  instances (delete_Computer this w) !! this = None ∧
  computers (delete_Computer this w) = computers w ∧
  freedComputers (delete_Computer this w) = freedComputers w ∧
  taskQueue (delete_Computer this w) = taskQueue w ∧
  (∀ t, t ∈ timerIDs self → t ∈ freedTimers (delete_Computer this w)) ∧
  (∀ a, a ≠ this → is_Some (instances w !! a) →
        is_Some (instances (delete_Computer this w) !! a)).
Proof.
  intros Hself. unfold delete_Computer.
  destruct (Computer_dtor_instances this w self Hself)
    as (w0 & E0 & E1 & E2 & E3 & E4 & E5 & E6 & D).
  cbv zeta in D. destruct D as (D0 & D1 & D2 & D3 & D4 & D5 & D6).
  destruct (detach_referencers_frame this (referencers self) w0)
    as (G1 & G2 & G3 & G4 & G5 & G6 & G7 & G8 & G9 & G10 & G11).
  cbv zeta in G1, G2, G3, G4, G5, G6, G7, G8, G9, G10, G11.
  cbn [instances computers freedComputers freedTimers taskQueue set_instances].
  split; [apply lookup_delete_eq|].
  split; [by rewrite D1, G2, E1|].
  split; [by rewrite D2, G3, E2|].
  split; [by rewrite D4, G8, E4|].
  split.
  { intros t Ht. rewrite D3. apply elem_of_union_l, elem_of_list_to_set. exact Ht. }
  intros a Ha [other Ho].
  rewrite lookup_delete_ne by done. rewrite D0.
  assert (instances w0 !! a = Some other) as Ho0 by (by rewrite E0).
  destruct (G10 a other Ho0) as (other' & Ho' & _). eauto.
Qed.

(** ** Properties of the destructor *)

(** The scan of one peripheral map only ever removes peripherals that
    point back at the instance being destroyed: every other entry is
    kept, the entries kept stay in their order, each side deleted
    belonged to an entry that points back, and no entry is lost or
    counted twice. *)
Theorem scan_spares_other_peripherals
  (this : addr) (l : list (string * peripheral)) :
  sublist (detach_scan this l).1 l ∧
  (length (detach_scan this l).1 + length (detach_scan this l).2)%nat = length l ∧
  (∀ sp, sp ∈ l → points_back this sp.2 = false → sp ∈ (detach_scan this l).1) ∧
  (∀ side, side ∈ (detach_scan this l).2 →
           ∃ p, (side, p) ∈ l ∧ points_back this p = true).
Proof.
  destruct (detach_scan_sublist this l) as [H1 H2].
  split; [exact H1|]. split; [exact H2|].
  split; [apply detach_scan_keeps|apply detach_scan_deleted].
Qed.

(** One scan is enough when no two neighbouring entries of the map both
    point back: then nothing that points back is left. *)
Theorem scan_complete_without_neighbours
  (this : addr) (l : list (string * peripheral))
  (Hadj : no_adjacent_back_pointers this l) :
  count_back this (detach_scan this l).1 = 0%nat ∧
  Forall (fun sp => points_back this sp.2 = false) (detach_scan this l).1.
Proof.
  pose proof (detach_scan_complete this l Hadj) as H.
  split; [|exact H].
  unfold count_back. induction H as [|sp k Hsp Hk IH]; [done|].
  rewrite filter_cons. case_decide; [congruence|exact IH].
Qed.

(** A peripheral map with a modem between two links to the instance at
    address 1. *)
Definition links_apart : list (string * peripheral) :=
  [("left", mkPeripheral "computer" (Some 1%nat));
   ("right", mkPeripheral "modem" None);
   ("top", mkPeripheral "computer" (Some 1%nat))].

Lemma scan_complete_without_neighbours_witness :
  no_adjacent_back_pointers 1%nat links_apart ∧
  count_back 1%nat (detach_scan 1%nat links_apart).1 = 0%nat.
Proof.
  assert (no_adjacent_back_pointers 1%nat links_apart) as H.
  { simpl. split; [|split; [|exact I]]; intros [H1 H2]; vm_compute in H1, H2;
      congruence. }
  split; [exact H|].
  exact (proj1 (scan_complete_without_neighbours 1%nat links_apart H)).
Defined.

(** When an instance [c] is listed among the referencers at least once
    for each of its peripherals that point at the instance being
    destroyed, the destructor leaves none of them: each scan of [c]
    removes at least the first one it meets. *)
Theorem teardown_detaches_when_listed_per_peripheral
  (this c : addr) (w : world) (self : Computer)
  (Hself : instances w !! this = Some self)
  (Hlisted : (length (back_pointers this c w)
              ≤ length (filter (fun r => r = c) (referencers self)))%nat) :
  back_pointers this c (Computer_dtor this w) = [].
Proof.
  destruct (Computer_dtor_instances this w self Hself)
    as (w0 & E0 & _ & _ & _ & _ & _ & _ & E1 & _).
  simpl in E1.
  pose proof (detach_referencers_count this c (referencers self) w0) as Hc.
  assert (back_pointers this c w0 = back_pointers this c w) as Hw0
    by (unfold back_pointers; by rewrite E0).
  rewrite Hw0 in Hc.
  assert (back_pointers this c (Computer_dtor this w)
          = back_pointers this c (detach_referencers this (referencers self) w0))
    as -> by (unfold back_pointers; by rewrite E1).
  apply length_zero_iff_nil. lia.
Qed.

(** As [two_links], with the referencer listed once for each of its two
    links. *)
Definition two_links_listed_twice : world :=
  let link := mkPeripheral "computer" (Some 1%nat) in
  let blank := mkComputerConfiguration "" true false in
  let a := mkComputer 0 false None blank [] [] [2%nat; 2%nat] [] [] 0 0 [] 0 None [] false in
  let b := mkComputer 1 false None blank []
             [("left", link); ("right", link)] [] [] [] 0 0 [] 1 None [] false in
  mkWorld (mkConfiguration false true 0 17000 false false false false) 1
    [1%nat; 2%nat] ∅ ∅ ∅ [1%nat; 2%nat] [] false ∅
    (<[1%nat := a]> (<[2%nat := b]> ∅)) [] [].

Lemma teardown_detaches_when_listed_per_peripheral_witness :
  back_pointers 1%nat 2%nat two_links_listed_twice = ["left"; "right"] ∧
  back_pointers 1%nat 2%nat (Computer_dtor 1%nat two_links_listed_twice) = [].
Proof.
  split; [vm_compute; reflexivity|].
  eapply (teardown_detaches_when_listed_per_peripheral 1%nat 2%nat).
  - vm_compute. reflexivity.
  - vm_compute. lia.
Defined.

(** The destructor marks every timer of the instance as freed and forgets
    none that was; it leaves the registry of instances, the set of freed
    instances, the threads and the task queue as they are; and of the
    other instances it changes nothing but the peripheral maps of those
    listed as referencers, from which it only removes entries. *)
Theorem destructor_touches_only_referencers
  (this : addr) (w : world) (self : Computer)
  (Hself : instances w !! this = Some self) :
  let w' := Computer_dtor this w in
  (∀ t, t ∈ timerIDs self → t ∈ freedTimers w') ∧
  freedTimers w ⊆ freedTimers w' ∧
  computers w' = computers w ∧
  freedComputers w' = freedComputers w ∧
  computerThreads w' = computerThreads w ∧
  taskQueue w' = taskQueue w ∧
  (∀ a, a ∉ referencers self → instances w' !! a = instances w !! a) ∧
  (∀ a other, instances w !! a = Some other →
     ∃ other', instances w' !! a = Some other' ∧
               same_but_peripherals other other' ∧
               sublist (peripherals other') (peripherals other)).
Proof.
  destruct (Computer_dtor_instances this w self Hself)
    as (w0 & E0 & E1 & E2 & E3 & E4 & E5 & E6 & D).
  simpl in D. destruct D as (D0 & D1 & D2 & D3 & D4 & D5 & D6).
  destruct (detach_referencers_frame this (referencers self) w0)
    as (G1 & G2 & G3 & G4 & G5 & G6 & G7 & G8 & G9 & G10 & G11).
  simpl in *.
  split; [intros t Ht; rewrite D3;
          apply elem_of_union_l, elem_of_list_to_set; exact Ht|].
  split; [rewrite D3, G4, E3; apply union_subseteq_r|].
  split; [congruence|]. split; [congruence|]. split; [congruence|].
  split; [congruence|].
  split.
  - intros a Ha. rewrite D0, G9 by done. by rewrite E0.
  - intros a other Ha. rewrite D0. apply G10. by rewrite E0.
Qed.

Lemma destructor_touches_only_referencers_witness :
  is_Some (instances two_links !! 1%nat) ∧
  computers (Computer_dtor 1%nat two_links) = computers two_links.
Proof.
  assert (instances two_links !! 1%nat
          = Some (mkComputer 0 false None (mkComputerConfiguration "" true false)
                    [] [] [2%nat] [] [] 0 0 [] 0 None [] false)) as H
    by (vm_compute; reflexivity).
  split; [by rewrite H|].
  exact (proj1 (proj2 (proj2 (destructor_touches_only_referencers 1%nat two_links _ H)))).
Defined.

Lemma Computer_dtor_terminals this w self :
  instances w !! this = Some self →
  terminals (Computer_dtor this w) = terminals (release_terminal (term self) w) ∧
  orphanedTerminals (Computer_dtor this w)
  = orphanedTerminals (release_terminal (term self) w).
Proof.
  intros H. unfold Computer_dtor. rewrite H.
  set (w0 := emit (map (fun p : string * peripheral => EvPeripheralDestructor p.1)
                    (peripherals self))
              (emit [EvSetComputerConfig (id self)]
                 (release_terminal (term self)
                    (emit (map EvUserdataDestructor (userdata_destructors self)) w)))).
  assert (terminals w0 = terminals (release_terminal (term self) w) ∧
          orphanedTerminals w0 = orphanedTerminals (release_terminal (term self) w))
    as [T0 O0].
  { subst w0. unfold release_terminal. destruct (term self) as [a|]; [|done].
    cbn [terminals orphanedTerminals emit set_trace].
    destruct (terminals w !! a) as [T|]; [|done]. by destruct (errorMode T). }
  destruct (detach_referencers_frame this (referencers self) w0)
    as (G1 & G2 & G3 & G4 & G5 & G6 & G7 & _).
  cbv zeta in G5, G7.
  set (w1 := detach_referencers this (referencers self) w0) in *.
  set (w2 := set_freedTimers (list_to_set (timerIDs self) ∪ freedTimers w1) w1).
  destruct (remove_timer_frame (mouseMoveDebounceTimer self) w2)
    as (A1 & A2 & A3 & A4 & A5 & A6 & A7 & A8 & A9).
  destruct (remove_timer_frame (eventTimeout self)
              (remove_timer (mouseMoveDebounceTimer self) w2))
    as (B1 & B2 & B3 & B4 & B5 & B6 & B7 & B8 & B9).
  cbv zeta in A5, A7, B5, B7.
  cbn [terminals orphanedTerminals emit set_trace].
  rewrite B5, B7, A5, A7. subst w2.
  cbn [terminals orphanedTerminals set_freedTimers]. by rewrite G5, G7, T0, O0.
Qed.

(** What becomes of the display.  A terminal that shows an error is not
    deleted with its instance: it is handed to [orphanedTerminals] and
    stays as it is, for the user to read.  Any other terminal is deleted,
    and [orphanedTerminals] does not change.  Every other terminal is
    left alone. *)
Theorem terminal_is_orphaned_or_deleted
  (this a : addr) (w : world) (self : Computer) (T : Terminal)
  (Hself : instances w !! this = Some self)
  (Hterm : term self = Some a)
  (HT : terminals w !! a = Some T) :
  let w' := Computer_dtor this w in
  (errorMode T = true →
   a ∈ orphanedTerminals w' ∧ terminals w' !! a = Some T) ∧
  (errorMode T = false →
   terminals w' !! a = None ∧ orphanedTerminals w' = orphanedTerminals w) ∧
  (∀ b, b ≠ a → terminals w' !! b = terminals w !! b) ∧
  orphanedTerminals w ⊆ orphanedTerminals w'.
Proof.
  destruct (Computer_dtor_terminals this w self Hself) as [Ht Ho].
  cbv zeta. rewrite Ht, Ho, Hterm. unfold release_terminal. rewrite HT.
  destruct (errorMode T); cbn [terminals orphanedTerminals set_terminals
                                 set_orphanedTerminals].
  - split; [intros _; split; [apply elem_of_union_l, elem_of_singleton|]; done|].
    split; [done|]. split; [done|]. apply union_subseteq_r.
  - split; [done|].
    split; [intros _; split; [apply lookup_delete_eq|done]|].
    split; [intros b Hb; by apply lookup_delete_ne|done].
Qed.

(** An instance whose terminal shows an error. *)
Definition shows_error : world :=
  let blank := mkComputerConfiguration "" true false in
  let a := mkComputer 0 false (Some 9%nat) blank [] [] [] [] [] 0 0 [] 0 None [] false in
  mkWorld (mkConfiguration true true 0 17000 false false false false) 0
    [1%nat] ∅ ∅ ∅ [1%nat] [] false
    (<[9%nat := mkTerminal "CraftOS Terminal" 0 false true]> ∅)
    (<[1%nat := a]> ∅) [] [].

Lemma terminal_is_orphaned_or_deleted_witness :
  9%nat ∈ orphanedTerminals (Computer_dtor 1%nat shows_error) ∧
  is_Some (terminals (Computer_dtor 1%nat shows_error) !! 9%nat).
Proof.
  destruct (proj1 (terminal_is_orphaned_or_deleted 1%nat 9%nat shows_error
                     (mkComputer 0 false (Some 9%nat)
                        (mkComputerConfiguration "" true false)
                        [] [] [] [] [] 0 0 [] 0 None [] false)
                     (mkTerminal "CraftOS Terminal" 0 false true)
                     eq_refl eq_refl eq_refl) eq_refl) as [H1 H2].
  split; [exact H1|]. exists (mkTerminal "CraftOS Terminal" 0 false true). exact H2.
Defined.

End Teardown.

(** * Creation: [Computer::Computer] and [startComputer] *)

Module Lifecycle.
Import Host.

Section WithCollaborators.

(** The collaborators the constructor calls.  [addMount path name ro]
    tells whether the mounter accepted the mount; [terminal_throws r]
    is the message of the exception the terminal constructor of renderer
    [r] throws, when it throws. *)
Variable addMount : string -> string -> bool -> bool.
Variable getROMPath : string.
Variable getComputerConfig : Z -> computer_configuration.
Variable terminal_throws : Z -> option string.
Variable term_title : computer_configuration -> bool -> Z -> string.

(** Which [Terminal] class [selectedRenderer] selects: 2 CLITerminal,
    3 RawTerminal, 4 TRoRTerminal, 5 HardwareSDLTerminal, anything else
    but 1 SDLTerminal (0). *)
Definition terminal_class (r : Z) : Z :=
  if decide (r = 2) then 2 else if decide (r = 3) then 3
  else if decide (r = 4) then 4 else if decide (r = 5) then 5 else 0.

(** The body of the two [if (!addMount(...)) { ... }] blocks before the
    [throw]. *)
Definition mount_failure (t : option addr) (w : world) : world :=
  match t with
  | Some a =>
      if standardsMode (gconfig w)
      then
        let w := displayFailure (Some a) "Cannot mount ROM" w in
        set_orphanedTerminals ({[a]} ∪ orphanedTerminals w) w
      else set_terminals (delete a (terminals w)) w
  | None => w
  end.

(** One entry of [customMounts]: (guest name, host path, mode). *)
Definition custom_mount (cfg : configuration) (m : string * string * Z)
  : bool * option (string * string * bool) :=
  let '(name, path, mode) := m in
  if decide (mode = -1) then
    if decide (mount_mode cfg = MOUNT_MODE_NONE) then (false, None)
    else
      let ro := negb (bool_decide (mount_mode cfg = MOUNT_MODE_RW)) in
      (addMount path name ro, Some (path, name, ro))
  else if decide (mode = 0) then (addMount path name true, Some (path, name, true))
  else (addMount path name false, Some (path, name, false)).

Fixpoint custom_mounts (cfg : configuration) (ms : list (string * string * Z))
  : list (string * string * bool) * list event :=
  match ms with
  | [] => ([], [])
  | m :: rest =>
      let '(mounted, warnings) := custom_mounts cfg rest in
      match custom_mount cfg m with
      | (true, Some mt) => (mt :: mounted, warnings)
      | _ =>
          (mounted,
           EvStderr (String.append "Could not mount custom mount path at " m.1.2)
             :: warnings)
      end
  end.

(** [Computer::Computer(int i, bool debug)], the build without
    STANDALONE_ROM.  [this] is the storage [operator new] handed out and
    [tm] the address the terminal gets when one is made.  The result is
    the [what()] of the exception thrown, or nothing when the object is
    constructed (and then stored at [this]). *)
Definition Computer_ctor (this tm : addr) (i : Z) (debug : bool) (w : world)
  : (string + unit) * world :=
  let _config := getComputerConfig i in
  let r := selectedRenderer w in
  match (if decide (r = 1) then None else terminal_throws r) with
  | Some what => (inl what, w)
  | None =>
      let t : option addr := if decide (r = 1) then None else Some tm in
      let w :=
        match t with
        | Some a =>
            set_terminals
              (<[a := mkTerminal (term_title _config debug i) (terminal_class r)
                        (negb (isColor _config)) false]> (terminals w)) w
        | None => w
        end in
      let w := set_mounter_initializing true w in
      let rom_ro := romReadOnly (gconfig w) in
      if negb (addMount (String.append getROMPath "/rom") "rom" rom_ro)
      then (inl "Could not mount ROM", mount_failure t w)
      else if debug && negb (addMount (String.append getROMPath "/debug") "debug" true)
      then (inl "Could not mount debugger ROM", mount_failure t w)
      else
        let '(mounted, warnings) := custom_mounts (gconfig w) (customMounts w) in
        let w := emit warnings w in
        let w := set_mounter_initializing false w in
        let base :=
          (String.append getROMPath "/rom", "rom", rom_ro) ::
          (if debug then [(String.append getROMPath "/debug", "debug", true)] else []) in
        let self :=
          mkComputer i debug t _config (base ++ mounted) [] [] [] [] 0 0 [] 0 None []
            false in
        (inr tt, set_instances (<[this := self]> (instances w)) w)
  end.

(** The report [startComputer] makes of a construction failure: a message
    box under the two SDL renderers outside standards mode, a line on
    stderr otherwise. *)
Definition failure_report (w : world) (what : string) : event :=
  let r := selectedRenderer w in
  if (bool_decide (r = 0) || bool_decide (r = 5)) && negb (standardsMode (gconfig w))
  then EvMessageBox "Failed to open computer"
  else EvStderr (String.append "An error occurred while opening the computer session: " what).

(** [startComputer(id)].  [new Computer(id)] constructs with [debug]
    false, the default of the declaration. *)
Definition startComputer (this tm : addr) (i : Z) (w : world) : option addr * world :=
  match Computer_ctor this tm i false w with
  | (inl what, w) => (None, emit [failure_report w what] w)
  | (inr _, w) =>
      let w := set_computers (computers w ++ [this]) w in
      let w := emit [EvSpawnThread this] w in
      let w := set_computerThreads (computerThreads w ++ [this]) w in
      (Some this, w)
  end.

(** What became of the terminal of a construction that failed. *)
Inductive terminal_fate (tm : addr) (w w' : world) : Prop :=
| NeverMade :
    terminals w' = terminals w → orphanedTerminals w' = orphanedTerminals w →
    trace w' = trace w → terminal_fate tm w w'
| Orphaned :
    standardsMode (gconfig w) = true →
    tm ∈ orphanedTerminals w' → is_Some (terminals w' !! tm) →
    trace w' = trace w ++ [EvDisplayFailure (Some tm) "Cannot mount ROM"] →
    terminal_fate tm w w'
| Released :
    standardsMode (gconfig w) = false →
    terminals w' !! tm = None → orphanedTerminals w' = orphanedTerminals w →
    trace w' = trace w → terminal_fate tm w w'.

(** ** A failed construction *)

Lemma mount_failure_fate tm (w0 w : world) T :
  gconfig w = gconfig w0 → trace w = trace w0 →
  orphanedTerminals w = orphanedTerminals w0 →
  terminals w !! tm = Some T →
  terminal_fate tm w0 (mount_failure (Some tm) w) ∧
  computers (mount_failure (Some tm) w) = computers w ∧
  computerThreads (mount_failure (Some tm) w) = computerThreads w ∧
  instances (mount_failure (Some tm) w) = instances w ∧
  selectedRenderer (mount_failure (Some tm) w) = selectedRenderer w ∧
  gconfig (mount_failure (Some tm) w) = gconfig w.
Proof.
  intros Hc Ht Ho HT. unfold mount_failure.
  destruct (standardsMode (gconfig w)) eqn:E.
  - unfold displayFailure. simpl. rewrite HT. simpl.
    split; [|done].
    apply Orphaned; simpl.
    + by rewrite <- Hc.
    + apply elem_of_union_l, elem_of_singleton. reflexivity.
    + rewrite lookup_insert_eq. eauto.
    + by rewrite Ht.
  - split; [|done].
    apply Released; simpl; try done.
    + by rewrite <- Hc.
    + apply lookup_delete_eq.
Qed.

Lemma Computer_ctor_failure this tm i debug w what w' :
  Computer_ctor this tm i debug w = (inl what, w') →
  terminal_fate tm w w' ∧
  computers w' = computers w ∧ computerThreads w' = computerThreads w ∧
  instances w' = instances w ∧ selectedRenderer w' = selectedRenderer w ∧
  gconfig w' = gconfig w.
Proof.
  unfold Computer_ctor.
  destruct (decide (selectedRenderer w = 1)) as [Hr|Hr].
  - (* headless: no terminal *)
    simpl.
    repeat match goal with
           | |- context [if ?b then _ else _] => destruct b
           end;
      try destruct (custom_mounts _ _); intros [= <- <-]; simpl;
      (split; [by apply NeverMade|done]).
  - destruct (terminal_throws (selectedRenderer w)) as [e|].
    + intros [= <- <-]. split; [by apply NeverMade|done].
    + set (T := mkTerminal _ _ _ _).
      set (w1 := set_mounter_initializing true _).
      assert (terminals w1 !! tm = Some T) as HT
        by (subst w1; simpl; apply lookup_insert_eq).
      repeat match goal with
             | |- context [if ?b then _ else _] => destruct b
             end;
        try destruct (custom_mounts _ _); intros [= <- <-];
        by apply (mount_failure_fate tm w w1 T).
Qed.

End WithCollaborators.

(** C7: when the constructor throws, [startComputer] returns no handle;
    the live-instance list, the list of instance threads and the heap of
    instances are as before, and no thread is spawned; the trace gains
    exactly one report (message box or stderr line) after what the
    constructor did; and the terminal was never made, or is released, or
    - in standards mode, where the failure is shown on it - sits in
    [orphanedTerminals]. *)
Theorem failed_construction_registers_nothing
  (addMount : string → string → bool → bool) (getROMPath : string)
  (getComputerConfig : Z → computer_configuration)
  (terminal_throws : Z → option string)
  (term_title : computer_configuration → bool → Z → string)
  (this tm : addr) (i : Z) (w w' : world) (what : string) :
  Computer_ctor addMount getROMPath getComputerConfig terminal_throws term_title
    this tm i false w = (inl what, w') →
  let r := startComputer addMount getROMPath getComputerConfig terminal_throws
             term_title this tm i w in
  r.1 = None ∧
  computers r.2 = computers w ∧
  computerThreads r.2 = computerThreads w ∧
  instances r.2 = instances w ∧
  (EvSpawnThread this ∉ drop (length (trace w)) (trace r.2)) ∧
  trace r.2 = trace w' ++ [failure_report w what] ∧
  terminal_fate tm w w'.
Proof.
  intros Hctor. unfold startComputer. rewrite Hctor. simpl.
  destruct (Computer_ctor_failure _ _ _ _ _ _ _ _ _ _ _ _ Hctor)
    as (Hfate & Hc & Ht & Hi & Hr & Hg).
  assert (failure_report w' what = failure_report w what) as ->
    by (unfold failure_report; by rewrite Hr, Hg).
  repeat split; try done.
  intros Hin.
  assert (∃ pre, trace w' = trace w ++ pre ∧ EvSpawnThread this ∉ pre) as (pre & Hpre & Hno).
  { destruct Hfate as [_ _ ->| _ _ _ ->| _ _ _ ->].
    - exists []. rewrite app_nil_r. split; [done|]. apply not_elem_of_nil.
    - eexists. split; [done|]. intros H.
      apply list_elem_of_singleton in H. discriminate.
    - exists []. rewrite app_nil_r. split; [done|]. apply not_elem_of_nil. }
  rewrite Hpre, <- app_assoc, drop_app_length in Hin.
  apply elem_of_app in Hin as [Hin|Hin]; [done|].
  apply list_elem_of_singleton in Hin.
  unfold failure_report in Hin. by destruct (_ && _).
Qed.

(** The ROM cannot be mounted, SDL renderer, standards mode off. *)
Definition no_rom : world :=
  mkWorld (mkConfiguration false true 0 17000 false false false false) 0
    [] ∅ ∅ ∅ [] [] false ∅ ∅ [] [].

Lemma failed_construction_registers_nothing_witness :
  let addMount := fun (_ _ : string) (_ : bool) => false in
  let cfg := fun _ : Z => mkComputerConfiguration "" true false in
  let title := fun (_ : computer_configuration) (_ : bool) (_ : Z) => "CraftOS Terminal" in
  let r := startComputer addMount "/usr/share/craftos" cfg (fun _ => None) title
             7%nat 9%nat 0 no_rom in
  r.1 = None ∧ computers r.2 = [] ∧ computerThreads r.2 = [] ∧
  trace r.2 = [EvMessageBox "Failed to open computer"].
Proof.
  intros addMount cfg title r.
  destruct (failed_construction_registers_nothing addMount "/usr/share/craftos" cfg
              (fun _ => None) title 7%nat 9%nat 0 no_rom
              (set_terminals (delete 9%nat (<[9%nat := mkTerminal "CraftOS Terminal" 0 false false]> ∅))
                 (set_mounter_initializing true
                    (set_terminals (<[9%nat := mkTerminal "CraftOS Terminal" 0 false false]> ∅) no_rom)))
              "Could not mount ROM" eq_refl)
    as (H1 & H2 & H3 & _ & _ & H6 & _).
  exact (conj H1 (conj H2 (conj H3 H6))).
Defined.

(** ** A construction that succeeds, and the custom mounts *)

(** Each entry of [customMounts] is either mounted or warned about. *)
Lemma custom_mounts_length
  (addMount : string → string → bool → bool) cfg ms :
  (length (custom_mounts addMount cfg ms).1
   + length (custom_mounts addMount cfg ms).2)%nat = length ms.
Proof.
  induction ms as [|m rest IH]; [done|]. simpl.
  destruct (custom_mounts addMount cfg rest) as [mounted warnings].
  destruct (custom_mount addMount cfg m) as [[] [mt|]]; simpl in *; lia.
Qed.

Lemma custom_mounts_warnings
  (addMount : string → string → bool → bool) cfg ms :
  Forall (fun e => ∃ m, m ∈ ms ∧
            e = EvStderr (String.append "Could not mount custom mount path at " m.1.2))
         (custom_mounts addMount cfg ms).2.
Proof.
  induction ms as [|m rest IH]; [constructor|]. simpl.
  destruct (custom_mounts addMount cfg rest) as [mounted warnings].
  simpl in IH.
  assert (Forall (fun e => ∃ m0, m0 ∈ m :: rest ∧
            e = EvStderr (String.append "Could not mount custom mount path at " m0.1.2))
            warnings) as IH'.
  { eapply Forall_impl; [exact IH|]. intros e (m0 & H0 & ->).
    exists m0. split; [by right|done]. }
  destruct (custom_mount addMount cfg m) as [[] [mt|]]; simpl; try done;
    (constructor; [exists m; split; [left|done]|done]).
Qed.

(** What the constructor does when the terminal is made (or none is
    wanted) and the ROM mounts. *)
Lemma Computer_ctor_success
  (addMount : string → string → bool → bool) (getROMPath : string)
  (getComputerConfig : Z → computer_configuration)
  (terminal_throws : Z → option string)
  (term_title : computer_configuration → bool → Z → string)
  (this tm : addr) (i : Z) (w : world) :
  (selectedRenderer w = 1 ∨ terminal_throws (selectedRenderer w) = None) →
  addMount (String.append getROMPath "/rom") "rom" (romReadOnly (gconfig w)) = true →
  ∃ w', Computer_ctor addMount getROMPath getComputerConfig terminal_throws
          term_title this tm i false w = (inr tt, w') ∧
        computers w' = computers w ∧ computerThreads w' = computerThreads w ∧
        freedComputers w' = freedComputers w ∧ taskQueue w' = taskQueue w ∧
        gconfig w' = gconfig w ∧ selectedRenderer w' = selectedRenderer w ∧
        mounter_initializing w' = false ∧
        trace w' = trace w ++ (custom_mounts addMount (gconfig w) (customMounts w)).2 ∧
        instances w'
        = <[this := mkComputer i false
                      (if decide (selectedRenderer w = 1) then None else Some tm)
                      (getComputerConfig i)
                      ((String.append getROMPath "/rom", "rom", romReadOnly (gconfig w))
                         :: (custom_mounts addMount (gconfig w) (customMounts w)).1)
                      [] [] [] [] 0 0 [] 0 None [] false]> (instances w).
Proof.
  intros Hterm Hrom. unfold Computer_ctor.
  destruct (decide (selectedRenderer w = 1)) as [Hr|Hr].
  - simpl. rewrite Hrom. simpl.
    destruct (custom_mounts addMount (gconfig w) (customMounts w))
      as [mounted warnings].
    eexists. split; [reflexivity|]. simpl. repeat split; done.
  - destruct Hterm as [Hterm|Hterm]; [done|]. rewrite Hterm. simpl.
    rewrite Hrom. simpl.
    destruct (custom_mounts addMount (gconfig w) (customMounts w))
      as [mounted warnings].
    eexists. split; [reflexivity|]. simpl. repeat split; done.
Qed.

(** [startComputer] gives a handle exactly when the terminal constructor
    does not throw (headless mode makes no terminal) and the ROM mounts.
    Then the instance is stored with no Lua state and not running, it is
    appended to [computers] and to [computerThreads], one thread is
    spawned for it, and [mounter_initializing] is false again.  A custom
    mount that fails never aborts the construction: each entry of
    [customMounts] is either mounted or reported by one line on stderr,
    and nothing else is printed. *)
Theorem construction_succeeds_despite_custom_mounts
  (addMount : string → string → bool → bool) (getROMPath : string)
  (getComputerConfig : Z → computer_configuration)
  (terminal_throws : Z → option string)
  (term_title : computer_configuration → bool → Z → string)
  (this tm : addr) (i : Z) (w : world)
  (Hterm : selectedRenderer w = 1 ∨ terminal_throws (selectedRenderer w) = None)
  (Hrom : addMount (String.append getROMPath "/rom") "rom"
            (romReadOnly (gconfig w)) = true) :
  let r := startComputer addMount getROMPath getComputerConfig terminal_throws
             term_title this tm i w in
  let mounted := (custom_mounts addMount (gconfig w) (customMounts w)).1 in
  let warnings := (custom_mounts addMount (gconfig w) (customMounts w)).2 in
  r.1 = Some this ∧
  computers r.2 = computers w ++ [this] ∧
  computerThreads r.2 = computerThreads w ++ [this] ∧
  trace r.2 = trace w ++ warnings ++ [EvSpawnThread this] ∧
  (length mounted + length warnings)%nat = length (customMounts w) ∧
  mounter_initializing r.2 = false ∧
  (∃ self, instances r.2 !! this = Some self ∧
           id self = i ∧ running self = 0 ∧ L self = None ∧
           peripherals self = [] ∧
           (term self = None ↔ selectedRenderer w = 1) ∧
           mounts self
           = (String.append getROMPath "/rom", "rom", romReadOnly (gconfig w))
               :: mounted) ∧
  (∀ a, a ≠ this → instances r.2 !! a = instances w !! a).
Proof.
  destruct (Computer_ctor_success addMount getROMPath getComputerConfig
              terminal_throws term_title this tm i w Hterm Hrom)
    as (w' & Hctor & H1 & H2 & H3 & H4 & H5 & H6 & H7 & H8 & H9).
  unfold startComputer. rewrite Hctor. simpl.
  split; [done|]. split; [by rewrite H1|]. split; [by rewrite H2|].
  split; [by rewrite H8, <- app_assoc|].
  split; [apply custom_mounts_length|]. split; [done|].
  split.
  - eexists. rewrite H9, lookup_insert_eq. split; [reflexivity|]. simpl.
    repeat split; try done; by case_decide.
  - intros a Ha. rewrite H9. by apply lookup_insert_ne.
Qed.

(** The SDL renderer, a ROM that mounts, and one custom mount that
    does not. *)
Definition one_bad_mount : world :=
  mkWorld (mkConfiguration false true 0 17000 false false false false) 0
    [] ∅ ∅ ∅ [] [("data", "/nowhere", 0)] false ∅ ∅ [] [].

Lemma construction_succeeds_despite_custom_mounts_witness :
  let addMount := fun (_ name : string) (_ : bool) => bool_decide (name = "rom") in
  let cfg := fun _ : Z => mkComputerConfiguration "" true false in
  let title := fun (_ : computer_configuration) (_ : bool) (_ : Z) => "CraftOS Terminal" in
  let r := startComputer addMount "/usr/share/craftos" cfg (fun _ => None) title
             7%nat 9%nat 0 one_bad_mount in
  r.1 = Some 7%nat ∧ computers r.2 = [7%nat] ∧
  trace r.2 = [EvStderr "Could not mount custom mount path at /nowhere";
               EvSpawnThread 7%nat].
Proof.
  intros addMount cfg title r.
  destruct (construction_succeeds_despite_custom_mounts addMount
              "/usr/share/craftos" cfg (fun _ => None) title 7%nat 9%nat 0
              one_bad_mount (or_intror eq_refl) eq_refl)
    as (H1 & H2 & _ & H4 & _).
  exact (conj H1 (conj H2 H4)).
Defined.

(** How a custom mount may be mounted: read-write only when its mode
    forces it (neither -1 nor 0) or when it takes the default and the
    configured mount mode is read-write; a mount that takes the default
    is never mounted when the configured mode is "none", and every
    recorded mount is one the mounter accepted. *)
Theorem custom_mount_access
  (addMount : string → string → bool → bool)
  (cfg : configuration) (ms : list (string * string * Z)) :
  Forall (fun mt : string * string * bool =>
            ∃ mode, (mt.1.2, mt.1.1, mode) ∈ ms ∧
                    addMount mt.1.1 mt.1.2 mt.2 = true ∧
                    (mode = 0 → mt.2 = true) ∧
                    (mode = -1 → mount_mode cfg ≠ MOUNT_MODE_NONE ∧
                                 (mt.2 = false ↔ mount_mode cfg = MOUNT_MODE_RW)) ∧
                    (mode ≠ 0 → mode ≠ -1 → mt.2 = false))
         (custom_mounts addMount cfg ms).1.
Proof.
  induction ms as [|[[name path] mode] rest IH]; [constructor|]. simpl.
  destruct (custom_mounts addMount cfg rest) as [mounted warnings].
  simpl in IH.
  assert (Forall (fun mt : string * string * bool =>
            ∃ mode0, (mt.1.2, mt.1.1, mode0) ∈ (name, path, mode) :: rest ∧
                    addMount mt.1.1 mt.1.2 mt.2 = true ∧
                    (mode0 = 0 → mt.2 = true) ∧
                    (mode0 = -1 → mount_mode cfg ≠ MOUNT_MODE_NONE ∧
                                 (mt.2 = false ↔ mount_mode cfg = MOUNT_MODE_RW)) ∧
                    (mode0 ≠ 0 → mode0 ≠ -1 → mt.2 = false)) mounted) as IH'.
  { eapply Forall_impl; [exact IH|]. intros mt (mode0 & H0 & H).
    exists mode0. split; [by right|done]. }
  destruct (decide (mode = -1)) as [Hm|Hm].
  - destruct (decide (mount_mode cfg = MOUNT_MODE_NONE)) as [Hn|Hn]; [done|].
    destruct (addMount path name (negb (bool_decide (mount_mode cfg = MOUNT_MODE_RW))))
      eqn:E; [|done].
    constructor; [|done]. exists mode. simpl.
    split; [left|]. split; [done|].
    split; [intros ->; done|]. split; [|done].
    intros _. split; [done|]. rewrite negb_false_iff, bool_decide_eq_true. done.
  - destruct (decide (mode = 0)) as [H0|H0].
    + destruct (addMount path name true) eqn:E; [|done].
      constructor; [|done]. exists mode. simpl.
      split; [left|]. repeat split; done.
    + destruct (addMount path name false) eqn:E; [|done].
      constructor; [|done]. exists mode. simpl.
      split; [left|]. repeat split; done.
Qed.

Lemma mount_failure_mounter_initializing t w :
  mounter_initializing (mount_failure t w) = mounter_initializing w.
Proof.
  unfold mount_failure. destruct t as [a|]; [|done].
  destruct (standardsMode (gconfig w)); [|done].
  unfold displayFailure. simpl. by destruct (terminals w !! a).
Qed.

(** A construction that fails in a ROM mount leaves
    [mounter_initializing] set: only the path that completes the
    constructor resets it.  When it is the terminal constructor that
    throws, nothing has been touched yet. *)
Theorem failed_mount_leaves_mounter_initializing
  (addMount : string → string → bool → bool) (getROMPath : string)
  (getComputerConfig : Z → computer_configuration)
  (terminal_throws : Z → option string)
  (term_title : computer_configuration → bool → Z → string)
  (this tm : addr) (i : Z) (debug : bool) (w w' : world) (what : string)
  (Hctor : Computer_ctor addMount getROMPath getComputerConfig terminal_throws
             term_title this tm i debug w = (inl what, w')) :
  (selectedRenderer w = 1 ∨ terminal_throws (selectedRenderer w) = None →
   mounter_initializing w' = true ∧
   (what = "Could not mount ROM" ∨ what = "Could not mount debugger ROM")) ∧
  (∀ e, selectedRenderer w ≠ 1 → terminal_throws (selectedRenderer w) = Some e →
        what = e ∧ w' = w).
Proof.
  revert Hctor. unfold Computer_ctor.
  destruct (decide (selectedRenderer w = 1)) as [Hr|Hr].
  - simpl.
    repeat match goal with
           | |- context [if ?b then _ else _] => destruct b
           end;
      try destruct (custom_mounts _ _ _); intros [= <- <-];
      (split; [|done]); intros _; eauto.
  - destruct (terminal_throws (selectedRenderer w)) as [e|].
    + intros [= <- <-]. split; [intros [?|?]; done|].
      intros e' _ [= <-]. done.
    + repeat match goal with
             | |- context [if ?b then _ else _] => destruct b
             end;
        try destruct (custom_mounts _ _ _); intros Heq;
        pose proof (f_equal fst Heq) as H1; pose proof (f_equal snd Heq) as H2;
        cbn [fst snd] in H1, H2; try discriminate H1;
        injection H1 as <-; subst w';
        (split; [|intros e' _ [=]]); intros _;
        rewrite mount_failure_mounter_initializing; eauto.
Qed.

Lemma failed_mount_leaves_mounter_initializing_witness :
  let addMount := fun (_ _ : string) (_ : bool) => false in
  let cfg := fun _ : Z => mkComputerConfiguration "" true false in
  let title := fun (_ : computer_configuration) (_ : bool) (_ : Z) => "CraftOS Terminal" in
  let r := Computer_ctor addMount "/usr/share/craftos" cfg (fun _ => None) title
             7%nat 9%nat 0 false no_rom in
  r.1 = inl "Could not mount ROM" ∧ mounter_initializing r.2 = true.
Proof.
  intros addMount cfg title r. split; [reflexivity|].
  exact (proj1 (proj1 (failed_mount_leaves_mounter_initializing addMount
                         "/usr/share/craftos" cfg (fun _ => None) title
                         7%nat 9%nat 0 false no_rom r.2 "Could not mount ROM"
                         eq_refl) (or_intror eq_refl))).
Defined.

End Lifecycle.

(** * The execution loop: [runComputer] and [computerThread] *)

Module ExecLoop.
Import Host.

(** [LUA_YIELD] of lua.h. *)
Definition LUA_YIELD : Z := 1.

(** What one [lua_resume] of the guest's main coroutine does, as far as
    the loop can tell: the status it returns, the string on top of the
    coroutine's stack when the top is a string, the value an API call
    stored into [self->running] if one did ([os.shutdown] stores 0,
    [os.reboot] 2), the guest's edits of the global configuration, the
    events the producers queued meanwhile and the websockets opened. *)
Record resume := mkResume {
  r_status : Z;
  r_top : option string;
  r_running : option Z;
  r_gconfig : configuration -> configuration;
  r_produced : list string;
  r_opened : list Z
}.

(** What [platform_fopen] and [lua_load] give for bios.lua: no file, or
    the status of the load and whether a function is on top of the stack. *)
Inductive bios :=
| BiosMissing
| BiosLoaded (status : Z) (isfunction : bool).

(** Everything the outside does during one pass through the body of
    [while (self->running)]: the events queued before the queue is cleared
    and during the rest of the boot, the boot script, the id
    [SDL_AddTimer] returns and the resumes of the guest. *)
Record incarnation := mkIncarnation {
  i_early : list string;
  i_boot : list string;
  i_bios : bios;
  i_timer : Z;
  i_resumes : list resume
}.

(** How a pass, or the whole loop, ends when it does not simply go on:
    [Halted] is the exit of [while (self->running)], [BiosFailed] the
    [return] after a failed boot-script load.  [Undefined] marks a null
    pointer handed to the C library or dereferenced.  [Panicked] is a
    call of [termPanic], by the loop after an error of the guest or by
    Lua on an error outside a protected call: [termPanic] is not in
    Computer.cpp - it may return, or jump to the [setjmp] at the head of
    the loop - and the run is followed no further.  [ScriptEnd] and
    [Blocked] mean the guest is still running when the description of the
    outside ends, or waits for an event that never comes. *)
Inductive exit :=
| Halted
| BiosFailed
| Undefined (why : string)
| Panicked
| ScriptEnd
| Blocked.

(** The array [libraries]. *)
Definition libraries : list string :=
  ["config"; "fs"; "mounter"; "os"; "peripheral"; "periphemu"; "rs"; "term"].

(** In server mode the fields of the global [http] are set to nil; without
    the http library that global is nil itself, and [lua_setfield] raises
    an error outside any protected call. *)
Definition boot_panics (cfg : configuration) : bool :=
  serverMode cfg && negb (http_enable cfg).

(** The globals set to nil, in order ("Delete unwanted globals"); in
    server mode without the http library the last three are not reached. *)
Definition removed_globals (cfg : configuration) : list string :=
  ["dofile"; "loadfile"; "module"; "require"; "package"; "print"] ++
  (if debug_enable cfg then [] else ["collectgarbage"; "debug"; "newproxy"]) ++
  (if vanilla cfg then
     ["config"; "mounter"; "periphemu"; "term.getGraphicsMode";
      "term.setGraphicsMode"; "term.getPixel"; "term.setPixel";
      "term.drawPixels"; "term.getPixels"; "term.screenshot";
      "term.showMouse"; "term.setFrozen"; "term.getFrozen"] ++
     (if http_enable cfg then ["http.addListener"; "http.removeListener"] else []) ++
     (if debug_enable cfg then ["debug.setbreakpoint"; "debug.unsetbreakpoint"] else [])
   else []) ++
  (if serverMode cfg && http_enable cfg
   then ["http.addListener"; "http.removeListener"; "mounter"] else []).

(** [::config.standardsMode ? 7000 : ::config.abortTimeout], as the
    [Uint32] that [SDL_AddTimer] receives. *)
Definition watchdog_interval (cfg : configuration) : Z :=
  to_uint32 (if standardsMode cfg then 7000 else abortTimeout cfg).

Section WithCollaborators.

(** [getNextEvent(coro, filter)] is not in Computer.cpp: it returns the
    argument count for the next resume and may change the instance (it
    pops the queue), or never returns. *)
Variable getNextEvent : string -> Computer -> option (Z * Computer).

(** Which of [libraries] have a [deinit]. *)
Variable has_deinit : string -> bool.

(** [while (!self->eventQueue.empty()) self->eventQueue.pop();] *)
Fixpoint drain (q : list string) : list string :=
  match q with
  | [] => []
  | _ :: q' => drain q'
  end.

(** What the guest did during a resume. *)
Definition guest_effects (r : resume) (c : Computer) : Computer :=
  let c := set_eventQueue (eventQueue c ++ r_produced r) c in
  let c := set_openWebsockets (openWebsockets c ++ r_opened r) c in
  match r_running r with
  | Some v => set_running v c
  | None => c
  end.

(** [while (status == LUA_YIELD && self->running == 1)], entered with
    [status == LUA_YIELD].  Returns the last [status], unless the guest
    outlives the script or blocks, or a resume ends in an error while the
    instance is running: then [running] is set to 0 and [termPanic] is
    called. *)
Fixpoint resume_loop (rs : list resume) (narg : Z) (c : Computer) (w : world)
  : (exit + Z) * Computer * world :=
  if decide (running c = 1) then
    match rs with
    | [] => (inl ScriptEnd, c, w)
    | r :: rs' =>
        let w := emit [EvResume narg] w in
        let c := guest_effects r c in
        let w := set_gconfig (r_gconfig r (gconfig w)) w in
        if decide (r_status r = LUA_YIELD) then
          let filter := default "" (r_top r) in
          match getNextEvent filter c with
          | None => (inl Blocked, c, w)
          | Some (narg', c') =>
              resume_loop rs' narg' c' (emit [EvGetNextEvent filter narg'] w)
          end
        else if decide (r_status r ≠ 0 ∧ running c = 1) then
          (inl Panicked, set_running 0 c, emit [EvTermPanic] w)
        else if decide (running c = 1) then (inr (r_status r), set_running 0 c, w)
        else (inr (r_status r), c, w)
    end
  else (inr LUA_YIELD, c, w).

(** "Shutdown threads" to [self->L = NULL]. *)
Definition close_vm (c : Computer) (w : world) : Computer * world :=
  let w := emit (map EvStopWebsocket (openWebsockets c)) w in
  let c := set_openWebsockets [] c in
  let w := emit (map EvDeinit (filter (fun n => has_deinit n = true) libraries)) w in
  let w := emit [EvLuaClose] w in
  (set_L None c, w).

(** From the top of the loop body to the boot-script load: terminal reset,
    new Lua state, the event queue cleared, peripherals reinitialised,
    libraries loaded, [load] overridden, plugins, globals removed.  The
    startup globals (the block "Set default globals") touch nothing that
    is modelled. *)
Definition boot (inc : incarnation) (c : Computer) (w : world) : Computer * world :=
  let c := set_eventQueue (eventQueue c ++ i_early inc) c in
  let w := match term c with Some t => emit [EvTermReset t] w | None => w end in
  let w := emit [EvNewState] w in
  let c := set_L (Some 0%nat) c in
  let c := set_eventQueue (drain (eventQueue c)) c in
  let w := emit [EvClearEventQueue] w in
  let w := emit (map (fun p => EvReinitialize p.1) (peripherals c)) w in
  let w := emit [EvOpenLibs] w in
  let cfg := gconfig w in
  let w := emit (map EvLoadLibrary libraries) w in
  let w := if http_enable cfg then emit [EvLoadLibrary "http"] w else w in
  let w := if isDebugger c && debugger c then emit [EvLoadLibrary "debugger"] w else w in
  let w := if standardsMode cfg then emit [EvInstallYieldableLoad] w else w in
  let w := if vanilla cfg then w else emit [EvLoadPlugins] w in
  let w := emit (map EvRemoveGlobal (removed_globals cfg)) w in
  (set_eventQueue (eventQueue c ++ i_boot inc) c, w).

(** The report of a boot script that did not load: a line on stderr (its
    text is cut short here), then the failure on the terminal in
    standards mode, a queued message dialog otherwise. *)
Definition bios_failure (c : Computer) (w : world) : world :=
  let w := emit [EvStderr "Couldn't load BIOS"] w in
  if standardsMode (gconfig w)
  then displayFailure (term c) "Error loading bios.lua" w
  else set_taskQueue (taskQueue w ++ [TaskShowMessage (term c) "Couldn't load BIOS"]) w.

(** One pass through the body of [while (self->running)].  The first
    component is how the function leaves the loop from inside the body,
    if it does.  A boot script that cannot be opened is handed to
    [lua_load] as a null [FILE*], and [file_reader] calls [feof] on it. *)
Definition incarnation_body (inc : incarnation) (c : Computer) (w : world)
  : option exit * Computer * world :=
  let '(c, w) := boot inc c w in
  if boot_panics (gconfig w) then (Some Panicked, c, emit [EvTermPanic] w)
  else
  match i_bios inc with
  | BiosMissing => (Some (Undefined "feof(NULL)"), c, w)
  | BiosLoaded status isfunction =>
      let w := emit [EvLoadBios] w in
      if bool_decide (status ≠ 0) || negb isfunction then
        (Some BiosFailed, c, bios_failure c w)
      else
        let c := set_running 1 c in
        let w := emit [EvAddTimer (watchdog_interval (gconfig w))] w in
        let c := set_eventTimeout (i_timer inc) c in
        match resume_loop (i_resumes inc) 0 c w with
        | (inl ex, c, w) => (Some ex, c, w)
        | (inr status, c, w) =>
            let shown :=
              if bool_decide (status = 0) && standardsMode (gconfig w) then
                match term c with
                | None => None
                | Some t =>
                    match terminals w !! t with
                    | None => None
                    | Some T =>
                        Some (if errorMode T then w
                              else displayFailure (Some t) "Error running computer" w)
                    end
                end
              else Some w in
            match shown with
            | None => (Some (Undefined "self->term->errorMode"), c, w)
            | Some w =>
                let '(c, w) := close_vm c w in
                (None, c, w)
            end
        end
  end.

(** [while (self->running) { ... }] *)
Fixpoint run_loop (script : list incarnation) (c : Computer) (w : world)
  : exit * Computer * world :=
  if decide (running c = 0) then (Halted, c, w)
  else
    match script with
    | [] => (ScriptEnd, c, w)
    | inc :: rest =>
        match incarnation_body inc c w with
        | (Some ex, c, w) => (ex, c, w)
        | (None, c, w) => run_loop rest c w
        end
    end.

(** The passes of [pre] each run to the bottom of the loop body: the
    instance and the world that the next pass starts from. *)
Fixpoint after_passes (pre : list incarnation) (c : Computer) (w : world)
  : option (Computer * world) :=
  match pre with
  | [] => Some (c, w)
  | inc :: rest =>
      if decide (running c = 0) then None
      else
        match incarnation_body inc c w with
        | (None, c', w') => after_passes rest c' w'
        | _ => None
        end
  end.

(** [runComputer(self, bios_name)]; the fullscreen toggle of its first
    line is left out.  [setjmp(self->on_panic)] before the loop returns 0
    and changes nothing; it marks the head of the loop for [termPanic],
    and a run is followed up to a call of [termPanic] ([Panicked]). *)
Definition before_loop (c : Computer) (w : world) : Computer * world :=
  (set_running 1 c,
   match L c with Some _ => emit [EvLuaClose] w | None => w end).

Definition runComputer (script : list incarnation) (c : Computer) (w : world)
  : exit * Computer * world :=
  let '(c, w) := before_loop c w in
  run_loop script c w.

(** The loop of [computerThread] that takes [comp] out of [computers]:
    as in the destructor, [it = erase(it)] is followed by [++it]. *)
Fixpoint erase_comp (comp : addr) (rest : list addr) : list addr :=
  match rest with
  | [] => []
  | a :: after =>
      if decide (a = comp) then
        match after with
        | [] => []
        | next :: after' => next :: erase_comp comp after'
        end
      else a :: erase_comp comp after
  end.

(** How [computerThread] ends once it has queued the deletion.  With
    renderer 0, 2 or 5, or when the program is exiting, it returns at
    once.  Otherwise it offers the task queue to the main thread
    ([taskQueueReady], [taskQueueNotify]) and returns only when the main
    thread has taken the queue, or the program is exiting; the main
    thread is not in Computer.cpp. *)
Inductive thread_end :=
| ReturnsAtOnce
| WaitsForMainThread.

Definition hands_over (exiting : bool) (w : world) : thread_end :=
  if bool_decide (selectedRenderer w ≠ 0 ∧ selectedRenderer w ≠ 2 ∧
                  selectedRenderer w ≠ 5) && negb exiting
  then WaitsForMainThread else ReturnsAtOnce.

(** [computerThread(data)], when [runComputer] returns; none of the
    modelled steps throws, so the [catch] block is not entered.
    [exiting] is what the thread finds in the global of that name.  The
    result is the world once the deletion is queued, and how the thread
    goes on from there. *)
Definition computerThread (exiting : bool) (script : list incarnation)
    (comp : addr) (w : world) : option (world * thread_end) :=
  let w := set_freedComputers (freedComputers w ∖ {[comp]}) w in
  match instances w !! comp with
  | None => None
  | Some c =>
      match runComputer script c w with
      | (Halted, c, w) | (BiosFailed, c, w) =>
          let w := set_instances (<[comp := c]> (instances w)) w in
          let w := set_freedComputers ({[comp]} ∪ freedComputers w) w in
          let w := set_computers (erase_comp comp (computers w)) w in
          let w := set_taskQueue (taskQueue w ++ [TaskDeleteComputer comp]) w in
          Some (w, hands_over exiting w)
      | _ => None
      end
  end.

(** The main thread runs a queued task: the destructor, or [showMessage]
    called on the terminal pointer the task was queued with, which is
    null when the instance has no terminal. *)
Definition run_task (t : task) (w : world) : option world :=
  match t with
  | TaskDeleteComputer c => Some (Teardown.delete_Computer c w)
  | TaskShowMessage (Some t) title => Some (emit [EvShowMessage (Some t) title] w)
  | TaskShowMessage None _ => None
  end.

(** The tasks of a list, in order. *)
Fixpoint run_list (tasks : list task) (w : world) : option world :=
  match tasks with
  | [] => Some w
  | t :: rest =>
      match run_task t w with
      | Some w' => run_list rest w'
      | None => None
      end
  end.

Definition run_tasks (w : world) : option world :=
  run_list (taskQueue w) (set_taskQueue [] w).

(** The events of [boot], as one list. *)
Definition boot_trace (c : Computer) (cfg : configuration) : list event :=
  match term c with Some t => [EvTermReset t] | None => [] end ++
  [EvNewState; EvClearEventQueue] ++
  map (fun p => EvReinitialize p.1) (peripherals c) ++
  [EvOpenLibs] ++
  map EvLoadLibrary libraries ++
  (if http_enable cfg then [EvLoadLibrary "http"] else []) ++
  (if isDebugger c && debugger c then [EvLoadLibrary "debugger"] else []) ++
  (if standardsMode cfg then [EvInstallYieldableLoad] else []) ++
  (if vanilla cfg then [] else [EvLoadPlugins]) ++
  map EvRemoveGlobal (removed_globals cfg).

(** The events that can precede the boot-script load. *)
Definition setup_step (e : event) : bool :=
  match e with
  | EvLuaClose | EvTermReset _ | EvNewState | EvClearEventQueue
  | EvReinitialize _ | EvOpenLibs | EvLoadLibrary _ | EvInstallYieldableLoad
  | EvLoadPlugins | EvRemoveGlobal _ => true
  | _ => false
  end.

(** The events that can precede the clearing of the event queue. *)
Definition before_clearing (e : event) : bool :=
  match e with
  | EvTermReset _ | EvNewState => true
  | _ => false
  end.

End WithCollaborators.

(** The timers armed, in order. *)
Definition armed_intervals (tr : list event) : list Z :=
  omap (fun e => match e with EvAddTimer i => Some i | _ => None end) tr.

(** How often the guest's main coroutine was resumed. *)
Definition is_resume (e : event) : bool :=
  match e with EvResume _ => true | _ => false end.
Definition resumes (tr : list event) : nat :=
  length (filter (fun e => is_resume e = true) tr).

(** How many fresh Lua states were made: one per Boot. *)
Definition is_new_state (e : event) : bool :=
  match e with EvNewState => true | _ => false end.
Definition boots (tr : list event) : nat :=
  length (filter (fun e => is_new_state e = true) tr).

(** What a function appended to the trace. *)
Definition appended (w w' : world) : list event :=
  drop (length (trace w)) (trace w').

(** The global configuration each Boot finds, for the Boots that go on to
    arm the watchdog timer. *)
Fixpoint boot_configs (getNextEvent : string → Computer → option (Z * Computer))
    (has_deinit : string → bool) (script : list incarnation)
    (c : Computer) (w : world) : list configuration :=
  if decide (running c = 0) then []
  else
    match script with
    | [] => []
    | inc :: rest =>
        if boot_panics (gconfig w) then []
        else
        match i_bios inc with
        | BiosLoaded status isfunction =>
            if bool_decide (status ≠ 0) || negb isfunction then []
            else
              gconfig w ::
              match incarnation_body getNextEvent has_deinit inc c w with
              | (None, c', w') => boot_configs getNextEvent has_deinit rest c' w'
              | _ => []
              end
        | BiosMissing => []
        end
    end.

(** The sentence "the armed value is the configured timeout", for the
    configuration a Boot finds and the interval it arms. *)
Definition timeout_is_configured (cfg : configuration) (interval : Z) : Prop :=
  interval = to_uint32 (abortTimeout cfg).

(** ** Traces *)

Lemma emit_emit a b w : emit b (emit a w) = emit (a ++ b) w.
Proof. unfold emit, set_trace. simpl. by rewrite app_assoc. Qed.

Lemma gconfig_emit es w : gconfig (emit es w) = gconfig w.
Proof. reflexivity. Qed.

Lemma emit_nil w : emit [] w = w.
Proof. destruct w. unfold emit, set_trace. simpl. by rewrite app_nil_r. Qed.

Lemma appended_app w w' d : trace w' = trace w ++ d → appended w w' = d.
Proof. intros H. unfold appended. rewrite H. apply drop_app_length. Qed.

Lemma drain_empty q : drain q = [].
Proof. induction q; simpl; done. Qed.

Lemma filter_none {A} (P : A → bool) (l : list A) :
  Forall (fun e => P e = false) l → filter (fun e => P e = true) l = [].
Proof.
  induction 1 as [|e l He _ IH]; [done|].
  rewrite filter_cons_False; [done|]. by rewrite He.
Qed.

Lemma armed_cons e d :
  armed_intervals (e :: d)
  = match e with EvAddTimer i => [i] | _ => [] end ++ armed_intervals d.
Proof. by destruct e. Qed.

Lemma armed_app d d' :
  armed_intervals (d ++ d') = armed_intervals d ++ armed_intervals d'.
Proof. apply omap_app. Qed.

Lemma boots_cons e d :
  boots (e :: d) = ((if is_new_state e then 1 else 0) + boots d)%nat.
Proof.
  unfold boots. destruct (is_new_state e) eqn:E.
  - by rewrite filter_cons_True.
  - rewrite filter_cons_False; [done|]. by rewrite E.
Qed.

Lemma boots_app d d' : boots (d ++ d') = (boots d + boots d')%nat.
Proof. unfold boots. by rewrite filter_app, length_app. Qed.

Lemma boot_trace_setup c cfg : Forall (fun e => setup_step e = true) (boot_trace c cfg).
Proof.
  unfold boot_trace. rewrite !Forall_app. repeat split.
  - destruct (term c); repeat constructor.
  - repeat constructor.
  - apply Forall_forall. intros e He. apply list_elem_of_fmap in He as (x & -> & _). done.
  - repeat constructor.
  - apply Forall_forall. intros e He. apply list_elem_of_fmap in He as (x & -> & _). done.
  - destruct (http_enable cfg); repeat constructor.
  - destruct (isDebugger c && debugger c); repeat constructor.
  - destruct (standardsMode cfg); repeat constructor.
  - destruct (vanilla cfg); repeat constructor.
  - apply Forall_forall. intros e He. apply list_elem_of_fmap in He as (x & -> & _). done.
Qed.

Lemma boot_trace_split c cfg :
  ∃ pre post,
    boot_trace c cfg = pre ++ EvClearEventQueue :: post ∧
    Forall (fun e => before_clearing e = true) pre ∧
    Forall (fun e => before_clearing e = false) post.
Proof.
  unfold boot_trace.
  exists (match term c with Some t => [EvTermReset t] | None => [] end ++ [EvNewState]).
  eexists. split; [|split].
  - rewrite <- app_assoc. cbn [app]. reflexivity.
  - destruct (term c); repeat constructor.
  - repeat first [ apply Forall_cons; split; [reflexivity|]
                 | apply Forall_app; split ];
      first [ by (apply Forall_forall; intros e He;
                  apply list_elem_of_fmap in He as (x & -> & _))
            | by (repeat case_match; repeat constructor) ].
Qed.

Lemma boots_boot_trace c cfg : boots (boot_trace c cfg) = 1%nat.
Proof.
  unfold boots, boot_trace.
  assert (∀ (A : Type) (f : A → event) (l : list A),
             (∀ x, is_new_state (f x) = false) →
             filter (fun e => is_new_state e = true) (map f l) = []) as Hmap.
  { intros A f l Hf. apply filter_none, Forall_forall.
    intros e He. apply list_elem_of_fmap in He as (x & -> & _). apply Hf. }
  rewrite !filter_app, !Hmap by done.
  destruct (term c), (http_enable cfg), (isDebugger c && debugger c),
    (standardsMode cfg), (vanilla cfg); reflexivity.
Qed.

Section Properties.

Variable getNextEvent : string → Computer → option (Z * Computer).
Variable has_deinit : string → bool.

Lemma boot_eq inc c w :
  boot inc c w =
  (set_eventQueue (i_boot inc) (set_L (Some 0%nat) c),
   emit (boot_trace c (gconfig w)) w).
Proof.
  destruct w as [g sr cs fc ft ot ct cm mi tm ins tq tr].
  destruct c as [i dbg t cf mts ps rs uds tids mm et ows run l q dg].
  destruct g as [std rro mmode abt dbe van http srv].
  destruct t as [t|], http, dbg, dg, std, van;
    cbv beta iota zeta delta
      [boot boot_trace emit set_trace set_eventQueue set_L andb
       id isDebugger term config mounts peripherals referencers
       userdata_destructors timerIDs mouseMoveDebounceTimer eventTimeout
       openWebsockets running L eventQueue debugger
       gconfig selectedRenderer computers freedComputers freedTimers
       orphanedTerminals computerThreads customMounts mounter_initializing
       terminals instances taskQueue trace
       standardsMode http_enable vanilla];
    rewrite drain_empty, <- ?app_assoc; reflexivity.
Qed.

Lemma displayFailure_trace t msg w :
  trace (displayFailure t msg w) = trace w ++ [EvDisplayFailure t msg] ∧
  gconfig (displayFailure t msg w) = gconfig w ∧
  taskQueue (displayFailure t msg w) = taskQueue w ∧
  instances (displayFailure t msg w) = instances w ∧
  computers (displayFailure t msg w) = computers w ∧
  freedComputers (displayFailure t msg w) = freedComputers w.
Proof.
  unfold displayFailure. destruct t as [a|]; simpl; [|done].
  destruct (terminals w !! a); done.
Qed.

(** Events that are no timer, no new state and no terminal reset. *)
Definition later_step (e : event) : bool :=
  match e with
  | EvAddTimer _ | EvNewState | EvTermReset _ => false
  | _ => true
  end.

Lemma later_steps d :
  Forall (fun e => later_step e = true) d →
  armed_intervals d = [] ∧ boots d = 0%nat ∧
  Forall (fun e => before_clearing e = false) d.
Proof.
  induction 1 as [|e d He _ (IH1 & IH2 & IH3)]; [done|].
  unfold armed_intervals, boots in *. simpl.
  destruct e; try discriminate; simpl; rewrite ?IH1;
    (rewrite filter_cons_False by (simpl; congruence));
    repeat split; try done; by constructor.
Qed.

(** The resume loop arms no timer and makes no new state. *)
Lemma resume_loop_trace rs : ∀ narg c w,
  ∃ d, trace (resume_loop getNextEvent rs narg c w).2 = trace w ++ d ∧
       Forall (fun e => later_step e = true) d.
Proof.
  induction rs as [|r rs IH]; intros narg c w; cbn [resume_loop].
  - destruct (decide (running c = 1)); exists []; by rewrite app_nil_r.
  - destruct (decide (running c = 1)); [|exists []; by rewrite app_nil_r].
    cbv zeta.
    destruct (decide (r_status r = LUA_YIELD)).
    + destruct (getNextEvent _ _) as [[narg' c']|].
      * match goal with
        | |- context [resume_loop _ rs ?n ?c0 ?w0] =>
            destruct (IH n c0 w0) as (d & Hd & Hl)
        end.
        exists (EvResume narg :: EvGetNextEvent (default "" (r_top r)) narg' :: d).
        rewrite Hd. cbn [trace emit set_trace set_gconfig].
        rewrite <- !app_assoc. split; [reflexivity|].
        by repeat constructor.
      * exists [EvResume narg]. split; [reflexivity|]. by repeat constructor.
    + destruct (decide (_ ∧ _)).
      * exists [EvResume narg; EvTermPanic]. cbn [snd trace emit set_trace set_gconfig].
        rewrite <- !app_assoc. split; [reflexivity|]. by repeat constructor.
      * destruct (decide (running (guest_effects r c) = 1));
          exists [EvResume narg]; (split; [reflexivity|]); by repeat constructor.
Qed.

Lemma close_vm_trace c w :
  ∃ d, trace (close_vm has_deinit c w).2 = trace w ++ d ∧
       Forall (fun e => later_step e = true) d.
Proof.
  unfold close_vm. simpl. eexists. rewrite <- !app_assoc. split; [reflexivity|].
  rewrite !Forall_app. repeat split.
  - apply Forall_forall. intros e He. apply list_elem_of_fmap in He as (x & -> & _). done.
  - apply Forall_forall. intros e He. apply list_elem_of_fmap in He as (x & -> & _). done.
  - repeat constructor.
Qed.

(** Whether a pass gets as far as arming the timer. *)
Definition reaches_running (cfg : configuration) (inc : incarnation) : bool :=
  negb (boot_panics cfg) &&
  match i_bios inc with
  | BiosLoaded status isfunction => negb (bool_decide (status ≠ 0) || negb isfunction)
  | BiosMissing => false
  end.

(** The shape of what one pass appends to the trace: the boot, then
    events among which the only timer is the one armed from the
    configuration the pass found. *)
Lemma incarnation_body_trace inc c w :
  ∃ d, trace (incarnation_body getNextEvent has_deinit inc c w).2
       = trace w ++ boot_trace c (gconfig w) ++ d ∧
       armed_intervals d
       = (if reaches_running (gconfig w) inc
          then [watchdog_interval (gconfig w)] else []) ∧
       boots d = 0%nat ∧
       Forall (fun e => before_clearing e = false) d.
Proof.
  unfold incarnation_body, reaches_running. rewrite boot_eq, gconfig_emit.
  destruct (boot_panics (gconfig w)) eqn:Hpanics; cbn [negb andb].
  { exists (EvTermPanic :: nil). cbn [snd trace emit set_trace].
    rewrite <- app_assoc. split; [reflexivity|].
    repeat split; try done. by repeat constructor. }
  destruct (i_bios inc) as [|status isfunction].
  - exists []. cbn [snd trace emit set_trace]. rewrite app_nil_r. done.
  - destruct (bool_decide (status ≠ 0) || negb isfunction) eqn:Hfail;
      cbn [negb].
    + unfold bios_failure. cbn [snd].
      destruct (standardsMode _) eqn:Hstd.
      * match goal with
        | |- context [displayFailure ?t ?m ?x] =>
            destruct (displayFailure_trace t m x) as (-> & _)
        end.
        exists [EvLoadBios; EvStderr "Couldn't load BIOS";
                EvDisplayFailure (term c) "Error loading bios.lua"].
        cbn [trace emit set_trace]. rewrite <- !app_assoc.
        split; [reflexivity|]. repeat split; try done. by repeat constructor.
      * exists [EvLoadBios; EvStderr "Couldn't load BIOS"].
        cbn [trace emit set_trace set_taskQueue]. rewrite <- !app_assoc.
        split; [reflexivity|]. repeat split; try done. by repeat constructor.
    + match goal with
      | |- context [resume_loop _ ?rs ?n ?c1 ?w1] =>
          destruct (resume_loop_trace rs n c1 w1) as (d & Hd & Hl);
          destruct (resume_loop getNextEvent rs n c1 w1) as [[[ex|st] c2] w2]
      end; cbn [snd] in Hd; cbn [trace emit set_trace gconfig] in Hd;
        destruct (later_steps _ Hl) as (Ha & Hb & Hc).
      * exists (EvLoadBios :: EvAddTimer (watchdog_interval (gconfig w)) :: d).
        cbn [snd]. rewrite Hd, <- !app_assoc. split; [reflexivity|].
        rewrite !armed_cons, !boots_cons, Ha, Hb.
        repeat split; try done. by repeat constructor.
      * assert (∃ d3, match (if bool_decide (st = 0) && standardsMode (gconfig w2)
                             then match term c2 with
                                  | None => None
                                  | Some t =>
                                      match terminals w2 !! t with
                                      | None => None
                                      | Some T =>
                                          Some (if errorMode T then w2
                                                else displayFailure (Some t)
                                                       "Error running computer" w2)
                                      end
                                  end
                             else Some w2) with
                      | Some w3 => trace w3 = trace w2 ++ d3
                      | None => True
                      end ∧ Forall (fun e => later_step e = true) d3) as (d3 & Hw3 & Hq3).
        { destruct (bool_decide (st = 0) && standardsMode (gconfig w2)).
          - destruct (term c2) as [t|]; [|by exists []].
            destruct (terminals w2 !! t) as [T|]; [|by exists []].
            destruct (errorMode T).
            + exists []. by rewrite app_nil_r.
            + exists [EvDisplayFailure (Some t) "Error running computer"].
              destruct (displayFailure_trace (Some t) "Error running computer" w2)
                as (-> & _).
              split; [done|]. by repeat constructor.
          - exists []. by rewrite app_nil_r. }
        destruct (if bool_decide (st = 0) && standardsMode (gconfig w2) then _ else _)
          as [w3|].
        -- destruct (close_vm_trace c2 w3) as (d4 & Hd4 & Hq4).
           destruct (close_vm has_deinit c2 w3) as [c4 w4]. cbn [snd] in *.
           exists (EvLoadBios :: EvAddTimer (watchdog_interval (gconfig w)) :: d ++ d3 ++ d4).
           rewrite Hd4, Hw3, Hd, <- !app_assoc. split; [reflexivity|].
           destruct (later_steps _ Hq3) as (A3 & B3 & C3).
           destruct (later_steps _ Hq4) as (A4 & B4 & C4).
           rewrite !armed_cons, !boots_cons, !armed_app, !boots_app,
             Ha, A3, A4, Hb, B3, B4.
           repeat split; try done.
           repeat constructor. rewrite !Forall_app. done.
        -- exists (EvLoadBios :: EvAddTimer (watchdog_interval (gconfig w)) :: d).
           cbn [snd]. rewrite Hd, <- !app_assoc. split; [reflexivity|].
           rewrite !armed_cons, !boots_cons, Ha, Hb.
           repeat split; try done. by repeat constructor.
Qed.

Lemma setup_steps d :
  Forall (fun e => setup_step e = true) d →
  armed_intervals d = [] ∧ resumes d = 0%nat.
Proof.
  induction 1 as [|e d He _ (IH1 & IH2)]; [done|].
  unfold armed_intervals, resumes in *. simpl.
  destruct e; try discriminate; simpl; rewrite ?IH1;
    (rewrite filter_cons_False by (simpl; congruence)); done.
Qed.

Lemma run_loop_extends script : ∀ c w,
  ∃ d, trace (run_loop getNextEvent has_deinit script c w).2 = trace w ++ d.
Proof.
  induction script as [|inc rest IH]; intros c w; simpl.
  - destruct (decide (running c = 0)); exists []; by rewrite app_nil_r.
  - destruct (decide (running c = 0)); [exists []; by rewrite app_nil_r|].
    destruct (incarnation_body_trace inc c w) as (d & Hd & _).
    destruct (incarnation_body getNextEvent has_deinit inc c w) as [[[ex|] c'] w'];
      cbn [snd] in *.
    + eexists. exact Hd.
    + destruct (IH c' w') as (d' & Hd'). rewrite Hd', Hd.
      eexists. rewrite <- !app_assoc. reflexivity.
Qed.

Lemma run_loop_armed script : ∀ c w,
  armed_intervals (appended w (run_loop getNextEvent has_deinit script c w).2)
  = map watchdog_interval (boot_configs getNextEvent has_deinit script c w).
Proof.
  induction script as [|inc rest IH]; intros c w; simpl.
  - destruct (decide (running c = 0)); simpl;
      by rewrite (appended_app w w []) by (by rewrite app_nil_r).
  - destruct (decide (running c = 0)); simpl;
      [by rewrite (appended_app w w []) by (by rewrite app_nil_r)|].
    destruct (incarnation_body_trace inc c w) as (d & Hd & Ha & _).
    destruct (setup_steps _ (boot_trace_setup c (gconfig w))) as (Hbt & _).
    pose proof (IH) as IH'.
    unfold reaches_running in Ha. unfold incarnation_body in Hd |- *.
    rewrite boot_eq in Hd |- *. rewrite gconfig_emit in Hd |- *.
    destruct (boot_panics (gconfig w)) eqn:Hpanics; cbn [negb andb] in Ha.
    { cbn [snd] in *. rewrite (appended_app _ _ _ Hd).
      unfold armed_intervals in *. by rewrite omap_app, Hbt, Ha. }
    destruct (i_bios inc) as [|status isfunction].
    + cbn [snd] in *. rewrite (appended_app _ _ _ Hd).
      unfold armed_intervals in *. by rewrite omap_app, Hbt, Ha.
    + destruct (bool_decide (status ≠ 0) || negb isfunction) eqn:Hfail;
        cbn [negb] in Ha.
      * cbn [snd] in *. rewrite (appended_app _ _ _ Hd).
        unfold armed_intervals in *. by rewrite omap_app, Hbt, Ha.
      * destruct (resume_loop getNextEvent _ _ _ _) as [[[ex|st] c2] w2].
        -- cbn [snd] in *. rewrite (appended_app _ _ _ Hd).
           unfold armed_intervals in *. by rewrite omap_app, Hbt, Ha.
        -- destruct (if bool_decide (st = 0) && standardsMode (gconfig w2)
                     then _ else _) as [w3|].
           ++ destruct (close_vm has_deinit c2 w3) as [c4 w4]. cbn [snd] in *.
              destruct (run_loop_extends rest c4 w4) as (d' & Hd').
              specialize (IH c4 w4). rewrite (appended_app _ _ _ Hd') in IH.
              rewrite (appended_app w _ (boot_trace c (gconfig w) ++ d ++ d'))
                by (rewrite Hd', Hd, <- !app_assoc; reflexivity).
              unfold armed_intervals in *.
              rewrite !omap_app, Hbt, Ha, IH. reflexivity.
           ++ cbn [snd] in *. rewrite (appended_app _ _ _ Hd).
              unfold armed_intervals in *. by rewrite omap_app, Hbt, Ha.
Qed.

Lemma erase_comp_gone comp l : NoDup l → comp ∉ erase_comp comp l.
Proof.
  assert (∀ n (l : list addr), (length l ≤ n)%nat → NoDup l →
                 comp ∉ erase_comp comp l) as H; [|by apply (H (length l))].
  clear l. induction n as [|n IH]; intros [|a after] Hlen Hnd;
    try apply not_elem_of_nil; simpl in Hlen; [lia|].
  apply NoDup_cons in Hnd as [Ha Hnd]. simpl.
  destruct (decide (a = comp)) as [->|Hne].
  - destruct after as [|next after']; [apply not_elem_of_nil|].
    apply NoDup_cons in Hnd as [Hn Hnd'].
    intros H. apply elem_of_cons in H as [->|H].
    + apply Ha. left.
    + revert H. apply IH; [simpl in Hlen; lia|done].
  - intros H. apply elem_of_cons in H as [->|H]; [done|].
    revert H. apply IH; [lia|done].
Qed.

End Properties.

(** How often a line went to stderr. *)
Definition is_stderr (e : event) : bool :=
  match e with EvStderr _ => true | _ => false end.
Definition console_reports (tr : list event) : nat :=
  length (filter (fun e => is_stderr e = true) tr).

(** C9, as the code has it: during [runComputer], the intervals handed to
    [SDL_AddTimer], in order, are the values of
    [standardsMode ? 7000 : abortTimeout] in the global configuration as
    each Boot finds it - so what the guest changed before a reboot counts
    for the next incarnation, and in standards mode the value is 7000
    whatever [abortTimeout] says. *)
Theorem watchdog_interval_read_at_each_boot
  (getNextEvent : string → Computer → option (Z * Computer))
  (has_deinit : string → bool) (script : list incarnation)
  (c : Computer) (w : world) :
  armed_intervals (appended w (runComputer getNextEvent has_deinit script c w).2)
  = map watchdog_interval
      (boot_configs getNextEvent has_deinit script
         (before_loop c w).1 (before_loop c w).2).
Proof.
  unfold runComputer, before_loop. cbn [fst snd].
  destruct (L c) as [l|]; [|apply run_loop_armed].
  destruct (run_loop_extends getNextEvent has_deinit script (set_running 1 c)
              (emit [EvLuaClose] w)) as (d & Hd).
  pose proof (run_loop_armed getNextEvent has_deinit script (set_running 1 c)
                (emit [EvLuaClose] w)) as H.
  rewrite (appended_app _ _ _ Hd) in H.
  rewrite (appended_app w _ (EvLuaClose :: d))
    by (rewrite Hd; simpl; by rewrite <- app_assoc).
  exact H.
Qed.

(** A headless world in standards mode, with an abort timeout of 17
    seconds configured. *)
Definition standards_world : world :=
  mkWorld (mkConfiguration true true 0 17000 false false false false) 1
    [] ∅ ∅ ∅ [] [] false ∅ ∅ [] [].

Definition blank_computer : Computer :=
  mkComputer 0 false None (mkComputerConfiguration "" true false)
    [] [] [] [] [] 0 0 [] 0 None [] false.

(** A guest that shuts down during its first resume. *)
Definition shutdown_at_once : incarnation :=
  mkIncarnation [] [] (BiosLoaded 0 true) 5
    [mkResume LUA_YIELD None (Some 0) (fun cfg => cfg) [] []].

(** A guest that sets the abort timeout to 3 seconds and reboots. *)
Definition retime_and_reboot : incarnation :=
  mkIncarnation [] [] (BiosLoaded 0 true) 5
    [mkResume LUA_YIELD None (Some 2)
       (fun cfg => mkConfiguration (standardsMode cfg) (romReadOnly cfg)
                     (mount_mode cfg) 3000 (debug_enable cfg) (vanilla cfg)
                     (http_enable cfg) (serverMode cfg))
       [] []].

(** The same world outside standards mode. *)
Definition plain_world : world :=
  set_gconfig (mkConfiguration false true 0 17000 false false false false)
    standards_world.

(** Outside standards mode the first incarnation is armed with the 17
    seconds configured at the start, the one after the reboot with the 3
    seconds the guest configured meanwhile. *)
Example watchdog_follows_the_configuration :
  let gne := fun (_ : string) (c : Computer) => Some (0, c) in
  armed_intervals
    (appended plain_world
       (runComputer gne (fun _ => false) [retime_and_reboot; shutdown_at_once]
          blank_computer plain_world).2)
  = [17000; 3000].
Proof. vm_compute. reflexivity. Qed.

(** C9 as the specification states it fails in standards mode: the
    configured timeout is 17000 ms and the timer is armed with 7000. *)
Lemma watchdog_fixed_in_standards_mode :
  let gne := fun (_ : string) (c : Computer) => Some (0, c) in
  let w' := (runComputer gne (fun _ => false) [shutdown_at_once]
               blank_computer standards_world).2 in
  armed_intervals (appended standards_world w') = [7000] ∧
  abortTimeout (gconfig standards_world) = 17000 ∧
  ¬ Forall2 timeout_is_configured [gconfig standards_world]
      (armed_intervals (appended standards_world w')).
Proof.
  assert (armed_intervals
            (appended standards_world
               (runComputer (fun (_ : string) (c : Computer) => Some (0, c))
                  (fun _ => false) [shutdown_at_once]
                  blank_computer standards_world).2) = [7000]) as E
    by (vm_compute; reflexivity).
  cbv zeta. rewrite E. repeat split.
  intros H. apply Forall2_cons_1 in H as [H _].
  unfold timeout_is_configured in H. vm_compute in H. discriminate.
Qed.

(** The same pass, told of other events queued before the clearing. *)
Definition with_early (early : list string) (inc : incarnation) : incarnation :=
  mkIncarnation early (i_boot inc) (i_bios inc) (i_timer inc) (i_resumes inc).

(** C10: in every pass through the loop body - whatever the instance, the
    world and the outside are - the event queue is cleared after the
    terminal reset and the creation of the Lua state and before anything
    else: no library is opened or loaded and the guest is not resumed
    before it.  When the boot ends the queue holds exactly the events
    queued after the clearing, and what the pass does depends neither on
    what the queue held when the pass began nor on what was queued before
    the clearing. *)
Theorem event_queue_cleared_at_each_boot
  (getNextEvent : string → Computer → option (Z * Computer))
  (has_deinit : string → bool) (inc : incarnation) (c : Computer) (w : world) :
  eventQueue (boot inc c w).1 = i_boot inc ∧
  (∃ pre post,
      appended w (incarnation_body getNextEvent has_deinit inc c w).2
      = pre ++ EvClearEventQueue :: post ∧
      Forall (fun e => before_clearing e = true) pre ∧
      Forall (fun e => before_clearing e = false) post) ∧
  ∀ (q early : list string),
    incarnation_body getNextEvent has_deinit (with_early early inc)
      (set_eventQueue q c) w
    = incarnation_body getNextEvent has_deinit (with_early [] inc)
        (set_eventQueue [] c) w.
Proof.
  split; [by rewrite boot_eq|]. split.
  - destruct (incarnation_body_trace getNextEvent has_deinit inc c w)
      as (d & Hd & _ & _ & Hlate).
    rewrite (appended_app _ _ _ Hd).
    destruct (boot_trace_split c (gconfig w)) as (pre & post & -> & Hpre & Hpost).
    exists pre, (post ++ d). split; [|split].
    + rewrite <- app_assoc. reflexivity.
    + exact Hpre.
    + apply Forall_app. by split.
  - intros q early. unfold incarnation_body. rewrite !boot_eq. reflexivity.
Qed.

(** ** Every run: the Lua states, the panic handler, the registries *)

(** How many Lua states were closed. *)
Definition is_close (e : event) : bool :=
  match e with EvLuaClose => true | _ => false end.
Definition closes (tr : list event) : nat :=
  length (filter (fun e => is_close e = true) tr).

(** What the resume loop does. *)
Definition guest_step (e : event) : bool :=
  match e with
  | EvResume _ | EvGetNextEvent _ _ | EvTermPanic => true
  | _ => false
  end.

(** "Shutdown threads" to [lua_close]. *)
Definition closing_step (e : event) : bool :=
  match e with
  | EvStopWebsocket _ | EvDeinit _ | EvLuaClose => true
  | _ => false
  end.

Definition is_show (t : task) : bool :=
  match t with TaskShowMessage _ _ => true | _ => false end.

(** What [runComputer] never touches: the registries and the heap of
    instances; the task queue only grows, by message dialogs. *)
Definition registries_kept (w w' : world) : Prop :=
  computers w' = computers w ∧ freedComputers w' = freedComputers w ∧
  freedTimers w' = freedTimers w ∧ orphanedTerminals w' = orphanedTerminals w ∧
  computerThreads w' = computerThreads w ∧ instances w' = instances w ∧
  selectedRenderer w' = selectedRenderer w ∧
  ∃ shows, taskQueue w' = taskQueue w ++ shows ∧
           Forall (fun t => is_show t = true) shows.

Lemma closes_cons e d :
  closes (e :: d) = ((if is_close e then 1 else 0) + closes d)%nat.
Proof.
  unfold closes. destruct (is_close e) eqn:E.
  - by rewrite filter_cons_True.
  - rewrite filter_cons_False; [done|]. by rewrite E.
Qed.

Lemma closes_app d d' : closes (d ++ d') = (closes d + closes d')%nat.
Proof. unfold closes. by rewrite filter_app, length_app. Qed.

Lemma closes_none d :
  Forall (fun e => is_close e = false) d → closes d = 0%nat.
Proof. intros H. unfold closes. by rewrite filter_none. Qed.

Lemma closes_boot_trace c cfg : closes (boot_trace c cfg) = 0%nat.
Proof.
  apply closes_none. unfold boot_trace. rewrite !Forall_app. repeat split;
    first [ by (apply Forall_forall; intros e He;
                apply list_elem_of_fmap in He as (x & -> & _))
          | by (repeat case_match; repeat constructor) ].
Qed.

Lemma boot_trace_no_panic c cfg : EvTermPanic ∉ boot_trace c cfg.
Proof.
  intros H. pose proof (boot_trace_setup c cfg) as Hs.
  rewrite Forall_forall in Hs. specialize (Hs _ H). discriminate.
Qed.

Lemma closing_steps d :
  Forall (fun e => closing_step e = true) d →
  (EvTermPanic ∉ d) ∧ boots d = 0%nat ∧ resumes d = 0%nat.
Proof.
  intros H. split; [|split].
  - intros Hin. rewrite Forall_forall in H. specialize (H _ Hin). discriminate.
  - unfold boots. rewrite filter_none; [done|].
    eapply Forall_impl; [exact H|]. intros e He. by destruct e.
  - unfold resumes. rewrite filter_none; [done|].
    eapply Forall_impl; [exact H|]. intros e He. by destruct e.
Qed.

Lemma kept_refl w : registries_kept w w.
Proof.
  repeat split; try done. exists []. by rewrite app_nil_r.
Qed.

Lemma kept_trans w1 w2 w3 :
  registries_kept w1 w2 → registries_kept w2 w3 → registries_kept w1 w3.
Proof.
  intros (A1 & A2 & A3 & A4 & A5 & A6 & A7 & s & A8 & A9)
         (B1 & B2 & B3 & B4 & B5 & B6 & B7 & s' & B8 & B9).
  repeat split; try congruence.
  exists (s ++ s'). rewrite B8, A8, app_assoc. split; [done|].
  by apply Forall_app.
Qed.

Lemma kept_emit w w1 es : registries_kept w w1 → registries_kept w (emit es w1).
Proof.
  intros H. eapply kept_trans; [exact H|].
  repeat split; try done. exists []. by rewrite app_nil_r.
Qed.

Lemma kept_set_gconfig w w1 g :
  registries_kept w w1 → registries_kept w (set_gconfig g w1).
Proof.
  intros H. eapply kept_trans; [exact H|].
  repeat split; try done. exists []. by rewrite app_nil_r.
Qed.

Lemma kept_displayFailure w w1 t msg :
  registries_kept w w1 → registries_kept w (displayFailure t msg w1).
Proof.
  intros H. eapply kept_trans; [exact H|].
  unfold displayFailure. destruct t as [a|]; simpl;
    [destruct (terminals w1 !! a)|];
    (repeat split; try done; exists []; by rewrite app_nil_r).
Qed.

Lemma kept_show w w1 t title :
  registries_kept w w1 →
  registries_kept w (set_taskQueue (taskQueue w1 ++ [TaskShowMessage t title]) w1).
Proof.
  intros H. eapply kept_trans; [exact H|].
  repeat split; try done. exists [TaskShowMessage t title].
  split; [done|]. by repeat constructor.
Qed.

Section EveryRun.

Variable getNextEvent : string → Computer → option (Z * Computer).
Variable has_deinit : string → bool.

Lemma resume_loop_kept rs : ∀ narg c w w0,
  registries_kept w0 w →
  registries_kept w0 (resume_loop getNextEvent rs narg c w).2.
Proof.
  induction rs as [|r rs IH]; intros narg c w w0 Hk; cbn [resume_loop].
  - by destruct (decide (running c = 1)).
  - destruct (decide (running c = 1)); [|done].
    cbv zeta.
    destruct (decide (r_status r = LUA_YIELD)).
    + destruct (getNextEvent _ _) as [[narg' c']|].
      * apply IH. by apply kept_emit, kept_set_gconfig, kept_emit.
      * cbn [snd]. by apply kept_set_gconfig, kept_emit.
    + destruct (decide (_ ∧ _)).
      * cbn [snd]. by apply kept_emit, kept_set_gconfig, kept_emit.
      * destruct (decide (running (guest_effects r c) = 1)); cbn [snd];
          by apply kept_set_gconfig, kept_emit.
Qed.

(** What the resume loop appends: resumes and event waits, ended by the
    call of the panic handler exactly when a resume ends in an error
    while the instance is running; then [running] is 0. *)
Lemma resume_loop_summary rs : ∀ narg c w,
  ∃ d, trace (resume_loop getNextEvent rs narg c w).2 = trace w ++ d ∧
       Forall (fun e => guest_step e = true) d ∧
       (((EvTermPanic ∉ d) ∧
         (resume_loop getNextEvent rs narg c w).1.1 ≠ inl Panicked) ∨
        ∃ d1, d = d1 ++ [EvTermPanic] ∧ (EvTermPanic ∉ d1) ∧
              (resume_loop getNextEvent rs narg c w).1.1 = inl Panicked ∧
              running (resume_loop getNextEvent rs narg c w).1.2 = 0).
Proof.
  induction rs as [|r rs IH]; intros narg c w; cbn [resume_loop].
  - destruct (decide (running c = 1)); exists []; rewrite app_nil_r;
      (split; [done|]); (split; [done|]); left;
      (split; [apply not_elem_of_nil|cbn [fst snd]; done]).
  - destruct (decide (running c = 1));
      [|exists []; rewrite app_nil_r; (split; [done|]); (split; [done|]);
        left; (split; [apply not_elem_of_nil|cbn [fst snd]; done])].
    cbv zeta.
    destruct (decide (r_status r = LUA_YIELD)).
    + destruct (getNextEvent _ _) as [[narg' c']|].
      * match goal with
        | |- context [resume_loop _ rs ?n ?c0 ?w0] =>
            destruct (IH n c0 w0) as (d & Hd & Hg & Hp)
        end.
        exists (EvResume narg :: EvGetNextEvent (default "" (r_top r)) narg' :: d).
        rewrite Hd. cbn [trace emit set_trace set_gconfig].
        rewrite <- !app_assoc. split; [reflexivity|].
        split; [by repeat constructor|].
        destruct Hp as [[Hp Hne]|(d1 & -> & Hd1 & Hr & Hrun)].
        -- left. split; [|done].
           intros H. apply elem_of_cons in H as [H|H]; [discriminate|].
           apply elem_of_cons in H as [H|H]; [discriminate|]. done.
        -- right.
           exists (EvResume narg :: EvGetNextEvent (default "" (r_top r)) narg' :: d1).
           split; [reflexivity|]. split; [|done].
           intros H. apply elem_of_cons in H as [H|H]; [discriminate|].
           apply elem_of_cons in H as [H|H]; [discriminate|]. done.
      * exists [EvResume narg]. split; [reflexivity|].
        split; [by repeat constructor|]. left. split; [|cbn [fst snd]; done].
        intros H. apply list_elem_of_singleton in H. discriminate.
    + destruct (decide (_ ∧ _)) as [[Hst Hrun]|Hno].
      * exists [EvResume narg; EvTermPanic]. cbn [fst snd trace emit set_trace set_gconfig].
        rewrite <- !app_assoc. split; [reflexivity|].
        split; [by repeat constructor|]. right.
        exists [EvResume narg]. split; [reflexivity|]. split; [|done].
        intros H. apply list_elem_of_singleton in H. discriminate.
      * destruct (decide (running (guest_effects r c) = 1));
          exists [EvResume narg]; (split; [reflexivity|]);
          (split; [by repeat constructor|]); left;
          (split; [|cbn [fst snd]; done]);
          intros H; apply list_elem_of_singleton in H; discriminate.
Qed.

(** The resume loop leaves the task queue alone. *)
Lemma resume_loop_queue rs : ∀ narg c w,
  taskQueue (resume_loop getNextEvent rs narg c w).2 = taskQueue w.
Proof.
  induction rs as [|r rs IH]; intros narg c w; cbn [resume_loop].
  - by destruct (decide (running c = 1)).
  - destruct (decide (running c = 1)); [|done].
    cbv zeta.
    destruct (decide (r_status r = LUA_YIELD)).
    + destruct (getNextEvent _ _) as [[narg' c']|]; [|done].
      by rewrite IH.
    + destruct (decide (_ ∧ _)); [done|].
      by destruct (decide (running (guest_effects r c) = 1)).
Qed.

Lemma guest_steps d :
  Forall (fun e => guest_step e = true) d → closes d = 0%nat.
Proof.
  intros H. apply closes_none. eapply Forall_impl; [exact H|].
  intros e He. by destruct e.
Qed.

(** The events of "Shutdown threads" to [lua_close]. *)
Definition close_trace (c : Computer) : list event :=
  map EvStopWebsocket (openWebsockets c) ++
  map EvDeinit (filter (fun n => has_deinit n = true) libraries) ++
  [EvLuaClose].

Lemma close_vm_eq c w :
  close_vm has_deinit c w
  = (set_L None (set_openWebsockets [] c), emit (close_trace c) w).
Proof.
  unfold close_vm, close_trace. cbv zeta. by rewrite !emit_emit, <- ?app_assoc.
Qed.

Lemma close_trace_closing c :
  Forall (fun e => closing_step e = true) (close_trace c) ∧
  closes (close_trace c) = 1%nat.
Proof.
  unfold close_trace. split.
  - rewrite !Forall_app. repeat split;
      first [ by (apply Forall_forall; intros e He;
                  apply list_elem_of_fmap in He as (x & -> & _))
            | by repeat constructor ].
  - rewrite !closes_app.
    rewrite (closes_none (map EvStopWebsocket _))
      by (apply Forall_forall; intros e He;
          by apply list_elem_of_fmap in He as (x & -> & _)).
    rewrite (closes_none (map EvDeinit _))
      by (apply Forall_forall; intros e He;
          by apply list_elem_of_fmap in He as (x & -> & _)).
    reflexivity.
Qed.

(** The resume loop leaves without a status only when the panic handler
    is called, the description of the outside ends or the guest waits for
    ever. *)
Lemma resume_loop_exit rs : ∀ narg c w ex,
  (resume_loop getNextEvent rs narg c w).1.1 = inl ex →
  ex = ScriptEnd ∨ ex = Blocked ∨ ex = Panicked.
Proof.
  induction rs as [|r rs IH]; intros narg c w ex; cbn [resume_loop].
  - destruct (decide (running c = 1)); cbn [fst]; intros [= <-]; eauto.
  - destruct (decide (running c = 1)); [|cbn [fst]; intros [=]].
    cbv zeta.
    destruct (decide (r_status r = LUA_YIELD)).
    + destruct (getNextEvent _ _) as [[narg' c']|]; [apply IH|].
      cbn [fst]. intros [= <-]. eauto.
    + destruct (decide (_ ∧ _)); [cbn [fst]; intros [= <-]; eauto|].
      destruct (decide (running (guest_effects r c) = 1)); cbn [fst]; intros [=].
Qed.

(** The test after the resume loop, [status == 0 && config.standardsMode
    && !self->term->errorMode], shows at most one failure. *)
Lemma shown_cases (st : Z) (c2 : Computer) (w2 : world) :
  match (if bool_decide (st = 0) && standardsMode (gconfig w2)
         then match term c2 with
              | None => None
              | Some t =>
                  match terminals w2 !! t with
                  | None => None
                  | Some T =>
                      Some (if errorMode T then w2
                            else displayFailure (Some t)
                                   "Error running computer" w2)
                  end
              end
         else Some w2) with
  | Some w3 =>
      registries_kept w2 w3 ∧
      ∃ d3, trace w3 = trace w2 ++ d3 ∧
            (d3 = [] ∨
             st = 0 ∧ ∃ t, d3 = [EvDisplayFailure t "Error running computer"])
  | None => st = 0
  end.
Proof.
  destruct (bool_decide (st = 0)) eqn:E; cbn [andb].
  - apply bool_decide_eq_true in E.
    destruct (standardsMode (gconfig w2)).
    + destruct (term c2) as [t|]; [|done].
      destruct (terminals w2 !! t) as [T|]; [|done].
      destruct (errorMode T).
      * split; [apply kept_refl|]. exists []. rewrite app_nil_r. eauto.
      * split; [apply kept_displayFailure, kept_refl|].
        destruct (displayFailure_trace (Some t) "Error running computer" w2)
          as (-> & _).
        eexists. split; [reflexivity|]. right. eauto.
    + split; [apply kept_refl|]. exists []. rewrite app_nil_r. eauto.
  - split; [apply kept_refl|]. exists []. rewrite app_nil_r. eauto.
Qed.

Lemma not_in_two (e a b : event) (d : list event) :
  e ≠ a → e ≠ b → e ∉ d → e ∉ a :: b :: d.
Proof.
  intros Ha Hb Hd H. apply elem_of_cons in H as [H|H]; [done|].
  apply elem_of_cons in H as [H|H]; done.
Qed.

(** One pass through the loop body. *)
Lemma pass_summary inc c w :
  registries_kept w (incarnation_body getNextEvent has_deinit inc c w).2 ∧
  (incarnation_body getNextEvent has_deinit inc c w).1.1 ≠ Some Halted ∧
  ∃ d, trace (incarnation_body getNextEvent has_deinit inc c w).2
       = trace w ++ boot_trace c (gconfig w) ++ d ∧
       ((incarnation_body getNextEvent has_deinit inc c w).1.1 = None →
        closes d = 1%nat ∧
        L (incarnation_body getNextEvent has_deinit inc c w).1.2 = None ∧
        openWebsockets (incarnation_body getNextEvent has_deinit inc c w).1.2 = []) ∧
       ((incarnation_body getNextEvent has_deinit inc c w).1.1 = Some BiosFailed →
        closes d = 0%nat ∧
        L (incarnation_body getNextEvent has_deinit inc c w).1.2 = Some 0%nat) ∧
       ((incarnation_body getNextEvent has_deinit inc c w).1.1 = Some Panicked →
        closes d = 0%nat ∧
        ∃ d1, d = d1 ++ [EvTermPanic] ∧ (EvTermPanic ∉ d1)) ∧
       ((incarnation_body getNextEvent has_deinit inc c w).1.1 ≠ Some Panicked →
        EvTermPanic ∉ d).
Proof.
  unfold incarnation_body. rewrite boot_eq, gconfig_emit.
  destruct (boot_panics (gconfig w)) eqn:Hpanics.
  { cbn [fst snd]. split; [apply kept_emit, kept_emit, kept_refl|]. split; [done|].
    exists (EvTermPanic :: nil). cbn [trace emit set_trace]. rewrite <- app_assoc.
    split; [reflexivity|]. split; [done|]. split; [done|].
    split; [|done]. intros _. split; [done|].
    exists []. split; [done|]. apply not_elem_of_nil. }
  destruct (i_bios inc) as [|status isfunction].
  - cbn [fst snd]. split; [apply kept_emit, kept_refl|]. split; [done|].
    exists []. cbn [trace emit set_trace]. rewrite app_nil_r.
    split; [done|]. split; [done|]. split; [done|]. split; [done|].
    intros _. apply not_elem_of_nil.
  - destruct (bool_decide (status ≠ 0) || negb isfunction) eqn:Hfail.
    + unfold bios_failure. cbn [fst snd].
      destruct (standardsMode _) eqn:Hstd.
      * split; [by apply kept_displayFailure, kept_emit, kept_emit, kept_emit,
                  kept_refl|].
        split; [done|].
        match goal with
        | |- context [displayFailure ?t ?m ?x] =>
            destruct (displayFailure_trace t m x) as (-> & _)
        end.
        exists [EvLoadBios; EvStderr "Couldn't load BIOS";
                EvDisplayFailure (term c) "Error loading bios.lua"].
        cbn [trace emit set_trace]. rewrite <- !app_assoc.
        split; [reflexivity|]. split; [done|]. split; [done|]. split; [done|].
        intros _ H. repeat (apply elem_of_cons in H as [H|H]; [discriminate|]).
        by apply elem_of_nil in H.
      * split; [by apply kept_show, kept_emit, kept_emit, kept_emit, kept_refl|].
        split; [done|].
        exists [EvLoadBios; EvStderr "Couldn't load BIOS"].
        cbn [trace emit set_trace set_taskQueue]. rewrite <- !app_assoc.
        split; [reflexivity|]. split; [done|]. split; [done|]. split; [done|].
        intros _ H. repeat (apply elem_of_cons in H as [H|H]; [discriminate|]).
        by apply elem_of_nil in H.
    + match goal with
      | |- context [resume_loop _ ?rs ?n ?c1 ?w1] =>
          destruct (resume_loop_summary rs n c1 w1) as (d & Hd & Hg & Hp);
          pose proof (resume_loop_exit rs n c1 w1) as Hx;
          pose proof (resume_loop_kept rs n c1 w1 w
                        ltac:(by apply kept_emit, kept_emit, kept_emit, kept_refl))
            as Hk;
          destruct (resume_loop getNextEvent rs n c1 w1) as [[[ex|st] c2] w2]
      end; cbn [fst snd] in Hd, Hp, Hk, Hx; cbn [trace emit set_trace gconfig] in Hd.
      * cbn [fst snd]. split; [exact Hk|].
        assert (ex = ScriptEnd ∨ ex = Blocked ∨ ex = Panicked) as Hex by (by apply Hx).
        split; [by destruct Hex as [-> | [-> | ->]]|].
        exists (EvLoadBios :: EvAddTimer (watchdog_interval (gconfig w)) :: d).
        rewrite Hd, <- !app_assoc. split; [reflexivity|].
        split; [done|]. split; [by destruct Hex as [-> | [-> | ->]]|].
        split.
        -- intros [= ->]. split; [by rewrite !closes_cons, (guest_steps _ Hg)|].
           destruct Hp as [[_ Hne]|(d1 & -> & Hd1 & _)]; [done|].
           exists (EvLoadBios :: EvAddTimer (watchdog_interval (gconfig w)) :: d1).
           split; [reflexivity|]. by apply not_in_two.
        -- intros Hne. destruct Hp as [[Hp _]|(d1 & _ & _ & [= ->] & _)]; [|done].
           by apply not_in_two.
      * assert (EvTermPanic ∉ d) as Hnp
          by (by destruct Hp as [[Hp _]|(d1 & _ & _ & [=] & _)]).
        pose proof (shown_cases st c2 w2) as Hs. revert Hs.
        destruct (if bool_decide (st = 0) && standardsMode (gconfig w2)
                  then _ else _) as [w3|]; intros Hs.
        -- destruct Hs as (Hk3 & d3 & Hd3 & Hd3').
           rewrite close_vm_eq. cbn [fst snd].
           destruct (close_trace_closing c2) as (Hcl & Hcl1).
           split; [by apply kept_emit, (kept_trans _ w2)|]. split; [done|].
           exists (EvLoadBios :: EvAddTimer (watchdog_interval (gconfig w))
                     :: d ++ d3 ++ close_trace c2).
           cbn [trace emit set_trace]. rewrite Hd3, Hd, <- !app_assoc.
           split; [reflexivity|].
           assert (closes d3 = 0%nat ∧ EvTermPanic ∉ d3) as (Hc3 & Hp3).
           { destruct Hd3' as [->|(_ & t & ->)]; (split; [done|]).
             - apply not_elem_of_nil.
             - intros H. apply list_elem_of_singleton in H. discriminate. }
           split.
           { intros _. rewrite !closes_cons, !closes_app, (guest_steps _ Hg), Hc3, Hcl1.
             done. }
           split; [done|]. split; [done|].
           intros _. apply not_in_two; [done|done|].
           rewrite !elem_of_app. intros [H|[H|H]]; [done|done|].
           by apply (closing_steps _ Hcl).
        -- cbn [fst snd]. split; [exact Hk|]. split; [done|].
           exists (EvLoadBios :: EvAddTimer (watchdog_interval (gconfig w)) :: d).
           rewrite Hd, <- !app_assoc. split; [reflexivity|].
           split; [done|]. split; [done|]. split; [done|].
           intros _. by apply not_in_two.
Qed.

Lemma run_loop_halted rest c w :
  running c = 0 → run_loop getNextEvent has_deinit rest c w = (Halted, c, w).
Proof. intros H. destruct rest; cbn [run_loop]; by destruct (decide (running c = 0)). Qed.

(** The whole loop: the registries are kept; when the loop is left
    because [running] is 0, the last Lua state has been closed and as
    many states were closed as made; when it is left by the [return]
    after a boot script that did not load, or by a call of the panic
    handler, the state just made is still open; and the panic handler is
    called at the very end of such a run and in no other. *)
Lemma run_loop_summary script : ∀ c w,
  running c ≠ 0 ∨ (L c = None ∧ openWebsockets c = []) →
  registries_kept w (run_loop getNextEvent has_deinit script c w).2 ∧
  ∃ d, trace (run_loop getNextEvent has_deinit script c w).2 = trace w ++ d ∧
       ((run_loop getNextEvent has_deinit script c w).1.1 = Halted →
        running (run_loop getNextEvent has_deinit script c w).1.2 = 0 ∧
        L (run_loop getNextEvent has_deinit script c w).1.2 = None ∧
        openWebsockets (run_loop getNextEvent has_deinit script c w).1.2 = [] ∧
        closes d = boots d) ∧
       ((run_loop getNextEvent has_deinit script c w).1.1 = BiosFailed →
        L (run_loop getNextEvent has_deinit script c w).1.2 = Some 0%nat ∧
        (closes d + 1)%nat = boots d) ∧
       ((run_loop getNextEvent has_deinit script c w).1.1 = Panicked →
        (closes d + 1)%nat = boots d ∧
        ∃ d1, d = d1 ++ [EvTermPanic] ∧ (EvTermPanic ∉ d1)) ∧
       ((run_loop getNextEvent has_deinit script c w).1.1 ≠ Panicked →
        EvTermPanic ∉ d).
Proof.
  assert (∀ c w, running c = 0 → L c = None ∧ openWebsockets c = [] →
     registries_kept w w ∧
     ∃ d, trace w = trace w ++ d ∧
          (Halted = Halted →
           running c = 0 ∧ L c = None ∧ openWebsockets c = [] ∧ closes d = boots d) ∧
          (Halted = BiosFailed → L c = Some 0%nat ∧ (closes d + 1)%nat = boots d) ∧
          (Halted = Panicked →
           (closes d + 1)%nat = boots d ∧
           ∃ d1, d = d1 ++ [EvTermPanic] ∧ (EvTermPanic ∉ d1)) ∧
          (Halted ≠ Panicked → EvTermPanic ∉ d))
    as Hstop.
  { intros c w Hr [HL Ho]. split; [apply kept_refl|]. exists [].
    rewrite app_nil_r. split; [done|]. split; [done|]. split; [done|].
    split; [done|]. intros _. apply not_elem_of_nil. }
  induction script as [|inc rest IH]; intros c w Hpre; cbn [run_loop].
  - destruct (decide (running c = 0)) as [Hr|Hr]; cbn [fst snd].
    + apply Hstop; [done|]. by destruct Hpre.
    + split; [apply kept_refl|]. exists []. rewrite app_nil_r.
      split; [done|]. split; [done|]. split; [done|]. split; [done|].
      intros _. apply not_elem_of_nil.
  - destruct (decide (running c = 0)) as [Hr|Hr]; cbn [fst snd].
    { apply Hstop; [done|]. by destruct Hpre. }
    destruct (pass_summary inc c w) as (Hk & Hnh & d & Hd & Hnone & Hbf & Hpa & Hnp).
    destruct (incarnation_body_trace getNextEvent has_deinit inc c w)
      as (d0 & Hd0 & _ & Hb0 & _).
    assert (d0 = d) as ->
      by (rewrite Hd0 in Hd; by do 2 apply app_inv_head in Hd).
    pose proof (boots_boot_trace c (gconfig w)) as Hbt.
    pose proof (closes_boot_trace c (gconfig w)) as Hct.
    pose proof (boot_trace_no_panic c (gconfig w)) as Hpt.
    destruct (incarnation_body getNextEvent has_deinit inc c w) as [[[ex|] c'] w'];
      cbn [fst snd] in *.
    + split; [exact Hk|]. exists (boot_trace c (gconfig w) ++ d).
      split; [exact Hd|].
      split; [intros ->; done|].
      split.
      { intros ->. destruct (Hbf eq_refl) as (H1 & H2). split; [done|].
        rewrite closes_app, boots_app. lia. }
      split.
      { intros ->. destruct (Hpa eq_refl) as (H1 & d1 & -> & Hd1).
        split; [rewrite closes_app, boots_app; lia|].
        exists (boot_trace c (gconfig w) ++ d1).
        split; [by rewrite <- app_assoc|].
        rewrite elem_of_app. intros [H|H]; done. }
      intros Hne. rewrite elem_of_app. intros [H|H]; [done|].
      revert H. apply Hnp. intros [= ->]. done.
    + destruct (Hnone eq_refl) as (Hc1 & HL & Ho).
      assert (EvTermPanic ∉ d) as Hnd by (by apply Hnp).
      destruct (IH c' w' (or_intror (conj HL Ho)))
        as (Hk' & d' & Hd' & Hh' & Hb' & Hpa' & Hnp').
      split; [by apply (kept_trans _ w')|].
      exists (boot_trace c (gconfig w) ++ d ++ d').
      split; [by rewrite Hd', Hd, <- !app_assoc|].
      split.
      { intros Hh. destruct (Hh' Hh) as (H1 & H2 & H3 & H4).
        repeat (split; [done|]). rewrite !closes_app, !boots_app. lia. }
      split.
      { intros Hh. destruct (Hb' Hh) as (H1 & H2). split; [done|].
        rewrite !closes_app, !boots_app. lia. }
      split.
      { intros Hh. destruct (Hpa' Hh) as (H1 & d1 & -> & Hd1).
        split; [rewrite !closes_app, !boots_app in *; lia|].
        exists (boot_trace c (gconfig w) ++ d ++ d1).
        split; [by rewrite <- !app_assoc|].
        rewrite !elem_of_app. intros [H|[H|H]]; done. }
      intros Hne. rewrite !elem_of_app. intros [H|[H|H]]; [done|done|].
      revert H. by apply Hnp'.
Qed.

End EveryRun.

(** A list is cut in one way only at an element that occurs once. *)
Lemma split_unique {A} (x : A) : ∀ pre post d1 d2,
  pre ++ x :: post = d1 ++ x :: d2 → x ∉ d1 → x ∉ d2 → pre = d1 ∧ post = d2.
Proof.
  induction pre as [|a pre IH]; intros post [|b d1] d2 Heq H1 H2; simpl in Heq.
  - by injection Heq as ->.
  - injection Heq as <- _. exfalso. apply H1. left.
  - injection Heq as -> <-. exfalso. apply H2.
    apply elem_of_app. right. left.
  - injection Heq as <- Heq. apply not_elem_of_cons in H1 as [_ H1].
    destruct (IH _ _ _ Heq H1 H2) as [-> ->]. done.
Qed.

(** What [runComputer] does before the loop. *)
Lemma before_loop_summary c w :
  running (before_loop c w).1 ≠ 0 ∧
  registries_kept w (before_loop c w).2 ∧
  trace (before_loop c w).2
  = trace w ++ match L c with Some _ => [EvLuaClose] | None => [] end.
Proof.
  unfold before_loop. cbn [fst snd]. split; [done|].
  destruct (L c); cbn [trace emit set_trace].
  - split; [apply kept_emit, kept_refl|done].
  - split; [apply kept_refl|by rewrite app_nil_r].
Qed.

(** Every Lua state [runComputer] makes is closed again when the run
    ends with [running] at 0.  Then no Lua state is left ([L] is null),
    no websocket is open, and [lua_close] was called once for every state
    made, and once more when the function found a state on entry.  When
    the function returns because the boot script did not load, the state
    made for that boot is left open in [L]: one [lua_close] is missing.
    When the run comes to a call of the panic handler - after an error of
    the guest, or in server mode without the http library - the state of
    that boot is open at the call, the call is the last thing the run is
    followed to, and no run that ends otherwise calls the handler: what
    [termPanic] does with the state, and whether the loop is entered
    again, is not in Computer.cpp. *)
Theorem every_lua_state_is_closed
  (getNextEvent : string → Computer → option (Z * Computer))
  (has_deinit : string → bool) (script : list incarnation)
  (c : Computer) (w : world) :
  let r := runComputer getNextEvent has_deinit script c w in
  let made := (boots (appended w r.2)
               + match L c with Some _ => 1 | None => 0 end)%nat in
  (r.1.1 = Halted →
   running r.1.2 = 0 ∧ L r.1.2 = None ∧ openWebsockets r.1.2 = [] ∧
   closes (appended w r.2) = made) ∧
  (r.1.1 = BiosFailed →
   L r.1.2 = Some 0%nat ∧ (closes (appended w r.2) + 1)%nat = made) ∧
  (r.1.1 = Panicked →
   (closes (appended w r.2) + 1)%nat = made ∧
   ∃ before, appended w r.2 = before ++ [EvTermPanic] ∧ (EvTermPanic ∉ before)) ∧
  (r.1.1 ≠ Panicked → EvTermPanic ∉ appended w r.2).
Proof.
  unfold runComputer.
  destruct (before_loop_summary c w) as (Hrun & _ & Htr).
  destruct (before_loop c w) as [c0 w0]. cbn [fst snd] in *.
  destruct (run_loop_summary getNextEvent has_deinit script c0 w0 (or_introl Hrun))
    as (_ & d & Hd & Hh & Hb & Hpa & Hnp).
  cbv zeta.
  rewrite (appended_app w _ (match L c with Some _ => [EvLuaClose] | None => [] end ++ d))
    by (by rewrite Hd, Htr, <- app_assoc).
  rewrite closes_app, boots_app.
  assert (closes (match L c with Some _ => [EvLuaClose] | None => [] end)
          = match L c with Some _ => 1%nat | None => 0%nat end ∧
          boots (match L c with Some _ => [EvLuaClose] | None => [] end) = 0%nat ∧
          EvTermPanic ∉ match L c with Some _ => [EvLuaClose] | None => [] end)
    as (-> & -> & Hfirst).
  { destruct (L c); repeat split; try done.
    - intros H. apply list_elem_of_singleton in H. discriminate.
    - apply not_elem_of_nil. }
  split; [|split; [|split]].
  - intros H. destruct (Hh H) as (H1 & H2 & H3 & H4).
    repeat (split; [done|]). lia.
  - intros H. destruct (Hb H) as (H1 & H2). split; [done|]. lia.
  - intros H. destruct (Hpa H) as (H1 & d1 & -> & Hd1). split; [lia|].
    exists (match L c with Some _ => [EvLuaClose] | None => [] end ++ d1).
    split; [by rewrite <- app_assoc|].
    rewrite elem_of_app. intros [H'|H']; done.
  - intros H. rewrite elem_of_app. intros [H'|H']; [done|].
    revert H'. by apply Hnp.
Qed.

(** ** One Lua state at a time *)

(** The Lua states alive after a trace, starting from [live] of them:
    [luaL_newstate] needs that none is alive and [lua_close] that one
    is, else the result is [None]. *)
Fixpoint balanced (live : nat) (tr : list event) : option nat :=
  match tr with
  | [] => Some live
  | EvNewState :: rest =>
      match live with
      | O => balanced 1 rest
      | S _ => None
      end
  | EvLuaClose :: rest =>
      match live with
      | S O => balanced 0 rest
      | _ => None
      end
  | _ :: rest => balanced live rest
  end.

Lemma balanced_app live a : ∀ b,
  balanced live (a ++ b)
  = match balanced live a with
    | Some live' => balanced live' b
    | None => None
    end.
Proof.
  revert live. induction a as [|e a IH]; intros live b; [done|].
  destruct e; simpl; try apply IH; destruct live as [|[|live]]; try done;
    apply IH.
Qed.

(** A stretch that makes no state and closes at most what is alive. *)
Lemma balanced_counts d : ∀ live,
  boots d = 0%nat → (closes d ≤ live)%nat → (live ≤ 1)%nat →
  balanced live d = Some (live - closes d)%nat.
Proof.
  induction d as [|e d IH]; intros live Hb Hc Hl.
  - cbn. f_equal. unfold closes. simpl. lia.
  - rewrite boots_cons in Hb. rewrite closes_cons in Hc |- *.
    destruct e; cbn [balanced is_close is_new_state] in *;
      try (rewrite IH by lia; f_equal; lia).
    destruct live as [|[|live]]; try (exfalso; lia).
    rewrite IH by lia. f_equal; lia.
Qed.

(** A stretch that makes one state and closes none. *)
Lemma balanced_one_boot d :
  boots d = 1%nat → closes d = 0%nat → balanced 0 d = Some 1%nat.
Proof.
  induction d as [|e d IH]; intros Hb Hc; [discriminate Hb|].
  rewrite boots_cons in Hb. rewrite closes_cons in Hc.
  destruct e; cbn [balanced is_close is_new_state] in *;
    try (apply IH; lia); try (exfalso; lia).
  rewrite balanced_counts by lia. f_equal; lia.
Qed.

Lemma balanced_boot_trace c cfg : balanced 0 (boot_trace c cfg) = Some 1%nat.
Proof.
  apply balanced_one_boot; [apply boots_boot_trace|apply closes_boot_trace].
Qed.

Section OneState.

Variable getNextEvent : string → Computer → option (Z * Computer).
Variable has_deinit : string → bool.

(** A pass that leaves the loop from inside closes nothing. *)
Lemma pass_leaves_open inc c w how :
  (incarnation_body getNextEvent has_deinit inc c w).1.1 = Some how →
  ∃ d, trace (incarnation_body getNextEvent has_deinit inc c w).2
       = trace w ++ boot_trace c (gconfig w) ++ d ∧ closes d = 0%nat.
Proof.
  unfold incarnation_body. rewrite boot_eq, gconfig_emit.
  destruct (boot_panics (gconfig w)) eqn:Hpanics.
  { intros _. exists (EvTermPanic :: nil). cbn [snd trace emit set_trace].
    by rewrite <- app_assoc. }
  destruct (i_bios inc) as [|status isfunction].
  - intros _. exists []. cbn [snd trace emit set_trace]. by rewrite app_nil_r.
  - destruct (bool_decide (status ≠ 0) || negb isfunction) eqn:Hfail.
    + intros _. unfold bios_failure. cbn [fst snd].
      destruct (standardsMode _) eqn:Hstd.
      * match goal with
        | |- context [displayFailure ?t ?m ?x] =>
            destruct (displayFailure_trace t m x) as (-> & _)
        end.
        exists [EvLoadBios; EvStderr "Couldn't load BIOS";
                EvDisplayFailure (term c) "Error loading bios.lua"].
        cbn [trace emit set_trace]. by rewrite <- !app_assoc.
      * exists [EvLoadBios; EvStderr "Couldn't load BIOS"].
        cbn [trace emit set_trace set_taskQueue]. by rewrite <- !app_assoc.
    + match goal with
      | |- context [resume_loop _ ?rs ?n ?c1 ?w1] =>
          destruct (resume_loop_summary getNextEvent rs n c1 w1) as (d & Hd & Hg & _);
          destruct (resume_loop getNextEvent rs n c1 w1) as [[[ex0|st] c2] w2]
      end; cbn [fst snd] in Hd; cbn [trace emit set_trace gconfig] in Hd.
      * intros _. cbn [fst snd].
        exists (EvLoadBios :: EvAddTimer (watchdog_interval (gconfig w)) :: d).
        rewrite Hd, <- !app_assoc. split; [reflexivity|].
        by rewrite !closes_cons, (guest_steps _ Hg).
      * destruct (if bool_decide (st = 0) && standardsMode (gconfig w2)
                  then _ else _) as [w3|].
        -- rewrite close_vm_eq. cbn [fst snd]. intros [=].
        -- intros _. cbn [fst snd].
           exists (EvLoadBios :: EvAddTimer (watchdog_interval (gconfig w)) :: d).
           rewrite Hd, <- !app_assoc. split; [reflexivity|].
           by rewrite !closes_cons, (guest_steps _ Hg).
Qed.

Lemma run_loop_balanced script : ∀ c w,
  ∃ d live,
    trace (run_loop getNextEvent has_deinit script c w).2 = trace w ++ d ∧
    balanced 0 d = Some live ∧ (live ≤ 1)%nat ∧
    ((run_loop getNextEvent has_deinit script c w).1.1 = Halted → live = 0%nat) ∧
    ((run_loop getNextEvent has_deinit script c w).1.1 = BiosFailed → live = 1%nat) ∧
    ((run_loop getNextEvent has_deinit script c w).1.1 = Panicked → live = 1%nat).
Proof.
  induction script as [|inc rest IH]; intros c w; cbn [run_loop].
  - destruct (decide (running c = 0)); exists [], 0%nat;
      cbn [fst snd]; rewrite app_nil_r; repeat split; try done; lia.
  - destruct (decide (running c = 0)).
    { exists [], 0%nat. cbn [fst snd]. rewrite app_nil_r.
      repeat split; try done; lia. }
    destruct (pass_summary getNextEvent has_deinit inc c w)
      as (_ & Hnh & d & Hd & Hnone & _ & _ & _).
    destruct (incarnation_body_trace getNextEvent has_deinit inc c w)
      as (d0 & Hd0 & _ & Hb0 & _).
    assert (d0 = d) as ->
      by (rewrite Hd0 in Hd; by do 2 apply app_inv_head in Hd).
    pose proof (pass_leaves_open inc c w) as Hopen.
    destruct (incarnation_body getNextEvent has_deinit inc c w) as [[[how|] c'] w'];
      cbn [fst snd] in *.
    + destruct (Hopen how eq_refl) as (d1 & Hd1 & Hc1).
      assert (d1 = d) as ->
        by (rewrite Hd1 in Hd; by do 2 apply app_inv_head in Hd).
      exists (boot_trace c (gconfig w) ++ d), 1%nat.
      split; [exact Hd|].
      rewrite balanced_app, balanced_boot_trace, balanced_counts by lia.
      rewrite Hc1. repeat split; try done; try lia. intros ->. done.
    + destruct (Hnone eq_refl) as (Hc1 & _).
      destruct (IH c' w') as (d' & live & Hd' & Hbal & Hle & Hh & Hbf & Hpa).
      exists (boot_trace c (gconfig w) ++ d ++ d'), live.
      split; [by rewrite Hd', Hd, <- !app_assoc|].
      rewrite balanced_app, balanced_boot_trace. cbv beta iota.
      rewrite balanced_app, balanced_counts by lia.
      rewrite Hc1. cbn. done.
Qed.

End OneState.

(** An instance never has two Lua states, and no state is closed twice.
    Along every run of [runComputer], as far as it is followed - to its
    return, to a call of the panic handler, to a null pointer, or to
    where the description of the guest breaks off - [luaL_newstate] is
    only called when the instance has no state alive and [lua_close] only
    on the one alive (the state found on entry counts).  At the return
    through the end of the loop none is alive; after the boot script
    failed to load, and at a call of the panic handler, one is. *)
Theorem one_lua_state_at_a_time
  (getNextEvent : string → Computer → option (Z * Computer))
  (has_deinit : string → bool) (script : list incarnation)
  (c : Computer) (w : world) :
  let r := runComputer getNextEvent has_deinit script c w in
  ∃ live,
    balanced (match L c with Some _ => 1 | None => 0 end) (appended w r.2)
    = Some live ∧
    (live ≤ 1)%nat ∧
    (r.1.1 = Halted → live = 0%nat) ∧
    (r.1.1 = BiosFailed → live = 1%nat) ∧
    (r.1.1 = Panicked → live = 1%nat).
Proof.
  unfold runComputer.
  destruct (before_loop_summary c w) as (_ & _ & Htr).
  destruct (before_loop c w) as [c0 w0]. cbn [fst snd] in *.
  destruct (run_loop_balanced getNextEvent has_deinit script c0 w0)
    as (d & live & Hd & Hbal & Hle & Hh & Hb & Hpa).
  cbv zeta. exists live.
  rewrite (appended_app w _ (match L c with Some _ => [EvLuaClose] | None => [] end ++ d))
    by (by rewrite Hd, Htr, <- app_assoc).
  rewrite balanced_app.
  destruct (L c); cbn [balanced]; done.
Qed.

(** The erase loop takes nothing but [comp] out of the list. *)
Lemma erase_comp_others comp l :
  sublist (erase_comp comp l) l ∧
  ∀ a, a ≠ comp → a ∈ l → a ∈ erase_comp comp l.
Proof.
  assert (∀ n (l : list addr), (length l ≤ n)%nat →
             sublist (erase_comp comp l) l ∧
             ∀ a, a ≠ comp → a ∈ l → a ∈ erase_comp comp l) as H;
    [|by apply (H (length l))].
  clear l. induction n as [|n IH]; intros [|b after] Hlen; simpl in Hlen;
    try lia; try (split; [constructor|intros a _ H; by apply elem_of_nil in H]).
  simpl. destruct (decide (b = comp)) as [->|Hne].
  - destruct after as [|next after'].
    + split; [apply sublist_nil_l|].
      intros a Ha H. apply list_elem_of_singleton in H. done.
    + destruct (IH after' ltac:(simpl in Hlen; lia)) as [Hs Hi].
      split; [by apply sublist_cons, sublist_skip|].
      intros a Ha H. apply elem_of_cons in H as [->|H]; [done|].
      apply elem_of_cons in H as [->|H]; [left|right; by apply Hi].
  - destruct (IH after ltac:(lia)) as [Hs Hi].
    split; [by apply sublist_skip|].
    intros a Ha H. apply elem_of_cons in H as [->|H]; [left|right; by apply Hi].
Qed.

(** The thread body, whenever it gets to its end. *)
Lemma computerThread_returns
  (getNextEvent : string → Computer → option (Z * Computer))
  (has_deinit : string → bool) exiting script comp w w' how :
  computerThread getNextEvent has_deinit exiting script comp w = Some (w', how) →
  how = hands_over exiting w' ∧
  selectedRenderer w' = selectedRenderer w ∧
  ∃ c c' shows,
    instances w !! comp = Some c ∧
    instances w' = <[comp := c']> (instances w) ∧
    freedComputers w' = {[comp]} ∪ freedComputers w ∖ {[comp]} ∧
    computers w' = erase_comp comp (computers w) ∧
    computerThreads w' = computerThreads w ∧
    freedTimers w' = freedTimers w ∧
    taskQueue w' = taskQueue w ++ shows ++ [TaskDeleteComputer comp] ∧
    Forall (fun t => is_show t = true) shows.
Proof.
  unfold computerThread. cbn [instances set_freedComputers].
  destruct (instances w !! comp) as [c|] eqn:Hc; [|done].
  set (w0 := set_freedComputers (freedComputers w ∖ {[comp]}) w).
  assert (registries_kept w0 (runComputer getNextEvent has_deinit script c w0).2)
    as Hk.
  { unfold runComputer.
    destruct (before_loop_summary c w0) as (Hrun & Hk0 & _).
    destruct (before_loop c w0) as [c0 w00]. cbn [fst snd] in *.
    eapply kept_trans; [exact Hk0|].
    apply (run_loop_summary getNextEvent has_deinit script c0 w00 (or_introl Hrun)). }
  destruct (runComputer getNextEvent has_deinit script c w0) as [[ex c'] w1].
  cbn [fst snd] in *.
  destruct Hk as (K1 & K2 & K3 & K4 & K5 & K6 & K7 & shows & K8 & K9).
  destruct ex; intros [= <- <-]; (split; [reflexivity|]);
    (split; [cbn [selectedRenderer set_taskQueue set_computers set_freedComputers
                  set_instances]; by rewrite K7|]);
    exists c, c', shows;
    cbn [instances freedComputers computers computerThreads freedTimers
         taskQueue trace set_taskQueue set_computers set_freedComputers
         set_instances];
    rewrite K1, K2, K3, K5, K6, K8, <- ?app_assoc; subst w0;
    cbn [instances freedComputers computers computerThreads freedTimers
         taskQueue set_freedComputers]; done.
Qed.

(** When the thread has queued the deletion of its instance, however the
    guest behaved in a run that came to its end: the instance is in
    [freedComputers], its deletion is the last task queued (after at most
    message dialogs), and it is still on the heap, for the main thread to
    delete.  Nothing else is lost: every other instance is still in
    [computers], in the same order, and on the heap as it was, and the
    list of threads is unchanged.  With renderer 0, 2 or 5, or when the
    program is exiting, the thread returns there and then; with any other
    renderer it first hands the task queue to the main thread, so that
    the deletion may have run by the time it returns. *)
Theorem thread_end_registers_for_deletion
  (getNextEvent : string → Computer → option (Z * Computer))
  (has_deinit : string → bool) (exiting : bool) (script : list incarnation)
  (comp : addr) (w w' : world) (how : thread_end)
  (Hret : computerThread getNextEvent has_deinit exiting script comp w
          = Some (w', how)) :
  (∀ a, a ∈ freedComputers w' ↔ a = comp ∨ a ∈ freedComputers w) ∧
  (∃ shows, taskQueue w' = taskQueue w ++ shows ++ [TaskDeleteComputer comp] ∧
            Forall (fun t => is_show t = true) shows) ∧
  is_Some (instances w' !! comp) ∧
  (∀ a, a ≠ comp → instances w' !! a = instances w !! a) ∧
  sublist (computers w') (computers w) ∧
  (∀ a, a ≠ comp → (a ∈ computers w' ↔ a ∈ computers w)) ∧
  computerThreads w' = computerThreads w ∧
  (how = ReturnsAtOnce ↔
   selectedRenderer w = 0 ∨ selectedRenderer w = 2 ∨ selectedRenderer w = 5 ∨
   exiting = true).
Proof.
  destruct (computerThread_returns _ _ _ _ _ _ _ _ Hret)
    as (Hhow & Hsr & c & c' & shows & Hc & Hi & Hf & Hcs & Ht & _ & Hq & Hs).
  destruct (erase_comp_others comp (computers w)) as [Hsub Hin].
  split.
  { intros a. rewrite Hf, elem_of_union, elem_of_singleton, elem_of_difference,
      elem_of_singleton.
    destruct (decide (a = comp)); intuition. }
  split; [eauto|].
  split; [rewrite Hi, lookup_insert_eq; eauto|].
  split; [intros a Ha; rewrite Hi; by apply lookup_insert_ne|].
  rewrite Hcs. split; [done|]. split.
  { intros a Ha. split; [|by apply Hin].
    intros H. by eapply elem_of_sublist. }
  split; [done|].
  rewrite Hhow. unfold hands_over. rewrite Hsr.
  destruct exiting; cbn [negb].
  - rewrite andb_false_r. split; [eauto 6|done].
  - rewrite andb_true_r. case_bool_decide as Hr.
    + split; [done|]. intros [H|[H|[H|H]]]; [lia|lia|lia|done].
    + split; [|done]. intros _.
      destruct (decide (selectedRenderer w = 0)); [eauto|].
      destruct (decide (selectedRenderer w = 2)); [eauto|].
      destruct (decide (selectedRenderer w = 5)); [eauto 6|].
      exfalso. apply Hr. done.
Qed.

(** A world with the SDL renderer and one terminal, outside standards
    mode, and an instance that has that terminal. *)
Definition desktop_world : world :=
  mkWorld (mkConfiguration false true 0 17000 false false false false) 0
    [] ∅ ∅ ∅ [] [] false {[9%nat := mkTerminal "CraftOS Terminal" 0 false false]}
    ∅ [] [].

Definition desktop_computer : Computer :=
  mkComputer 0 false (Some 9%nat) (mkComputerConfiguration "" true false)
    [] [] [] [] [] 0 0 [] 0 None [] false.

Lemma thread_end_registers_for_deletion_witness :
  let gne := fun (_ : string) (c : Computer) => Some (0, c) in
  let w := set_computers [3%nat; 4%nat]
             (set_instances
                (<[3%nat := desktop_computer]> (<[4%nat := desktop_computer]> ∅))
                desktop_world) in
  ∃ w', computerThread gne (fun _ => false) false [shutdown_at_once] 4%nat w
        = Some (w', ReturnsAtOnce) ∧
        (3%nat ∈ computers w' ↔ 3%nat ∈ computers w).
Proof.
  intros gne w. eexists. split; [vm_compute; reflexivity|].
  refine (proj1 (proj2 (proj2 (proj2 (proj2 (proj2
            (thread_end_registers_for_deletion gne (fun _ => false) false
               [shutdown_at_once] 4%nat w _ ReturnsAtOnce _))))))
            3%nat _).
  - vm_compute. reflexivity.
  - lia.
Defined.

Lemma run_list_app a : ∀ b w,
  run_list (a ++ b) w
  = match run_list a w with
    | Some w' => run_list b w'
    | None => None
    end.
Proof.
  induction a as [|t a IH]; intros b w; [done|].
  cbn [app run_list]. destruct (run_task t w); [apply IH|done].
Qed.

(** The main thread runs message dialogs: they touch the trace only, and
    the call goes through a null pointer for one queued without a
    terminal. *)
Lemma run_shows shows : ∀ w,
  Forall (fun t => is_show t = true) shows →
  match run_list shows w with
  | Some w2 =>
      (∀ title, TaskShowMessage None title ∉ shows) ∧
      instances w2 = instances w ∧ computers w2 = computers w ∧
      freedComputers w2 = freedComputers w ∧ freedTimers w2 = freedTimers w ∧
      taskQueue w2 = taskQueue w
  | None => ∃ title, TaskShowMessage None title ∈ shows
  end.
Proof.
  induction shows as [|t shows IH]; intros w Hs.
  - cbn [run_list]. split; [intros title; apply not_elem_of_nil|done].
  - apply Forall_cons in Hs as [Ht Hs]. destruct t as [|[tm|] title]; [discriminate| |].
    + cbn [run_list run_task].
      specialize (IH (emit [EvShowMessage (Some tm) title] w) Hs).
      destruct (run_list shows _) as [w2|].
      * destruct IH as (Hn & -> & -> & -> & -> & ->).
        split; [|done]. intros title' H.
        apply elem_of_cons in H as [H|H]; [discriminate|]. by apply (Hn title').
      * destruct IH as (title' & H). exists title'. by right.
    + cbn [run_list run_task]. exists title. left.
Qed.

(** The main thread runs the tasks the thread body left: the message
    dialogs, then the deletion. *)
Lemma run_tasks_after_thread
  (getNextEvent : string → Computer → option (Z * Computer))
  (has_deinit : string → bool) exiting script comp w w' how :
  computerThread getNextEvent has_deinit exiting script comp w = Some (w', how) →
  taskQueue w = [] →
  match run_tasks w' with
  | Some w3 =>
      (∀ title, TaskShowMessage None title ∉ taskQueue w') ∧
      ∃ w2 self,
        w3 = Teardown.delete_Computer comp w2 ∧
        instances w2 !! comp = Some self ∧
        instances w' !! comp = Some self ∧
        instances w2 = instances w' ∧ computers w2 = computers w' ∧
        freedComputers w2 = freedComputers w' ∧ taskQueue w2 = []
  | None => ∃ title, TaskShowMessage None title ∈ taskQueue w'
  end.
Proof.
  intros Hret Hidle.
  destruct (computerThread_returns _ _ _ _ _ _ _ _ Hret)
    as (_ & _ & c & c' & shows & Hc & Hi & Hf & Hcs & Ht & _ & Hq & Hs).
  unfold run_tasks. rewrite Hq, Hidle. cbn [app].
  rewrite run_list_app.
  pose proof (run_shows shows (set_taskQueue [] w') Hs) as Hshows.
  destruct (run_list shows (set_taskQueue [] w')) as [w2|].
  - destruct Hshows as (Hn & S1 & S2 & S3 & S4 & S5).
    cbn [instances computers freedComputers freedTimers taskQueue set_taskQueue]
      in S1, S2, S3, S4, S5.
    cbn [run_list run_task]. split.
    { intros title H. apply elem_of_app in H as [H|H]; [by apply (Hn title)|].
      apply list_elem_of_singleton in H. discriminate. }
    exists w2, c'. split; [done|].
    split; [rewrite S1, Hi; apply lookup_insert_eq|].
    split; [rewrite Hi; apply lookup_insert_eq|]. done.
  - destruct Hshows as (title & H). exists title. apply elem_of_app. by left.
Qed.

(** From the thread's end to the deletion.  The main thread runs the
    queued tasks to the end unless a message dialog was queued for an
    instance without a terminal, where [showMessage] is called through a
    null pointer.  Once it has run them, the instance is off the heap,
    its address is still in [freedComputers], all its timers are marked
    as freed, the queue is empty, and every other instance is still on
    the heap. *)
Theorem instance_deleted_after_its_thread
  (getNextEvent : string → Computer → option (Z * Computer))
  (has_deinit : string → bool) (exiting : bool) (script : list incarnation)
  (comp : addr) (w w' : world) (how : thread_end)
  (Hret : computerThread getNextEvent has_deinit exiting script comp w
          = Some (w', how))
  (Hidle : taskQueue w = []) :
  (run_tasks w' = None ↔ ∃ title, TaskShowMessage None title ∈ taskQueue w') ∧
  ∀ w3, run_tasks w' = Some w3 →
    instances w3 !! comp = None ∧
    comp ∈ freedComputers w3 ∧
    taskQueue w3 = [] ∧
    computers w3 = computers w' ∧
    (∀ self t, instances w' !! comp = Some self → t ∈ timerIDs self →
               t ∈ freedTimers w3) ∧
    (∀ a, a ≠ comp → is_Some (instances w !! a) → is_Some (instances w3 !! a)).
Proof.
  pose proof (run_tasks_after_thread _ _ _ _ _ _ _ _ Hret Hidle) as Hrun.
  destruct (computerThread_returns _ _ _ _ _ _ _ _ Hret)
    as (_ & _ & c & c' & shows & Hc & Hi & Hf & _).
  destruct (run_tasks w') as [w3|].
  - destruct Hrun as (Hn & w2 & self & -> & Hself & Hself' & Ei & Ec & Ef & Eq).
    split.
    { split; [done|]. intros (title & H). by apply Hn in H. }
    intros w3 [= <-].
    destruct (Teardown.delete_Computer_summary comp w2 self Hself)
      as (D1 & D2 & D3 & D4 & D5 & D6).
    split; [done|].
    split.
    { rewrite D3, Ef, Hf. apply elem_of_union_l, elem_of_singleton. reflexivity. }
    split; [by rewrite D4|]. split; [by rewrite D2|].
    split.
    { intros self0 t Hself0 Ht. rewrite Hself' in Hself0. injection Hself0 as <-.
      by apply D5. }
    intros a Ha Hsome. apply D6; [done|].
    by rewrite Ei, Hi, lookup_insert_ne.
  - split; [done|]. intros w3 [=].
Qed.

Lemma instance_deleted_after_its_thread_witness :
  let gne := fun (_ : string) (c : Computer) => Some (0, c) in
  let w := set_computers [3%nat; 4%nat]
             (set_instances (<[3%nat := blank_computer]> (<[4%nat := blank_computer]> ∅))
                plain_world) in
  ∃ w' w3,
    computerThread gne (fun _ => false) false [shutdown_at_once] 4%nat w
    = Some (w', WaitsForMainThread) ∧
    run_tasks w' = Some w3 ∧
    instances w3 !! 4%nat = None.
Proof.
  intros gne w. eexists _, _.
  split; [vm_compute; reflexivity|]. split; [vm_compute; reflexivity|].
  refine (proj1 (proj2 (instance_deleted_after_its_thread gne (fun _ => false) false
                          [shutdown_at_once] 4%nat w _ WaitsForMainThread _ _) _ _)).
  - vm_compute. reflexivity.
  - reflexivity.
  - vm_compute. reflexivity.
Defined.

(** An instance that is not in the list comes off its end again. *)
Lemma erase_comp_last comp l : comp ∉ l → erase_comp comp (l ++ [comp]) = l.
Proof.
  induction l as [|a l IH]; intros Hin; simpl.
  - by destruct (decide (comp = comp)).
  - apply not_elem_of_cons in Hin as [Hne Hin].
    destruct (decide (a = comp)) as [->|_]; [done|]. by rewrite IH.
Qed.

(** A whole life.  An instance is started (the terminal is made and the
    ROM mounts), its thread runs the guest to the end, and the main
    thread runs the tasks the thread left - to the end, unless a message
    dialog was queued for an instance without a terminal.  Then
    [computers] is what it was before the start, the instance is off the
    heap and its address is in [freedComputers], and every instance that
    was on the heap before is still there.  The entry made in
    [computerThreads] stays: nothing in this file takes it out. *)
Theorem started_instance_is_gone_after_its_thread
  (addMount : string → string → bool → bool) (getROMPath : string)
  (getComputerConfig : Z → computer_configuration)
  (terminal_throws : Z → option string)
  (term_title : computer_configuration → bool → Z → string)
  (getNextEvent : string → Computer → option (Z * Computer))
  (has_deinit : string → bool) (exiting : bool) (script : list incarnation)
  (this tm : addr) (i : Z) (w w2 : world) (how : thread_end)
  (Hterm : selectedRenderer w = 1 ∨ terminal_throws (selectedRenderer w) = None)
  (Hrom : addMount (String.append getROMPath "/rom") "rom"
            (romReadOnly (gconfig w)) = true)
  (Hfresh : this ∉ computers w)
  (Hidle : taskQueue w = [])
  (Hret : computerThread getNextEvent has_deinit exiting script this
            (Lifecycle.startComputer addMount getROMPath getComputerConfig
               terminal_throws term_title this tm i w).2 = Some (w2, how)) :
  (run_tasks w2 = None ↔ ∃ title, TaskShowMessage None title ∈ taskQueue w2) ∧
  computerThreads w2 = computerThreads w ++ [this] ∧
  ∀ w3, run_tasks w2 = Some w3 →
    computers w3 = computers w ∧
    instances w3 !! this = None ∧
    this ∈ freedComputers w3 ∧
    taskQueue w3 = [] ∧
    (∀ a, a ≠ this → is_Some (instances w !! a) → is_Some (instances w3 !! a)).
Proof.
  destruct (Lifecycle.Computer_ctor_success addMount getROMPath getComputerConfig
              terminal_throws term_title this tm i w Hterm Hrom)
    as (w' & Hctor & H1 & H2 & H3 & H4 & H5 & H6 & H7 & H8 & H9).
  revert Hret. unfold Lifecycle.startComputer. rewrite Hctor. cbn [snd].
  set (w1 := set_computerThreads _ _). intros Hret.
  assert (computers w1 = computers w ++ [this] ∧ taskQueue w1 = [] ∧
          computerThreads w1 = computerThreads w ++ [this] ∧
          ∀ a, a ≠ this → instances w1 !! a = instances w !! a)
    as (C1 & C2 & C3 & C4).
  { subst w1. cbn [computers taskQueue computerThreads instances
                   set_computerThreads emit set_trace set_computers].
    rewrite H1, H2, H4, H9. repeat split; try done.
    intros a Ha. by apply lookup_insert_ne. }
  pose proof (run_tasks_after_thread _ _ _ _ _ _ _ _ Hret C2) as Hrun.
  destruct (computerThread_returns _ _ _ _ _ _ _ _ Hret)
    as (_ & _ & c & c' & shows & _ & Hi & Hf & Hcs & Ht & _).
  split; [|split; [by rewrite Ht, C3|]].
  - destruct (run_tasks w2) as [w3|].
    + destruct Hrun as (Hn & _). split; [done|]. intros (title & H). by apply Hn in H.
    + done.
  - intros w3 Hw3. rewrite Hw3 in Hrun.
    destruct Hrun as (_ & w4 & self & -> & Hself & _ & Ei & Ec & Ef & Eq).
    destruct (Teardown.delete_Computer_summary this w4 self Hself)
      as (D1 & D2 & D3 & D4 & _ & D6).
    split; [by rewrite D2, Ec, Hcs, C1, erase_comp_last|].
    split; [done|].
    split.
    { rewrite D3, Ef, Hf. apply elem_of_union_l, elem_of_singleton. reflexivity. }
    split; [by rewrite D4|].
    intros a Ha Hsome. apply D6; [done|].
    by rewrite Ei, Hi, lookup_insert_ne, C4.
Qed.

Lemma started_instance_is_gone_after_its_thread_witness :
  let addMount := fun (_ _ : string) (_ : bool) => true in
  let cfg := fun _ : Z => mkComputerConfiguration "" true false in
  let title := fun (_ : computer_configuration) (_ : bool) (_ : Z) => "CraftOS Terminal" in
  let gne := fun (_ : string) (c : Computer) => Some (0, c) in
  ∃ w2 w3,
    computerThread gne (fun _ => false) false [shutdown_at_once] 7%nat
      (Lifecycle.startComputer addMount "/usr/share/craftos" cfg (fun _ => None)
         title 7%nat 9%nat 0 plain_world).2 = Some (w2, WaitsForMainThread) ∧
    run_tasks w2 = Some w3 ∧
    computers w3 = computers plain_world.
Proof.
  intros addMount cfg title gne. eexists _, _.
  split; [vm_compute; reflexivity|]. split; [vm_compute; reflexivity|].
  refine (proj1 (proj2 (proj2 (started_instance_is_gone_after_its_thread addMount
                   "/usr/share/craftos" cfg (fun _ => None) title gne
                   (fun _ => false) false [shutdown_at_once] 7%nat 9%nat 0
                   plain_world _ WaitsForMainThread
                   (or_introl eq_refl) eq_refl _ eq_refl _)) _ _)).
  - apply not_elem_of_nil.
  - vm_compute. reflexivity.
  - vm_compute. reflexivity.
Defined.

(** ** A boot script that does not load *)

(** [computerThread] first takes the address of its instance out of
    [freedComputers], "in case the allocator decides to reuse pointers". *)
Definition thread_entry (comp : addr) (w : world) : world :=
  set_freedComputers (freedComputers w ∖ {[comp]}) w.

Lemma console_reports_app d d' :
  console_reports (d ++ d') = (console_reports d + console_reports d')%nat.
Proof. unfold console_reports. by rewrite filter_app, length_app. Qed.

Lemma console_reports_none d :
  Forall (fun e => is_stderr e = false) d → console_reports d = 0%nat.
Proof. intros H. unfold console_reports. by rewrite filter_none. Qed.

Lemma console_reports_boot_trace c cfg : console_reports (boot_trace c cfg) = 0%nat.
Proof.
  apply console_reports_none.
  eapply Forall_impl; [apply boot_trace_setup|]. intros e He. by destruct e.
Qed.

(** What [bios_failure] does to the world. *)
Lemma bios_failure_world c w :
  trace (bios_failure c w)
  = trace w ++ EvStderr "Couldn't load BIOS" ::
      (if standardsMode (gconfig w)
       then [EvDisplayFailure (term c) "Error loading bios.lua"] else []) ∧
  taskQueue (bios_failure c w)
  = taskQueue w ++
      (if standardsMode (gconfig w) then []
       else [TaskShowMessage (term c) "Couldn't load BIOS"]).
Proof.
  unfold bios_failure. rewrite gconfig_emit.
  destruct (standardsMode (gconfig w)).
  - match goal with
    | |- context [displayFailure ?t ?m ?x] =>
        destruct (displayFailure_trace t m x) as (-> & _ & -> & _)
    end.
    cbn [trace taskQueue emit set_trace]. by rewrite <- !app_assoc, app_nil_r.
  - cbn [trace taskQueue emit set_trace set_taskQueue]. done.
Qed.

Section FailedBoot.

Variable getNextEvent : string → Computer → option (Z * Computer).
Variable has_deinit : string → bool.

Lemma shown_queue (st : Z) (c2 : Computer) (w2 : world) :
  match (if bool_decide (st = 0) && standardsMode (gconfig w2)
         then match term c2 with
              | None => None
              | Some t =>
                  match terminals w2 !! t with
                  | None => None
                  | Some T =>
                      Some (if errorMode T then w2
                            else displayFailure (Some t)
                                   "Error running computer" w2)
                  end
              end
         else Some w2) with
  | Some w3 =>
      taskQueue w3 = taskQueue w2 ∧
      ∃ d3, trace w3 = trace w2 ++ d3 ∧ console_reports d3 = 0%nat
  | None => True
  end.
Proof.
  destruct (bool_decide (st = 0) && standardsMode (gconfig w2)).
  - destruct (term c2) as [t|]; [|done].
    destruct (terminals w2 !! t) as [T|]; [|done].
    destruct (errorMode T).
    + split; [done|]. exists []. by rewrite app_nil_r.
    + destruct (displayFailure_trace (Some t) "Error running computer" w2)
        as (-> & _ & -> & _).
      split; [done|]. eexists. split; [reflexivity|]. done.
  - split; [done|]. exists []. by rewrite app_nil_r.
Qed.

(** A pass that runs to the bottom of the loop body reports nothing on
    stderr and queues no task. *)
Lemma pass_completed inc c w c' w' :
  incarnation_body getNextEvent has_deinit inc c w = (None, c', w') →
  taskQueue w' = taskQueue w ∧
  ∃ d, trace w' = trace w ++ d ∧ console_reports d = 0%nat.
Proof.
  unfold incarnation_body. rewrite boot_eq, gconfig_emit.
  destruct (boot_panics (gconfig w)); [intros [=]|].
  destruct (i_bios inc) as [|status isfunction]; [intros [=]|].
  destruct (bool_decide (status ≠ 0) || negb isfunction); [intros [=]|].
  match goal with
  | |- context [resume_loop _ ?rs ?n ?c1 ?w1] =>
      destruct (resume_loop_summary getNextEvent rs n c1 w1) as (d & Hd & Hg & _);
      pose proof (resume_loop_queue getNextEvent rs n c1 w1) as Hq;
      destruct (resume_loop getNextEvent rs n c1 w1) as [[[ex|st] c2] w2]
  end; cbn [fst snd] in Hd, Hq; cbn [trace emit set_trace taskQueue] in Hd, Hq;
    [intros [=]|].
  pose proof (shown_queue st c2 w2) as Hs. revert Hs.
  destruct (if bool_decide (st = 0) && standardsMode (gconfig w2)
            then _ else _) as [w3|]; intros Hs; [|intros [=]].
  destruct Hs as (Hq3 & d3 & Hd3 & Hc3).
  rewrite close_vm_eq. intros [= <- <-].
  split; [cbn [taskQueue emit set_trace]; congruence|].
  exists (boot_trace c (gconfig w) ++
          EvLoadBios :: EvAddTimer (watchdog_interval (gconfig w)) ::
          d ++ d3 ++ close_trace has_deinit c2).
  cbn [trace emit set_trace]. rewrite Hd3, Hd, <- !app_assoc.
  split; [reflexivity|].
  rewrite console_reports_app, console_reports_boot_trace.
  change (EvLoadBios :: EvAddTimer (watchdog_interval (gconfig w)) ::
          d ++ d3 ++ close_trace has_deinit c2)
    with ([EvLoadBios; EvAddTimer (watchdog_interval (gconfig w))] ++
          d ++ d3 ++ close_trace has_deinit c2).
  rewrite !console_reports_app, Hc3.
  rewrite (console_reports_none d)
    by (eapply Forall_impl; [exact Hg|]; intros e He; by destruct e).
  rewrite (console_reports_none (close_trace has_deinit c2))
    by (eapply Forall_impl; [apply close_trace_closing|]; intros e He; by destruct e).
  reflexivity.
Qed.

Lemma after_passes_summary pre : ∀ c w c' w',
  after_passes getNextEvent has_deinit pre c w = Some (c', w') →
  registries_kept w w' ∧ taskQueue w' = taskQueue w ∧
  ∃ d, trace w' = trace w ++ d ∧ console_reports d = 0%nat.
Proof.
  induction pre as [|inc pre IH]; intros c w c' w' H; cbn [after_passes] in H.
  - injection H as <- <-. split; [apply kept_refl|]. split; [done|].
    exists []. by rewrite app_nil_r.
  - destruct (decide (running c = 0)); [done|].
    destruct (pass_summary getNextEvent has_deinit inc c w) as (Hk & _).
    pose proof (pass_completed inc c w) as Hpass.
    destruct (incarnation_body getNextEvent has_deinit inc c w) as [[[ex|] c1] w1];
      [done|].
    cbn [snd] in Hk.
    destruct (Hpass c1 w1 eq_refl) as (Hq1 & d1 & Hd1 & Hc1).
    destruct (IH c1 w1 c' w' H) as (Hk' & Hq' & d' & Hd' & Hc').
    split; [by eapply kept_trans|]. split; [congruence|].
    exists (d1 ++ d'). split; [by rewrite Hd', Hd1, <- app_assoc|].
    rewrite console_reports_app. lia.
Qed.

Lemma run_loop_app pre : ∀ rest c w c' w',
  after_passes getNextEvent has_deinit pre c w = Some (c', w') →
  run_loop getNextEvent has_deinit (pre ++ rest) c w
  = run_loop getNextEvent has_deinit rest c' w'.
Proof.
  induction pre as [|inc pre IH]; intros rest c w c' w' H;
    cbn [after_passes] in H; cbn [app].
  - by injection H as <- <-.
  - cbn [run_loop]. destruct (decide (running c = 0)); [done|].
    destruct (incarnation_body getNextEvent has_deinit inc c w) as [[[ex|] c1] w1];
      [done|].
    by apply IH.
Qed.

(** The loop comes to the pass that follows [pre]. *)
Lemma runComputer_reaches pre rest c w c1 w1 :
  after_passes getNextEvent has_deinit pre (before_loop c w).1 (before_loop c w).2
  = Some (c1, w1) →
  runComputer getNextEvent has_deinit (pre ++ rest) c w
  = run_loop getNextEvent has_deinit rest c1 w1 ∧
  registries_kept w w1 ∧ taskQueue w1 = taskQueue w ∧
  ∃ d, trace w1 = trace w ++ d ∧ console_reports d = 0%nat.
Proof.
  intros H. unfold runComputer.
  destruct (before_loop_summary c w) as (_ & Hk0 & Htr).
  assert (taskQueue (before_loop c w).2 = taskQueue w) as Hq0
    by (unfold before_loop; cbn [snd]; by destruct (L c)).
  destruct (before_loop c w) as [c0 w0]. cbn [fst snd] in *.
  destruct (after_passes_summary _ _ _ _ _ H) as (Hk & Hq & d & Hd & Hc).
  split; [by apply run_loop_app|]. split; [by eapply kept_trans|].
  split; [congruence|].
  exists (match L c with Some _ => [EvLuaClose] | None => [] end ++ d).
  split; [by rewrite Hd, Htr, <- app_assoc|].
  rewrite console_reports_app, Hc. by destruct (L c).
Qed.

(** The pass of a boot script that [lua_load] rejected. *)
Lemma rejected_pass inc rest c w status isfunction :
  running c ≠ 0 → boot_panics (gconfig w) = false →
  i_bios inc = BiosLoaded status isfunction →
  status ≠ 0 ∨ isfunction = false →
  run_loop getNextEvent has_deinit (inc :: rest) c w
  = (BiosFailed, set_eventQueue (i_boot inc) (set_L (Some 0%nat) c),
     bios_failure (set_eventQueue (i_boot inc) (set_L (Some 0%nat) c))
       (emit [EvLoadBios] (emit (boot_trace c (gconfig w)) w))).
Proof.
  intros Hrun Hp Hb Hfail. cbn [run_loop].
  destruct (decide (running c = 0)); [done|].
  unfold incarnation_body. rewrite boot_eq, gconfig_emit, Hp, Hb.
  assert (bool_decide (status ≠ 0) || negb isfunction = true) as ->.
  { destruct Hfail as [H| ->].
    - by rewrite bool_decide_eq_true_2.
    - apply orb_true_r. }
  reflexivity.
Qed.

(** The pass of a boot script that could not be opened. *)
Lemma unopened_pass inc rest c w :
  running c ≠ 0 → boot_panics (gconfig w) = false →
  i_bios inc = BiosMissing →
  run_loop getNextEvent has_deinit (inc :: rest) c w
  = (Undefined "feof(NULL)", set_eventQueue (i_boot inc) (set_L (Some 0%nat) c),
     emit (boot_trace c (gconfig w)) w).
Proof.
  intros Hrun Hp Hb. cbn [run_loop].
  destruct (decide (running c = 0)); [done|].
  unfold incarnation_body. by rewrite boot_eq, gconfig_emit, Hp, Hb.
Qed.

End FailedBoot.

(** C8 fails for a boot script that cannot be opened.  Let the loop come
    to a pass - the first, or one after any number of reboots - whose
    boot script [platform_fopen] cannot open.  The null [FILE*] goes to
    [lua_load], and [file_reader] calls [feof] on it: the run ends there.
    The pass has done the boot and nothing else; in the whole run no line
    went to stderr, no task was queued, and [computerThread] does not
    come to its end: the instance is not put in [freedComputers], not
    taken out of [computers], and no deletion is queued. *)
Theorem unopened_boot_script_is_not_reported
  (getNextEvent : string → Computer → option (Z * Computer))
  (has_deinit : string → bool) (exiting : bool)
  (pre : list incarnation) (inc : incarnation) (rest : list incarnation)
  (comp : addr) (c c1 : Computer) (w w1 : world)
  (Hinst : instances w !! comp = Some c)
  (Hpre : after_passes getNextEvent has_deinit pre
            (before_loop c (thread_entry comp w)).1
            (before_loop c (thread_entry comp w)).2 = Some (c1, w1))
  (Hrun : running c1 ≠ 0)
  (Hpanics : boot_panics (gconfig w1) = false)
  (Hbios : i_bios inc = BiosMissing) :
  (runComputer getNextEvent has_deinit (pre ++ inc :: rest) c
     (thread_entry comp w)).1.1 = Undefined "feof(NULL)" ∧
  (runComputer getNextEvent has_deinit (pre ++ inc :: rest) c
     (thread_entry comp w)).2 = emit (boot_trace c1 (gconfig w1)) w1 ∧
  console_reports
    (appended w (runComputer getNextEvent has_deinit (pre ++ inc :: rest) c
                   (thread_entry comp w)).2) = 0%nat ∧
  taskQueue (runComputer getNextEvent has_deinit (pre ++ inc :: rest) c
               (thread_entry comp w)).2 = taskQueue w ∧
  computerThread getNextEvent has_deinit exiting (pre ++ inc :: rest) comp w = None.
Proof.
  destruct (runComputer_reaches getNextEvent has_deinit pre (inc :: rest) c
              (thread_entry comp w) c1 w1 Hpre) as (Hreach & _ & Hq & d & Hd & Hc).
  pose proof (unopened_pass getNextEvent has_deinit inc rest c1 w1 Hrun Hpanics Hbios)
    as Hpass.
  assert (computerThread getNextEvent has_deinit exiting (pre ++ inc :: rest) comp w
          = None) as Hthread.
  { unfold computerThread. cbn [instances set_freedComputers]. rewrite Hinst.
    change (set_freedComputers (freedComputers w ∖ {[comp]}) w)
      with (thread_entry comp w).
    by rewrite Hreach, Hpass. }
  rewrite Hreach, Hpass. cbn [fst snd].
  split; [done|]. split; [done|]. split; [|split; [|done]].
  - rewrite (appended_app w _ (d ++ boot_trace c1 (gconfig w1)))
      by (cbn [trace emit set_trace]; rewrite Hd, <- app_assoc; reflexivity).
    by rewrite console_reports_app, Hc, console_reports_boot_trace.
  - cbn [taskQueue emit set_trace]. exact Hq.
Qed.

(** A reboot, and then a boot script that cannot be opened. *)
Definition reboot_at_once : incarnation :=
  mkIncarnation [] [] (BiosLoaded 0 true) 5
    [mkResume LUA_YIELD None (Some 2) (fun cfg => cfg) [] []].

Definition unopened : incarnation := mkIncarnation [] [] BiosMissing 5 [].

(** The world in which the thread of instance 4 starts, and where the
    loop stands after the reboot. *)
Definition desktop_start : world :=
  set_computers [4%nat]
    (set_instances (<[4%nat := desktop_computer]> ∅) desktop_world).

Definition every_event (_ : string) (c : Computer) : option (Z * Computer) :=
  Some (0, c).

Definition after_reboot : Computer * world :=
  default (desktop_computer, desktop_start)
    (after_passes every_event (fun _ => false) [reboot_at_once]
       (before_loop desktop_computer (thread_entry 4%nat desktop_start)).1
       (before_loop desktop_computer (thread_entry 4%nat desktop_start)).2).

Lemma unopened_boot_script_is_not_reported_witness :
  computerThread every_event (fun _ => false) false [reboot_at_once; unopened]
    4%nat desktop_start = None ∧
  console_reports
    (appended desktop_start
       (runComputer every_event (fun _ => false) [reboot_at_once; unopened]
          desktop_computer (thread_entry 4%nat desktop_start)).2) = 0%nat.
Proof.
  destruct (unopened_boot_script_is_not_reported every_event (fun _ => false) false
              [reboot_at_once] unopened [] 4%nat desktop_computer after_reboot.1
              desktop_start after_reboot.2)
    as (_ & _ & H3 & _ & H5).
  - reflexivity.
  - vm_compute. reflexivity.
  - vm_compute. lia.
  - reflexivity.
  - reflexivity.
  - exact (conj H5 H3).
Defined.

(** What holds of a boot script that was opened and that [lua_load]
    rejected, with an error status or with something that is no function
    on the stack.  Let the loop come to a pass with such a boot script -
    the first, or one after any number of reboots - outside server mode
    without http.  Then the thread body runs to its end.  What the pass
    appends to the trace is the boot, the load, one line on stderr and -
    in standards mode - the failure shown on the terminal; outside
    standards mode a message dialog is queued instead.  That line is the
    only one on stderr in the whole run; in the pass the guest is not
    resumed, no watchdog timer is armed and one Lua state is made.  The
    instance ends in [freedComputers], out of [computers] (when it was
    there once), and its deletion is queued last.  On an instance without
    a terminal, outside standards mode, the queued dialog is a call of
    [showMessage] through a null pointer, and the main thread does not
    get to the deletion.  Otherwise the main thread runs the dialog and
    then [Computer::~Computer]: the instance is off the heap, the queue
    is empty, and every other instance is still on the heap. *)
Theorem rejected_boot_script_is_fatal_once
  (getNextEvent : string → Computer → option (Z * Computer))
  (has_deinit : string → bool) (exiting : bool)
  (pre : list incarnation) (inc : incarnation) (rest : list incarnation)
  (comp : addr) (c c1 : Computer) (w w1 : world) (status : Z) (isfunction : bool)
  (Hinst : instances w !! comp = Some c)
  (Hidle : taskQueue w = [])
  (Hpre : after_passes getNextEvent has_deinit pre
            (before_loop c (thread_entry comp w)).1
            (before_loop c (thread_entry comp w)).2 = Some (c1, w1))
  (Hrun : running c1 ≠ 0)
  (Hpanics : boot_panics (gconfig w1) = false)
  (Hbios : i_bios inc = BiosLoaded status isfunction)
  (Hfail : status ≠ 0 ∨ isfunction = false) :
  ∃ w',
    computerThread getNextEvent has_deinit exiting (pre ++ inc :: rest) comp w
    = Some (w', hands_over exiting w') ∧
    appended w1 w' =
      boot_trace c1 (gconfig w1) ++
      [EvLoadBios; EvStderr "Couldn't load BIOS"] ++
      (if standardsMode (gconfig w1)
       then [EvDisplayFailure (term c1) "Error loading bios.lua"] else []) ∧
    taskQueue w' =
      (if standardsMode (gconfig w1) then []
       else [TaskShowMessage (term c1) "Couldn't load BIOS"]) ++
      [TaskDeleteComputer comp] ∧
    console_reports (appended w w') = 1%nat ∧
    resumes (appended w1 w') = 0%nat ∧
    armed_intervals (appended w1 w') = [] ∧
    boots (appended w1 w') = 1%nat ∧
    comp ∈ freedComputers w' ∧
    (NoDup (computers w) → comp ∉ computers w') ∧
    (standardsMode (gconfig w1) = false → term c1 = None → run_tasks w' = None) ∧
    (standardsMode (gconfig w1) = true ∨ is_Some (term c1) →
     ∃ w3, run_tasks w' = Some w3 ∧
           instances w3 !! comp = None ∧
           comp ∈ freedComputers w3 ∧
           taskQueue w3 = [] ∧
           computers w3 = computers w' ∧
           ∀ a, a ≠ comp → is_Some (instances w !! a) →
                is_Some (instances w3 !! a)).
Proof.
  destruct (runComputer_reaches getNextEvent has_deinit pre (inc :: rest) c
              (thread_entry comp w) c1 w1 Hpre) as (Hreach & Hk & Hq & d & Hd & Hc).
  pose proof (rejected_pass getNextEvent has_deinit inc rest c1 w1 status isfunction
                Hrun Hpanics Hbios Hfail) as Hpass.
  set (cF := set_eventQueue (i_boot inc) (set_L (Some 0%nat) c1)) in *.
  set (wB := emit [EvLoadBios] (emit (boot_trace c1 (gconfig w1)) w1)) in *.
  destruct (bios_failure_world cF wB) as (Htr & Htq).
  assert (gconfig wB = gconfig w1 ∧ term cF = term c1 ∧
          trace wB = trace w1 ++ boot_trace c1 (gconfig w1) ++ [EvLoadBios] ∧
          taskQueue wB = taskQueue w1) as (Eg & Et & Etr & Etq).
  { subst wB cF. cbn [gconfig term trace taskQueue emit set_trace set_eventQueue set_L].
    by rewrite <- app_assoc. }
  rewrite Eg, Et in Htr, Htq. rewrite Etr in Htr. rewrite Etq, Hq in Htq.
  cbn [thread_entry taskQueue set_freedComputers] in Htq. rewrite Hidle in Htq.
  cbn [app] in Htq.
  assert (∃ w', computerThread getNextEvent has_deinit exiting (pre ++ inc :: rest)
                  comp w = Some (w', hands_over exiting w') ∧
                trace w' = trace (bios_failure cF wB) ∧
                taskQueue w' = taskQueue (bios_failure cF wB) ++ [TaskDeleteComputer comp])
    as (w' & Hthread & Htr' & Htq').
  { unfold computerThread. cbn [instances set_freedComputers]. rewrite Hinst.
    change (set_freedComputers (freedComputers w ∖ {[comp]}) w)
      with (thread_entry comp w).
    rewrite Hreach, Hpass. eexists. split; [reflexivity|]. done. }
  exists w'. split; [exact Hthread|].
  rewrite Htr in Htr'. rewrite Htq in Htq'.
  assert (appended w1 w' =
          boot_trace c1 (gconfig w1) ++
          [EvLoadBios; EvStderr "Couldn't load BIOS"] ++
          (if standardsMode (gconfig w1)
           then [EvDisplayFailure (term c1) "Error loading bios.lua"] else []))
    as Happ.
  { apply appended_app. rewrite Htr', <- !app_assoc. reflexivity. }
  split; [exact Happ|]. split; [exact Htq'|].
  pose proof (boot_trace_setup c1 (gconfig w1)) as Hsetup.
  destruct (setup_steps _ Hsetup) as (Harm & Hres).
  pose proof (boots_boot_trace c1 (gconfig w1)) as Hboots.
  pose proof (console_reports_boot_trace c1 (gconfig w1)) as Hcons.
  destruct (computerThread_returns _ _ _ _ _ _ _ _ Hthread)
    as (_ & _ & c0 & c' & shows & _ & Hi & Hf & Hcs & _).
  split.
  { rewrite (appended_app w w'
               (d ++ boot_trace c1 (gconfig w1) ++
                [EvLoadBios; EvStderr "Couldn't load BIOS"] ++
                (if standardsMode (gconfig w1)
                 then [EvDisplayFailure (term c1) "Error loading bios.lua"] else []))).
    - rewrite !console_reports_app, Hc, Hcons.
      by destruct (standardsMode (gconfig w1)).
    - rewrite Htr', Hd. cbn [thread_entry trace set_freedComputers].
      by rewrite <- !app_assoc. }
  rewrite Happ.
  unfold resumes, armed_intervals, boots in *.
  rewrite !omap_app, !filter_app, !length_app, Harm, Hres, Hboots.
  split; [by destruct (standardsMode (gconfig w1))|].
  split; [by destruct (standardsMode (gconfig w1))|].
  split; [by destruct (standardsMode (gconfig w1))|].
  split; [rewrite Hf; apply elem_of_union_l, elem_of_singleton; reflexivity|].
  split; [intros Hnd; rewrite Hcs; by apply erase_comp_gone|].
  pose proof (run_tasks_after_thread _ _ _ _ _ _ _ _ Hthread Hidle) as Htasks.
  split.
  - intros Hstd Hterm. rewrite Hstd, Hterm in Htq'.
    destruct (run_tasks w') as [w3|]; [|done].
    destruct Htasks as (Hn & _). exfalso.
    apply (Hn "Couldn't load BIOS"). rewrite Htq'. left.
  - intros Hok.
    assert (∀ title, TaskShowMessage None title ∉ taskQueue w') as Hnone.
    { intros title. rewrite Htq'. destruct (standardsMode (gconfig w1)).
      - intros H. apply list_elem_of_singleton in H. discriminate.
      - destruct Hok as [?|[t Ht]]; [done|]. rewrite Ht.
        intros H. apply elem_of_cons in H as [H|H]; [discriminate|].
        apply list_elem_of_singleton in H. discriminate. }
    destruct (run_tasks w') as [w3|].
    + destruct Htasks as (_ & w2 & self & -> & Hself & _ & Ei & Ec & Ef & Eq).
      destruct (Teardown.delete_Computer_summary comp w2 self Hself)
        as (D1 & D2 & D3 & D4 & _ & D6).
      eexists. split; [reflexivity|]. split; [done|].
      split; [rewrite D3, Ef, Hf; apply elem_of_union_l, elem_of_singleton;
              reflexivity|].
      split; [by rewrite D4|]. split; [by rewrite D2|].
      intros a Ha Hsome. apply D6; [done|]. by rewrite Ei, Hi, lookup_insert_ne.
    + destruct Htasks as (title & H). by apply Hnone in H.
Qed.

(** A boot script that does not compile, after a reboot. *)
Definition rejected : incarnation := mkIncarnation [] [] (BiosLoaded 3 false) 5 [].

Lemma rejected_boot_script_is_fatal_once_witness :
  ∃ w' w3,
    computerThread every_event (fun _ => false) false [reboot_at_once; rejected]
      4%nat desktop_start
    = Some (w', hands_over false w') ∧
    console_reports (appended desktop_start w') = 1%nat ∧
    run_tasks w' = Some w3 ∧ instances w3 !! 4%nat = None.
Proof.
  destruct (rejected_boot_script_is_fatal_once every_event (fun _ => false) false
              [reboot_at_once] rejected [] 4%nat desktop_computer after_reboot.1
              desktop_start after_reboot.2 3 false)
    as (w' & H1 & _ & _ & H4 & _ & _ & _ & _ & _ & _ & H11).
  - reflexivity.
  - reflexivity.
  - vm_compute. reflexivity.
  - vm_compute. lia.
  - reflexivity.
  - reflexivity.
  - left. lia.
  - destruct H11 as (w3 & H5 & H6 & _).
    + right. vm_compute. eauto.
    + exists w', w3. done.
Defined.

End ExecLoop.

(** * The yieldable [load]: [yield_loader], [load_thread]

    This part follows the loader thread from one wait to the next: what
    it makes of the values the reader returns, yields or raises, and what
    it leaves in the context when [lua_load] is over.  It reads the
    context as the loader thread finds it.  How the steps of the loader
    thread and of the computer thread interleave is the subject of
    [Handover] and [Finalizer] below. *)

Module Trampoline.

Section WithLua.

(** Lua functions, Lua numbers and the part of the guest's state that the
    reader function can see and change. *)
Variable fn : Type.
Variable number : Type.
Variable heap : Type.

(** [lua_tolstring] on a number. *)
Variable lua_number2str : number -> string.

Inductive lua_value :=
| LNil
| LBoolean (b : bool)
| LNumber (n : number)
| LString (s : string)
| LFunction (f : fn)
| LUserdata (u : nat)
| LThread (t : nat)
| LTable (t : nat).

(** What [lua_resume] of a coroutine does: it returns 0 with values on the
    coroutine's stack, or LUA_YIELD with the yielded values (and then [k]
    tells what the next [lua_resume] does, given its arguments), or an
    error status with the error value. *)
Inductive resumption :=
| Returns (vals : list lua_value) (h : heap)
| Yields (vals : list lua_value) (k : list lua_value -> resumption)
| Raises (e : lua_value) (h : heap).

(** Calling a function value with no arguments in a fresh coroutine. *)
Variable call : fn -> heap -> resumption.

(** ** The compile primitive

    [lua_load] is Lua's: it pulls the source from the reader piece by
    piece, a byte at a time out of each piece, and stops at the first
    byte that settles the result, or at the end of the input.  [pstep]
    and [peof] are the parser; a result is the status and the value left
    on top of the stack (the function, or the error value). *)
Variable pstate : Type.
Variable pinit : string -> pstate.
Variable pstep : pstate -> Ascii.ascii -> pstate + Z * lua_value.
Variable peof : pstate -> Z * lua_value.

Definition LUA_ERRRUN : Z := 2.

(** The parser eats one piece. *)
Fixpoint feed (p : pstate) (s : string) : pstate + Z * lua_value :=
  match s with
  | EmptyString => inl p
  | String b s' =>
      match pstep p b with
      | inl p' => feed p' s'
      | inr res => inr res
      end
  end.

(** [lua_load] with a reader that never yields and hands out the pieces
    of a list, then NULL.  A piece of size 0 ends the input like NULL. *)
Fixpoint lua_load_pieces (p : pstate) (pieces : list string) : Z * lua_value :=
  match pieces with
  | [] => peof p
  | s :: rest =>
      if decide (s = "") then peof p
      else
        match feed p s with
        | inl p' => lua_load_pieces p' rest
        | inr res => res
        end
  end.

(** The reference of the round trip: the compile primitive, invoked with
    a reader that does not yield and is supplied with the whole source. *)
Definition direct_load (name : string) (source : string) : Z * lua_value :=
  lua_load_pieces (pinit name) [source].

(** ** Stacks *)

(** A Lua stack, bottom first: index 1 is the head. *)
Definition stack : Type := list lua_value.

Definition lua_gettop (s : stack) : Z := Z.of_nat (length s).

(** The top [n] values, and the stack without them. *)
Definition top_values (n : Z) (s : stack) : list lua_value :=
  drop (length s - Z.to_nat n) s.
Definition pop_values (n : Z) (s : stack) : stack :=
  take (length s - Z.to_nat n) s.

(** [lua_xmove(from, to, n)] *)
Definition lua_xmove (from to : stack) (n : Z) : stack * stack :=
  (pop_values n from, to ++ top_values n from).

(** The three queries [yield_loader] makes of the coroutine's stack.
    [lua_isstring] holds of strings and of numbers, and [lua_tolstring]
    converts a number to its string. *)
Definition lua_isnoneornil (s : stack) (idx : nat) : bool :=
  match s !! (idx - 1)%nat with
  | None | Some LNil => true
  | Some _ => false
  end.
Definition lua_isstring (s : stack) (idx : nat) : bool :=
  match s !! (idx - 1)%nat with
  | Some (LString _) | Some (LNumber _) => true
  | _ => false
  end.
Definition lua_tolstring (s : stack) (idx : nat) : option string :=
  match s !! (idx - 1)%nat with
  | Some (LString x) => Some x
  | Some (LNumber n) => Some (lua_number2str n)
  | _ => None
  end.

(** ** The context *)

(** [struct load_ctx], without the thread and its lock: [L] and [coro]
    are the stacks of the two Lua states the fields point to. *)
Record load_ctx := mkCtx {
  status : Z;
  argcount : Z;
  L : stack;
  coro : stack;
  name : string
}.

Definition set_status (v : Z) (c : load_ctx) : load_ctx :=
  mkCtx v (argcount c) (L c) (coro c) (name c).
Definition set_argcount (v : Z) (c : load_ctx) : load_ctx :=
  mkCtx (status c) v (L c) (coro c) (name c).
Definition set_L (v : stack) (c : load_ctx) : load_ctx :=
  mkCtx (status c) (argcount c) v (coro c) (name c).
Definition set_coro (v : stack) (c : load_ctx) : load_ctx :=
  mkCtx (status c) (argcount c) (L c) v (name c).

(** ** [yield_loader] *)

(** How a call of the reader callback ends: with the piece it returns
    (NULL is [None]), with a Lua error thrown through [lua_load], or
    asleep in [ctx->notify.wait]. *)
Inductive reader_result :=
| Piece (s : option string) (h : heap)
| Thrown (e : lua_value) (h : heap)
| Waiting (k : list lua_value -> resumption).

(** From the entry of [yield_loader] to its first [lua_resume]: a new
    thread is pushed on [L] (which is [ctx->coro]), the reader function at
    index 1 is copied into it, [argcount] is zeroed. *)
Definition yield_loader_enter (ctx : load_ctx) : load_ctx :=
  let ctx := set_coro (coro ctx ++ [LThread (length (coro ctx))]) ctx in
  set_argcount 0 ctx.

(** The first [lua_resume(coro, 0)]: the function at index 1 of
    [ctx->coro] is called. *)
Definition resume_reader (ctx : load_ctx) (h : heap) : resumption :=
  match coro ctx with
  | LFunction f :: _ => call f h
  | _ => Raises (LString "attempt to call a non-function value") h
  end.

(** One turn of the [do ... while] loop after [lua_resume] returned. *)
Definition yield_loader_turn (ctx : load_ctx) (r : resumption)
  : load_ctx * reader_result :=
  match r with
  | Returns vals h =>
      if lua_isnoneornil vals 1 then (ctx, Piece None h)
      else if lua_isstring vals 1 then (ctx, Piece (lua_tolstring vals 1) h)
      else (ctx, Thrown (LString "reader function must return a string") h)
  | Yields vals k =>
      let ctx := set_status 1 ctx in
      let ctx := set_argcount (lua_gettop vals) ctx in
      let ctx := set_L (L ctx ++ vals) ctx in
      (ctx, Waiting k)
  | Raises e h =>
      (ctx, Thrown (List.last (coro ctx) LNil) h)
  end.


(** ** [load_thread] *)

(** The loader thread: not yet started, asleep in [yield_loader] (with
    the parser as far as it got and the coroutine waiting to be
    resumed), or finished. *)
Inductive loader :=
| NotStarted
| Asleep (p : pstate) (k : list lua_value -> resumption)
| Finished.

(** [load_thread] after [lua_load] returned [res]: the result is on top of
    [ctx->coro]; a cancelled context is left alone, otherwise the result is
    staged on [ctx->L] and the state becomes 2. *)
Definition load_thread_end (ctx : load_ctx) (res : Z * lua_value) : load_ctx :=
  let ctx := set_coro (coro ctx ++ [res.2]) ctx in
  if decide (status ctx = 3) then ctx
  else
    let ctx :=
      if decide (res.1 = 0) then
        let ctx := set_argcount 1 ctx in
        let '(c, l) := lua_xmove (coro ctx) (L ctx) 1 in
        set_L l (set_coro c ctx)
      else
        let ctx := set_argcount 2 ctx in
        let ctx := set_L (L ctx ++ [LNil]) ctx in
        let '(c, l) := lua_xmove (coro ctx) (L ctx) 1 in
        set_L l (set_coro c ctx) in
    set_status 2 ctx.

(** [lua_load(ctx->coro, yield_loader, ctx, ctx->name)], from the moment a
    [lua_resume] in [yield_loader] has returned [r], until the loader
    thread sleeps or is done.  [h] is the guest's state before that
    resume; [fuel] bounds the further calls of the reader callback, and
    the result is [None] when it runs out. *)
Fixpoint lua_load_from (fuel : nat) (p : pstate) (ctx : load_ctx) (h : heap)
    (r : resumption) : option (load_ctx * heap * loader) :=
  match yield_loader_turn ctx r with
  | (ctx, Waiting k) => Some (ctx, h, Asleep p k)
  | (ctx, Thrown e h) => Some (load_thread_end ctx (LUA_ERRRUN, e), h, Finished)
  | (ctx, Piece None h) => Some (load_thread_end ctx (peof p), h, Finished)
  | (ctx, Piece (Some s) h) =>
      if decide (s = "") then Some (load_thread_end ctx (peof p), h, Finished)
      else
        match feed p s with
        | inr res => Some (load_thread_end ctx res, h, Finished)
        | inl p' =>
            match fuel with
            | O => None
            | S fuel' =>
                let ctx := yield_loader_enter ctx in
                lua_load_from fuel' p' ctx h (resume_reader ctx h)
            end
        end
  end.


(** ** [yieldable_load], where it leaves the wait *)



(** What [load_thread] stages for a result of [lua_load]. *)
Definition staged (res : Z * lua_value) : list lua_value :=
  if decide (res.1 = 0) then [res.2] else [LNil; res.2].

(** ** Readers *)

(** The returned values end the input. *)
Definition ends_input (vals : list lua_value) : Prop :=
  vals = [] ∨ ∃ rest, vals = LNil :: rest.

(** Called again and again from [h], the function returns the pieces one
    by one without yielding, and then the end of the input. *)
Inductive serves (f : fn) : heap -> list string -> Prop :=
| serves_end h vals h' :
    call f h = Returns vals h' -> ends_input vals -> serves f h []
| serves_piece h s rest h' pieces :
    call f h = Returns (LString s :: rest) h' -> s ≠ "" ->
    serves f h' pieces -> serves f h (s :: pieces).

(** The source the pieces make up. *)
Definition source_of (pieces : list string) : string :=
  foldr String.append "" pieces.

(** ** Stacks and staging *)

Lemma top_values_app (b v : stack) : top_values (lua_gettop v) (b ++ v) = v.
Proof.
  unfold top_values, lua_gettop. rewrite Nat2Z.id, length_app.
  replace (length b + length v - length v)%nat with (length b) by lia.
  apply drop_app_length.
Qed.

Lemma pop_values_app (b v : stack) : pop_values (lua_gettop v) (b ++ v) = b.
Proof.
  unfold pop_values, lua_gettop. rewrite Nat2Z.id, length_app.
  replace (length b + length v - length v)%nat with (length b) by lia.
  apply take_app_length.
Qed.

Lemma top_values_one (b : stack) x : top_values 1 (b ++ [x]) = [x].
Proof. exact (top_values_app b [x]). Qed.

Lemma pop_values_one (b : stack) x : pop_values 1 (b ++ [x]) = b.
Proof. exact (pop_values_app b [x]). Qed.

Lemma lua_gettop_app (b v : stack) : lua_gettop (b ++ v) - lua_gettop b = lua_gettop v.
Proof. unfold lua_gettop. rewrite length_app. lia. Qed.

Lemma lua_gettop_app_r (b v : stack) : lua_gettop (b ++ v) - lua_gettop v = lua_gettop b.
Proof. unfold lua_gettop. rewrite length_app. lia. Qed.

Lemma staged_length res : lua_gettop (staged res) = if decide (res.1 = 0) then 1 else 2.
Proof. unfold staged. by destruct (decide (res.1 = 0)). Qed.

(** What [load_thread] leaves behind when the context is not cancelled. *)
Lemma load_thread_end_staged ctx res :
  status ctx ≠ 3 →
  load_thread_end ctx res
  = mkCtx 2 (lua_gettop (staged res)) (L ctx ++ staged res) (coro ctx) (name ctx).
Proof.
  intros Hs. unfold load_thread_end, staged.
  cbn [status set_coro]. destruct (decide (status ctx = 3)) as [|_]; [done|].
  destruct (decide (res.1 = 0)); unfold lua_xmove;
    cbn [coro L set_argcount set_L set_coro set_status status argcount name].
  - rewrite top_values_one, pop_values_one. reflexivity.
  - rewrite top_values_one, pop_values_one, <- app_assoc. reflexivity.
Qed.

(** ** The parser does not see where the pieces end *)

Lemma feed_app p a b :
  feed p (String.append a b)
  = match feed p a with
    | inl p' => feed p' b
    | inr res => inr res
    end.
Proof.
  revert p. induction a as [|c a IH]; intros p; simpl; [done|].
  destruct (pstep p c); [apply IH|done].
Qed.

Lemma append_nonempty a b : a ≠ "" → String.append a b ≠ "".
Proof. destruct a; [done|]. simpl. discriminate. Qed.

Lemma lua_load_pieces_source pieces : ∀ p,
  Forall (fun s => s ≠ "") pieces →
  lua_load_pieces p pieces = lua_load_pieces p [source_of pieces].
Proof.
  induction pieces as [|s rest IH]; intros p Hne; simpl; [done|].
  apply Forall_cons in Hne as [Hs Hrest].
  destruct (decide (s = "")) as [|_]; [done|].
  destruct (decide (String.append s (source_of rest) = "")) as [E|_];
    [by apply append_nonempty in E|].
  rewrite feed_app. destruct (feed p s) as [p'|res]; [|done].
  rewrite (IH p' Hrest). simpl.
  destruct (decide (source_of rest = "")) as [->|_]; [done|].
  by destruct (feed p' (source_of rest)).
Qed.

Lemma serves_nonempty f h pieces :
  serves f h pieces → Forall (fun s => s ≠ "") pieces.
Proof. induction 1; by constructor. Qed.

(** ** The loader thread *)

(** The context after a completed load: state 2, the staged values on top
    of what the calling stack held, and their number in [argcount]. *)
Definition completed (base : stack) (st : list lua_value) (ctx : load_ctx) : Prop :=
  status ctx = 2 ∧ L ctx = base ++ st ∧ argcount ctx = lua_gettop st.

Lemma lua_load_from_eq fuel p ctx h r :
  lua_load_from fuel p ctx h r
  = match yield_loader_turn ctx r with
    | (ctx, Waiting k) => Some (ctx, h, Asleep p k)
    | (ctx, Thrown e h) => Some (load_thread_end ctx (LUA_ERRRUN, e), h, Finished)
    | (ctx, Piece None h) => Some (load_thread_end ctx (peof p), h, Finished)
    | (ctx, Piece (Some s) h) =>
        if decide (s = "") then Some (load_thread_end ctx (peof p), h, Finished)
        else
          match feed p s with
          | inr res => Some (load_thread_end ctx res, h, Finished)
          | inl p' =>
              match fuel with
              | O => None
              | S fuel' =>
                  let ctx := yield_loader_enter ctx in
                  lua_load_from fuel' p' ctx h (resume_reader ctx h)
              end
          end
    end.
Proof. destruct fuel; reflexivity. Qed.

Lemma resume_reader_enter ctx h f tl :
  coro ctx = LFunction f :: tl →
  resume_reader (yield_loader_enter ctx) h = call f h.
Proof. intros E. unfold resume_reader, yield_loader_enter. simpl. by rewrite E. Qed.

Lemma turn_string ctx s rest h :
  yield_loader_turn ctx (Returns (LString s :: rest) h) = (ctx, Piece (Some s) h).
Proof. reflexivity. Qed.

Lemma turn_end ctx vals h :
  ends_input vals → yield_loader_turn ctx (Returns vals h) = (ctx, Piece None h).
Proof. intros [->|[rest ->]]; reflexivity. Qed.

Lemma load_thread_end_completed ctx res :
  status ctx ≠ 3 → completed (L ctx) (staged res) (load_thread_end ctx res).
Proof. intros H. rewrite load_thread_end_staged by done. done. Qed.

(** A reader that serves its pieces without yielding: the loader thread
    runs to the end, and stages what [lua_load] makes of the pieces. *)
Lemma lua_load_serves f h pieces :
  serves f h pieces →
  ∀ fuel p ctx tl,
    coro ctx = LFunction f :: tl → status ctx ≠ 3 →
    (length pieces ≤ fuel)%nat →
    ∃ ctx' h',
      lua_load_from fuel p (yield_loader_enter ctx) h
        (resume_reader (yield_loader_enter ctx) h)
      = Some (ctx', h', Finished) ∧
      completed (L ctx) (staged (lua_load_pieces p pieces)) ctx'.
Proof.
  induction 1 as [h vals h' Hcall Hend | h s rest h' pieces Hcall Hs Hserves IH];
    intros fuel p ctx tl Hcoro Hst Hfuel;
    rewrite (resume_reader_enter _ _ _ _ Hcoro), Hcall, lua_load_from_eq.
  - rewrite (turn_end _ _ _ Hend).
    eexists _, _. split; [reflexivity|].
    by apply (load_thread_end_completed (yield_loader_enter ctx)).
  - rewrite turn_string. destruct (decide (s = "")) as [|_]; [done|].
    cbn [lua_load_pieces]. destruct (decide (s = "")) as [|_]; [done|].
    destruct (feed p s) as [p'|res].
    + destruct fuel as [|fuel']; [simpl in Hfuel; lia|].
      cbv zeta.
      destruct (IH fuel' p' (yield_loader_enter ctx) (tl ++ [LThread (length (coro ctx))]))
        as (ctx' & h'' & Hrun & Hdone).
      * simpl. by rewrite Hcoro.
      * done.
      * simpl in Hfuel. lia.
      * eexists _, _. split; [exact Hrun|]. exact Hdone.
    + eexists _, _. split; [reflexivity|].
      by apply (load_thread_end_completed (yield_loader_enter ctx)).
Qed.


(** The sentence of C3 for one first returned value: unless it is nil or a
    string, the reader call ends in the type error. *)
Definition type_error_unless_string (v : lua_value) : Prop :=
  v ≠ LNil → (∀ s, v ≠ LString s) →
  ∀ ctx rest h,
    yield_loader_turn ctx (Returns (v :: rest) h)
    = (ctx, Thrown (LString "reader function must return a string") h).

(** The type of a value, as [lua_type] tells it apart. *)
Definition is_nil (v : lua_value) : bool :=
  match v with LNil => true | _ => false end.
Definition is_string (v : lua_value) : bool :=
  match v with LString _ => true | _ => false end.
Definition is_number (v : lua_value) : bool :=
  match v with LNumber _ => true | _ => false end.



(** C3, as the code has it: what the first value returned by the reader
    coroutine decides.  No value or nil ends the input.  A string is
    handed to the parser.  So is a number, converted to its string.  Any
    other value throws the error "reader function must return a string",
    and the load then completes with nil and that message staged. *)
Theorem reader_return_decides ctx vals h :
  (ends_input vals →
   yield_loader_turn ctx (Returns vals h) = (ctx, Piece None h)) ∧
  (∀ s rest, vals = LString s :: rest →
   yield_loader_turn ctx (Returns vals h) = (ctx, Piece (Some s) h)) ∧
  (∀ n rest, vals = LNumber n :: rest →
   yield_loader_turn ctx (Returns vals h)
   = (ctx, Piece (Some (lua_number2str n)) h)) ∧
  (∀ v rest, vals = v :: rest →
   is_nil v = false → is_string v = false → is_number v = false →
   yield_loader_turn ctx (Returns vals h)
   = (ctx, Thrown (LString "reader function must return a string") h) ∧
   ∀ fuel p h0,
     status ctx ≠ 3 →
     ∃ ctx',
       lua_load_from fuel p ctx h0 (Returns vals h) = Some (ctx', h, Finished) ∧
       completed (L ctx)
         [LNil; LString "reader function must return a string"] ctx').
Proof.
  split; [apply turn_end|].
  split; [by intros s rest ->|].
  split; [by intros n rest ->|].
  intros v rest -> Hnil Hstr Hnum.
  assert (yield_loader_turn ctx (Returns (v :: rest) h)
          = (ctx, Thrown (LString "reader function must return a string") h)) as Hturn
    by (destruct v; try discriminate; reflexivity).
  split; [exact Hturn|].
  intros fuel p h0 Hst. rewrite lua_load_from_eq, Hturn.
  eexists. split; [reflexivity|].
  by apply (load_thread_end_completed ctx
              (LUA_ERRRUN, LString "reader function must return a string")).
Qed.

End WithLua.

Arguments LNil {fn number}.
Arguments LBoolean {fn number} b.
Arguments LNumber {fn number} n.
Arguments LString {fn number} s.
Arguments LFunction {fn number} f.
Arguments LUserdata {fn number} u.
Arguments LThread {fn number} t.
Arguments LTable {fn number} t.
Arguments Returns {fn number heap} vals h.
Arguments Yields {fn number heap} vals k.
Arguments Raises {fn number heap} e h.
Arguments mkCtx {fn number} status argcount L coro name.

(** ** A small guest *)


(** A parser that counts the bytes and rejects an exclamation mark. *)
Definition toy_pstep (p : nat) (b : Ascii.ascii) : nat + Z * lua_value nat Z :=
  if Ascii.eqb b (Ascii.ascii_of_nat 33)
  then inr (3, LString "unexpected symbol")
  else inl (S p).
Definition toy_peof (p : nat) : Z * lua_value nat Z := (0, LFunction (100 + p)%nat).
Definition toy_pinit (_ : string) : nat := O.
Definition toy_number2str (n : Z) : string := if decide (n = 7) then "7" else "?".

(** The context once the computer thread has gone through the first
    invocation of [yieldable_load] and the loader thread has entered
    [yield_loader] for the first time. *)
Definition waiting_ctx : load_ctx nat Z :=
  mkCtx 0 0 [LFunction O; LUserdata 0; LThread 0] [LFunction O; LThread 1] "=(load)".






(** C3 as the specification states it fails for a number: it is no string and not
    nil, and the reader call ends with a piece for the parser, not with
    the type error. *)
Lemma number_is_fed_to_the_parser :
  yield_loader_turn nat Z nat toy_number2str waiting_ctx (Returns [LNumber 7] O)
  = (waiting_ctx, Piece nat Z nat (Some "7") O) ∧
  ¬ type_error_unless_string nat Z nat toy_number2str (LNumber 7).
Proof.
  split; [reflexivity|].
  intros H.
  specialize (H ltac:(discriminate) ltac:(discriminate) waiting_ctx [] O).
  discriminate H.
Qed.

End Trampoline.

(** * The hand-over: [yieldable_load] against the loader thread

    The computer thread in [yieldable_load] and the loader thread in
    [load_thread] and [yield_loader], interleaved step by step.  Only the
    control is followed here: where each thread is, the state field, the
    lock, which fields of the context have been assigned, and how often
    the reader will still yield.  A sleeper on the condition variable
    wakes when it is notified, and may wake without being notified. *)

Module Handover.

Inductive tid := Computer | Loader.

(** Where the computer thread is in [yieldable_load]. *)
Inductive cpc :=
| C_spawn        (* ctx->thread = std::thread(load_thread, ctx); *)
| C_init_status  (* ctx->status = 0; *)
| C_init_L       (* ctx->name = name; ctx->L = L; *)
| C_init_coro    (* ctx->coro = lua_newthread(L); the reader is copied to it *)
| C_test         (* while (ctx->status != 2) *)
| C_lock         (* std::unique_lock<std::mutex> lock(ctx->lock); *)
| C_sleep        (* ctx->notify.wait(lock): the lock is released, the thread sleeps *)
| C_wait         (* asleep in ctx->notify.wait(lock) *)
| C_relock       (* woken: wait() takes the lock again before it returns *)
| C_woken        (* if (ctx->status == 1) ... else if (ctx->status == 3) ... *)
| C_yielded      (* return lua_vyield(L, argcount, ctx): the guest runs *)
| C_resume_lock  (* the guest resumes the call: std::unique_lock lock(ctx->lock); *)
| C_resume_set   (* ctx->status = 0; ...; ctx->notify.notify_all(); end of block *)
| C_returned.    (* return ctx->argcount;  or  return 0; *)

(** Where the loader thread is in [load_thread] and [yield_loader]. *)
Inductive ppc :=
| P_none         (* the thread has not been started *)
| P_start        (* lua_load(ctx->coro, yield_loader, ctx, ctx->name) *)
| P_running      (* lua_resume(coro, ctx->argcount): the reader runs *)
| P_yield_lock   (* std::unique_lock<std::mutex> lock(ctx->lock); *)
| P_yield_set    (* ctx->status = 1; ...; ctx->notify.notify_all(); wait *)
| P_wait         (* asleep in ctx->notify.wait(lock) *)
| P_relock       (* woken: wait() takes the lock again before it returns *)
| P_test         (* while (ctx->status == 1) *)
| P_cancelled    (* if (ctx->status == 3) luaL_error(L, ""); *)
| P_resume       (* lua_xmove; ctx->status = 0; end of the block *)
| P_returned     (* lua_load returned: if (ctx->status == 3) return; *)
| P_stage_lock   (* std::unique_lock<std::mutex> lock(ctx->lock); *)
| P_stage        (* staging; ctx->status = 2; notify_all; end of function *)
| P_done
| P_wild.        (* lua_load was handed a ctx->coro that had not been assigned *)

(** [status] is [ctx->status]; [L_set] and [coro_set] tell whether
    [ctx->name] and [ctx->L], and [ctx->coro], have been assigned;
    [yields_left] is the number of times the reader will still yield
    before the load is through, and [suspensions] the number of times the
    call has yielded to the guest. *)
Record state := mkState {
  c : cpc;
  p : ppc;
  status : Z;
  L_set : bool;
  coro_set : bool;
  mutex : option tid;
  yields_left : nat;
  suspensions : nat
}.

Definition set_c (v : cpc) (s : state) : state :=
  mkState v (p s) (status s) (L_set s) (coro_set s) (mutex s) (yields_left s)
    (suspensions s).
Definition set_p (v : ppc) (s : state) : state :=
  mkState (c s) v (status s) (L_set s) (coro_set s) (mutex s) (yields_left s)
    (suspensions s).
Definition set_status (v : Z) (s : state) : state :=
  mkState (c s) (p s) v (L_set s) (coro_set s) (mutex s) (yields_left s)
    (suspensions s).
Definition set_L_set (v : bool) (s : state) : state :=
  mkState (c s) (p s) (status s) v (coro_set s) (mutex s) (yields_left s)
    (suspensions s).
Definition set_coro_set (v : bool) (s : state) : state :=
  mkState (c s) (p s) (status s) (L_set s) v (mutex s) (yields_left s)
    (suspensions s).
Definition set_mutex (v : option tid) (s : state) : state :=
  mkState (c s) (p s) (status s) (L_set s) (coro_set s) v (yields_left s)
    (suspensions s).
Definition set_yields_left (v : nat) (s : state) : state :=
  mkState (c s) (p s) (status s) (L_set s) (coro_set s) (mutex s) v
    (suspensions s).
Definition set_suspensions (v : nat) (s : state) : state :=
  mkState (c s) (p s) (status s) (L_set s) (coro_set s) (mutex s) (yields_left s)
    v.

(** [ctx->notify.notify_all()], called by the loader thread and by the
    computer thread: a sleeper is woken; when nobody sleeps nothing
    happens, and nothing is kept for a later wait. *)
Definition notify_computer (s : state) : state :=
  match c s with
  | C_wait => set_c C_relock s
  | _ => s
  end.
Definition notify_loader (s : state) : state :=
  match p s with
  | P_wait => set_p P_relock s
  | _ => s
  end.

(** The steps of the computer thread: the first invocation of
    [yieldable_load] from the start of the loader thread on, the loop, and
    the later invocations. *)
Definition computer_steps (s : state) : list state :=
  match c s with
  | C_spawn => [set_c C_init_status (set_p P_start s)]
  | C_init_status => [set_c C_init_L (set_status 0 s)]
  | C_init_L => [set_c C_init_coro (set_L_set true s)]
  | C_init_coro => [set_c C_test (set_coro_set true s)]
  | C_test => [set_c (if decide (status s = 2) then C_returned else C_lock) s]
  | C_lock =>
      match mutex s with
      | None => [set_c C_sleep (set_mutex (Some Computer) s)]
      | Some _ => []
      end
  | C_sleep => [set_c C_wait (set_mutex None s)]
  | C_wait => []
  | C_relock =>
      match mutex s with
      | None => [set_c C_woken (set_mutex (Some Computer) s)]
      | Some _ => []
      end
  | C_woken =>
      if decide (status s = 1)
      then [set_c C_yielded
              (set_mutex None (set_suspensions (S (suspensions s)) s))]
      else if decide (status s = 3)
      then [set_c C_returned (set_mutex None s)]
      else [set_c C_test (set_mutex None s)]
  | C_yielded => [set_c C_resume_lock s]
  | C_resume_lock =>
      match mutex s with
      | None => [set_c C_resume_set (set_mutex (Some Computer) s)]
      | Some _ => []
      end
  | C_resume_set => [set_c C_test (set_mutex None (notify_loader (set_status 0 s)))]
  | C_returned => []
  end.

(** The steps of the loader thread: [load_thread], and the yield branch
    of [yield_loader]. *)
Definition loader_steps (s : state) : list state :=
  match p s with
  | P_none => []
  | P_start => [set_p (if coro_set s then P_running else P_wild) s]
  | P_running =>
      match yields_left s with
      | O => [set_p P_returned s]
      | S n => [set_p P_yield_lock (set_yields_left n s)]
      end
  | P_yield_lock =>
      match mutex s with
      | None => [set_p P_yield_set (set_mutex (Some Loader) s)]
      | Some _ => []
      end
  | P_yield_set => [set_p P_wait (set_mutex None (notify_computer (set_status 1 s)))]
  | P_wait => []
  | P_relock =>
      match mutex s with
      | None => [set_p P_test (set_mutex (Some Loader) s)]
      | Some _ => []
      end
  | P_test =>
      if decide (status s = 1)
      then [set_p P_wait (set_mutex None s)]
      else [set_p P_cancelled s]
  | P_cancelled =>
      if decide (status s = 3) then [set_p P_returned s] else [set_p P_resume s]
  | P_resume => [set_p P_running (set_mutex None (set_status 0 s))]
  | P_returned =>
      if decide (status s = 3) then [set_p P_done s] else [set_p P_stage_lock s]
  | P_stage_lock =>
      match mutex s with
      | None => [set_p P_stage (set_mutex (Some Loader) s)]
      | Some _ => []
      end
  | P_stage => [set_p P_done (set_mutex None (notify_computer (set_status 2 s)))]
  | P_done => []
  | P_wild => []
  end.

Definition steps (s : state) : list state := computer_steps s ++ loader_steps s.

(** A spurious wake-up of a sleeper. *)
Definition wakes (s : state) : list state :=
  match c s with C_wait => [set_c C_relock s] | _ => [] end ++
  match p s with P_wait => [set_p P_relock s] | _ => [] end.

(** One step of either thread. *)
Definition ordinary (s s' : state) : Prop := s' ∈ steps s.

(** One step of either thread, or a spurious wake-up. *)
Definition step (s s' : state) : Prop := s' ∈ steps s ++ wakes s.

(** The guest calls [load] with a reader that will yield [n] times:
    [yieldable_load] is about to start the loader thread.  The context is
    a copy of a [new load_ctx], and [junk] is what its state field holds. *)
Definition entry (junk : Z) (n : nat) : state :=
  mkState C_spawn P_none junk false false None n 0.

(** The computer thread sleeps and neither thread has a step: only a
    spurious wake-up can end the wait. *)
Definition hung (s : state) : Prop := c s = C_wait ∧ steps s = [].

(** The call has returned after the load was completed. *)
Definition returned (s : state) : Prop :=
  c s = C_returned ∧ p s = P_done ∧ status s = 2.

(** [l] is a run from [s], step by step, without spurious wake-ups. *)
Fixpoint follows (s : state) (l : list state) : Prop :=
  match l with
  | [] => True
  | s' :: l' => s' ∈ steps s ∧ follows s' l'
  end.

(** Where the run [l] from [s] ends. *)
Fixpoint run_end (s : state) (l : list state) : state :=
  match l with
  | [] => s
  | s' :: l' => run_end s' l'
  end.

Lemma follows_ordinary s l : follows s l → rtc ordinary s (run_end s l).
Proof.
  revert s. induction l as [|s' l IH]; intros s; [by intros _|].
  intros [H1 H2]. eapply rtc_l; [exact H1|]. exact (IH s' H2).
Qed.

Ltac run_steps :=
  repeat split;
  vm_compute;
  first [ apply list_elem_of_here
        | apply list_elem_of_further, list_elem_of_here ].

(** ** The loader thread starts too early *)

(** The loader thread is scheduled as soon as it exists. *)
Definition early_start (junk : Z) (n : nat) : list state :=
  [mkState C_init_status P_start junk false false None n 0;
   mkState C_init_status P_wild junk false false None n 0].

(** ** The notification comes too early *)

(** The computer thread assigns the fields and finds the state different
    from 2. *)
Definition computer_enters_loop (n : nat) : list state :=
  [mkState C_init_L P_start 0 false false None n 0;
   mkState C_init_coro P_start 0 true false None n 0;
   mkState C_test P_start 0 true true None n 0;
   mkState C_lock P_start 0 true true None n 0].

(** Then the loader thread runs a reader that does not yield, completes
    the load and notifies; the computer thread goes to sleep after that. *)
Definition load_completes_unheard (junk : Z) : list state :=
  mkState C_init_status P_start junk false false None 0 0 ::
  computer_enters_loop 0 ++
  [mkState C_lock P_running 0 true true None 0 0;
   mkState C_lock P_returned 0 true true None 0 0;
   mkState C_lock P_stage_lock 0 true true None 0 0;
   mkState C_lock P_stage 0 true true (Some Loader) 0 0;
   mkState C_lock P_done 2 true true None 0 0;
   mkState C_sleep P_done 2 true true (Some Computer) 0 0;
   mkState C_wait P_done 2 true true None 0 0].

(** Or the loader thread runs a reader that yields, notifies and goes to
    sleep; the computer thread goes to sleep after that. *)
Definition yield_goes_unheard (junk : Z) (n : nat) : list state :=
  mkState C_init_status P_start junk false false None (S n) 0 ::
  computer_enters_loop (S n) ++
  [mkState C_lock P_running 0 true true None (S n) 0;
   mkState C_lock P_yield_lock 0 true true None n 0;
   mkState C_lock P_yield_set 0 true true (Some Loader) n 0;
   mkState C_lock P_wait 1 true true None n 0;
   mkState C_sleep P_wait 1 true true (Some Computer) n 0;
   mkState C_wait P_wait 1 true true None n 0].

(** ** The schedule the code is written for *)

(** The computer thread is asleep before the loader thread takes its
    first step. *)
Definition computer_sleeps_first (junk : Z) (n : nat) : list state :=
  mkState C_init_status P_start junk false false None n 0 ::
  computer_enters_loop n ++
  [mkState C_sleep P_start 0 true true (Some Computer) n 0;
   mkState C_wait P_start 0 true true None n 0;
   mkState C_wait P_running 0 true true None n 0].

(** The reader yields, the call yields to the guest, the guest resumes
    it, the computer thread goes to sleep again and the reader runs on. *)
Definition one_suspension (n k : nat) : list state :=
  [mkState C_wait P_yield_lock 0 true true None n k;
   mkState C_wait P_yield_set 0 true true (Some Loader) n k;
   mkState C_relock P_wait 1 true true None n k;
   mkState C_woken P_wait 1 true true (Some Computer) n k;
   mkState C_yielded P_wait 1 true true None n (S k);
   mkState C_resume_lock P_wait 1 true true None n (S k);
   mkState C_resume_set P_wait 1 true true (Some Computer) n (S k);
   mkState C_test P_relock 0 true true None n (S k);
   mkState C_lock P_relock 0 true true None n (S k);
   mkState C_sleep P_relock 0 true true (Some Computer) n (S k);
   mkState C_wait P_relock 0 true true None n (S k);
   mkState C_wait P_test 0 true true (Some Loader) n (S k);
   mkState C_wait P_cancelled 0 true true (Some Loader) n (S k);
   mkState C_wait P_resume 0 true true (Some Loader) n (S k);
   mkState C_wait P_running 0 true true None n (S k)].

(** The reader has no yield left: the load completes, the computer thread
    is woken and returns. *)
Definition load_completes (k : nat) : list state :=
  [mkState C_wait P_returned 0 true true None 0 k;
   mkState C_wait P_stage_lock 0 true true None 0 k;
   mkState C_wait P_stage 0 true true (Some Loader) 0 k;
   mkState C_relock P_done 2 true true None 0 k;
   mkState C_woken P_done 2 true true (Some Computer) 0 k;
   mkState C_test P_done 2 true true None 0 k;
   mkState C_returned P_done 2 true true None 0 k].

Lemma early_start_follows junk n : follows (entry junk n) (early_start junk n).
Proof. run_steps. Qed.

Lemma load_completes_unheard_follows junk :
  follows (entry junk 0) (load_completes_unheard junk).
Proof. run_steps. Qed.

Lemma yield_goes_unheard_follows junk n :
  follows (entry junk (S n)) (yield_goes_unheard junk n).
Proof. run_steps. Qed.

Lemma computer_sleeps_first_follows junk n :
  follows (entry junk n) (computer_sleeps_first junk n).
Proof. run_steps. Qed.

Lemma one_suspension_follows n k :
  follows (mkState C_wait P_running 0 true true None (S n) k) (one_suspension n k).
Proof. run_steps. Qed.

Lemma load_completes_follows k :
  follows (mkState C_wait P_running 0 true true None 0 k) (load_completes k).
Proof. run_steps. Qed.

(** On that schedule the reader's [n] yields become [n] suspensions of
    the call, which then returns. *)
Lemma suspensions_then_return n : ∀ k,
  rtc ordinary (mkState C_wait P_running 0 true true None n k)
    (mkState C_returned P_done 2 true true None 0 (n + k)).
Proof.
  induction n as [|n IH]; intros k.
  - exact (follows_ordinary _ _ (load_completes_follows k)).
  - etrans; [exact (follows_ordinary _ _ (one_suspension_follows n k))|].
    cbn [run_end one_suspension].
    replace (S n + k)%nat with (n + S k)%nat by lia. apply IH.
Qed.

(** C1 fails on every reader.  The guest calls [load] with a reader that
    will yield [n] times; no thread ever wakes up spuriously.  (1) When the
    loader thread takes its first step before the computer thread has
    assigned [ctx->coro], [lua_load] is handed a pointer that has not
    been assigned.  (2) When all fields are assigned in time, but the
    loader thread gets to its first notification - of the reader's first
    yield, or of the completed load - after the computer thread has
    tested the state and before it waits, the notification is lost: the
    computer thread goes to sleep with no suspension made and the load
    not returned, the loader thread sleeps too or has ended, and neither
    thread has a step left.  (3) There is a schedule on which the call
    suspends [n] times and returns after the load has completed. *)
Theorem load_hangs_or_runs_wild (junk : Z) (n : nat) :
  (∃ s, rtc ordinary (entry junk n) s ∧ p s = P_wild ∧ coro_set s = false) ∧
  (∃ s, rtc ordinary (entry junk n) s ∧ hung s ∧
        coro_set s = true ∧ L_set s = true ∧ mutex s = None ∧
        suspensions s = 0%nat ∧ ¬ returned s ∧
        p s = match n with O => P_done | S _ => P_wait end ∧
        status s = match n with O => 2 | S _ => 1 end) ∧
  (∃ s, rtc ordinary (entry junk n) s ∧ returned s ∧ suspensions s = n).
Proof.
  split; [|split].
  - eexists. split; [exact (follows_ordinary _ _ (early_start_follows junk n))|].
    done.
  - destruct n as [|n].
    + eexists. split; [exact (follows_ordinary _ _ (load_completes_unheard_follows junk))|].
      repeat split; try done. intros [H _]. discriminate.
    + eexists. split; [exact (follows_ordinary _ _ (yield_goes_unheard_follows junk n))|].
      repeat split; try done. intros [H _]. discriminate.
  - eexists. split.
    + etrans; [exact (follows_ordinary _ _ (computer_sleeps_first_follows junk n))|].
      cbn [run_end computer_sleeps_first computer_enters_loop app].
      apply suspensions_then_return.
    + repeat split. simpl. lia.
Qed.

(** ** What holds on every schedule *)












End Handover.

(** * Finalization: [load_ctx_gc] against the loader thread

    Here the two threads are interleaved step by step.  The collector is
    the thread that runs the [__gc] metamethod of the context.  A sleeper
    on the condition variable wakes when it is notified, and may wake
    without being notified, as [std::condition_variable::wait] allows. *)

Module Finalizer.

Inductive tid := Collector | Loader.

(** Where the collector is in [load_ctx_gc]. *)
Inductive gpc :=
| G_joinable        (* if (ctx->thread.joinable()) *)
| G_lock            (* std::unique_lock<std::mutex> lock(ctx->lock); *)
| G_set             (* ctx->status = 3; *)
| G_notify          (* ctx->notify.notify_all(); *)
| G_unlock          (* the end of the block *)
| G_join            (* ctx->thread.join(); *)
| G_destroy_thread  (* ctx->thread.~thread(); *)
| G_destroy_lock    (* ctx->lock.~mutex(); *)
| G_destroy_notify  (* ctx->notify.~condition_variable(); *)
| G_done.

(** Where the loader thread is in [yield_loader] and [load_thread]. *)
Inductive ppc :=
| P_wait        (* asleep in ctx->notify.wait(lock); the lock is released *)
| P_relock      (* notified: wait() takes the lock again before it returns *)
| P_test        (* while (ctx->status == 1) *)
| P_cancelled   (* if (ctx->status == 3) luaL_error(L, ""); *)
| P_resume      (* lua_xmove; ctx->status = 0; end of the block *)
| P_running     (* lua_resume(coro, ctx->argcount): the reader runs *)
| P_yield_lock  (* std::unique_lock<std::mutex> lock(ctx->lock); *)
| P_yield_set   (* ctx->status = 1; ...; ctx->notify.notify_all(); wait *)
| P_returned    (* lua_load returned: if (ctx->status == 3) return; *)
| P_stage_lock  (* std::unique_lock<std::mutex> lock(ctx->lock); *)
| P_stage       (* staging; ctx->status = 2; notify_all; end of function *)
| P_done.

(** The shared state.  [unwinds] tells how Lua leaves [yield_loader] on
    [luaL_error]: with a C++ exception, which runs the destructor of the
    [unique_lock], or with [longjmp], which does not. *)
Record state := mkState {
  g : gpc;
  p : ppc;
  status : Z;
  mutex : option tid;
  joined : bool;
  thread_destroyed : bool;
  lock_destroyed : bool;
  notify_destroyed : bool;
  unwinds : bool
}.

Global Instance tid_eq_dec : EqDecision tid.
Proof. solve_decision. Defined.
Global Instance gpc_eq_dec : EqDecision gpc.
Proof. solve_decision. Defined.
Global Instance ppc_eq_dec : EqDecision ppc.
Proof. solve_decision. Defined.
Global Instance state_eq_dec : EqDecision state.
Proof. solve_decision. Defined.

Definition set_g (v : gpc) (s : state) : state :=
  mkState v (p s) (status s) (mutex s) (joined s) (thread_destroyed s)
    (lock_destroyed s) (notify_destroyed s) (unwinds s).
Definition set_p (v : ppc) (s : state) : state :=
  mkState (g s) v (status s) (mutex s) (joined s) (thread_destroyed s)
    (lock_destroyed s) (notify_destroyed s) (unwinds s).
Definition set_status (v : Z) (s : state) : state :=
  mkState (g s) (p s) v (mutex s) (joined s) (thread_destroyed s)
    (lock_destroyed s) (notify_destroyed s) (unwinds s).
Definition set_mutex (v : option tid) (s : state) : state :=
  mkState (g s) (p s) (status s) v (joined s) (thread_destroyed s)
    (lock_destroyed s) (notify_destroyed s) (unwinds s).

(** The steps the collector can take: [load_ctx_gc], line by line. *)
Definition collector_steps (s : state) : list state :=
  match g s with
  | G_joinable =>
      [set_g (if joined s then G_destroy_thread else G_lock) s]
  | G_lock =>
      match mutex s with
      | None => [set_g G_set (set_mutex (Some Collector) s)]
      | Some _ => []
      end
  | G_set => [set_g G_notify (set_status 3 s)]
  | G_notify =>
      [set_g G_unlock (if decide (p s = P_wait) then set_p P_relock s else s)]
  | G_unlock => [set_g G_join (set_mutex None s)]
  | G_join =>
      if decide (p s = P_done)
      then [mkState G_destroy_thread (p s) (status s) (mutex s) true
              (thread_destroyed s) (lock_destroyed s) (notify_destroyed s) (unwinds s)]
      else []
  | G_destroy_thread =>
      [mkState G_destroy_lock (p s) (status s) (mutex s) (joined s)
         true (lock_destroyed s) (notify_destroyed s) (unwinds s)]
  | G_destroy_lock =>
      [mkState G_destroy_notify (p s) (status s) (mutex s) (joined s)
         (thread_destroyed s) true (notify_destroyed s) (unwinds s)]
  | G_destroy_notify =>
      [mkState G_done (p s) (status s) (mutex s) (joined s)
         (thread_destroyed s) (lock_destroyed s) true (unwinds s)]
  | G_done => []
  end.

(** The steps the loader thread can take: the yield branch of
    [yield_loader], and [load_thread] after [lua_load].  Asleep in the
    wait it takes none of its own: a notification ([G_notify]) or a
    spurious wake-up ([wakes]) ends the wait. *)
Definition loader_steps (s : state) : list state :=
  match p s with
  | P_wait => []
  | P_relock =>
      match mutex s with
      | None => [set_p P_test (set_mutex (Some Loader) s)]
      | Some _ => []
      end
  | P_test =>
      if decide (status s = 1)
      then [set_p P_wait (set_mutex None s)]
      else [set_p P_cancelled s]
  | P_cancelled =>
      if decide (status s = 3)
      then [set_p P_returned (if unwinds s then set_mutex None s else s)]
      else [set_p P_resume s]
  | P_resume => [set_p P_running (set_mutex None (set_status 0 s))]
  | P_running => [set_p P_yield_lock s; set_p P_returned s]
  | P_yield_lock =>
      match mutex s with
      | None => [set_p P_yield_set (set_mutex (Some Loader) s)]
      | Some _ => []
      end
  | P_yield_set => [set_p P_wait (set_mutex None (set_status 1 s))]
  | P_returned =>
      if decide (status s = 3) then [set_p P_done s] else [set_p P_stage_lock s]
  | P_stage_lock =>
      match mutex s with
      | None => [set_p P_stage (set_mutex (Some Loader) s)]
      | Some _ => []
      end
  | P_stage => [set_p P_done (set_mutex None (set_status 2 s))]
  | P_done => []
  end.

Definition steps (s : state) : list state := collector_steps s ++ loader_steps s.

(** A spurious wake-up: [ctx->notify.wait(lock)] returns though nobody
    notified. *)
Definition wakes (s : state) : list state :=
  match p s with
  | P_wait => [set_p P_relock s]
  | _ => []
  end.

Definition moves (s : state) : list state := steps s ++ wakes s.

(** One step of either thread, or a spurious wake-up. *)
Definition step (s s' : state) : Prop := s' ∈ moves s.

(** A run with [n] steps of the threads and [k] spurious wake-ups. *)
Inductive run : nat → nat → state → state → Prop :=
| run_nil s : run 0 0 s s
| run_step n k s s' s'' : s' ∈ steps s → run n k s' s'' → run (S n) k s s''
| run_wake n k s s' s'' : s' ∈ wakes s → run n k s' s'' → run n (S k) s s''.

(** Finalization begins: the collector enters [load_ctx_gc], nothing is
    joined or destroyed, the lock is free, and the loader thread is asleep
    in the hand-over (state 1) or has finished its load (state 2). *)
Definition begins (s : state) : Prop :=
  g s = G_joinable ∧ mutex s = None ∧ joined s = false ∧
  thread_destroyed s = false ∧ lock_destroyed s = false ∧
  notify_destroyed s = false ∧
  ((p s = P_wait ∧ status s = 1) ∨ (p s = P_done ∧ status s = 2)).

(** Both threads are through. *)
Definition finished (s : state) : Prop :=
  g s = G_done ∧ p s = P_done.

(** The loader thread has ended by the time anything of the context is
    destroyed, and it has been joined by then. *)
Definition outlived (s : state) : Prop :=
  (thread_destroyed s = true ∨ lock_destroyed s = true ∨ notify_destroyed s = true) ∧
  (p s ≠ P_done ∨ joined s = false).

(** The collector holds the lock while it sets the state and notifies. *)
Definition sets_under_lock (s : state) : Prop :=
  (g s = G_set ∨ g s = G_notify ∨ g s = G_unlock) → mutex s = Some Collector.

(** The lock at the end.  A loader thread that leaves [yield_loader] by
    [luaL_error] releases the lock it holds only when Lua unwinds with an
    exception; with [longjmp] the lock stays taken by the thread that has
    ended, and is destroyed so. *)
Definition lock_at_the_end (init s : state) : Prop :=
  finished s →
  mutex s = if unwinds s || bool_decide (p init = P_done) then None else Some Loader.

(** ** The reachable states, by enumeration *)

(** The four states in which finalization can begin. *)
Definition beginnings : list state :=
  [mkState G_joinable P_wait 1 None false false false false true;
   mkState G_joinable P_wait 1 None false false false false false;
   mkState G_joinable P_done 2 None false false false false true;
   mkState G_joinable P_done 2 None false false false false false].

(** [n] rounds of adding the successors of what has been seen. *)
Fixpoint explore (n : nat) (seen : list state) : list state :=
  match n with
  | O => seen
  | S n' => explore n' (remove_dups (seen ++ flat_map moves seen))
  end.

Definition reach : list state := Eval vm_compute in explore 20 beginnings.


(** Every successor of a state of [l] is in [l]. *)
Definition closed (l : list state) : Prop :=
  Forall (fun s => Forall (fun s' => s' ∈ l) (moves s)) l.

(** A measure of the work left: the statements the collector still has to
    run, plus the steps the loader thread needs to leave.  A loader thread
    that woke up in state 1 has to go back to sleep first. *)
Definition rank (s : state) : nat :=
  match g s with
  | G_joinable => 9 | G_lock => 8 | G_set => 7 | G_notify => 6 | G_unlock => 5
  | G_join => 4 | G_destroy_thread => 3 | G_destroy_lock => 2
  | G_destroy_notify => 1 | G_done => 0
  end +
  match p s with
  | P_wait => 5
  | P_relock => if decide (status s = 1) then 7 else 4
  | P_test => if decide (status s = 1) then 6 else 3
  | P_cancelled => 2
  | P_returned => 1 | P_done => 0
  | P_resume | P_running | P_yield_lock | P_yield_set | P_stage_lock | P_stage => 12
  end.

(** What holds of every reachable state. *)
Definition sound (s : state) : Prop :=
  ¬ outlived s ∧ sets_under_lock s ∧
  (finished s ∨ steps s ≠ []) ∧
  Forall (fun s' => (rank s' < rank s)%nat) (steps s) ∧
  Forall (fun s' => (rank s' ≤ rank s + 2)%nat) (wakes s) ∧
  (rank s ≤ 16)%nat ∧
  (finished s →
   joined s = true ∧ thread_destroyed s = true ∧ lock_destroyed s = true ∧
   notify_destroyed s = true ∧ status s = 3).

Global Instance outlived_dec s : Decision (outlived s).
Proof. unfold outlived. apply _. Defined.
Global Instance sets_under_lock_dec s : Decision (sets_under_lock s).
Proof. unfold sets_under_lock. apply _. Defined.
Global Instance finished_dec s : Decision (finished s).
Proof. unfold finished. apply _. Defined.
Global Instance lock_at_the_end_dec init s : Decision (lock_at_the_end init s).
Proof. unfold lock_at_the_end. apply _. Defined.
Global Instance sound_dec s : Decision (sound s).
Proof. unfold sound. apply _. Defined.
Global Instance closed_dec l : Decision (closed l).
Proof. unfold closed. apply _. Defined.

Lemma begins_beginnings s : begins s → s ∈ beginnings.
Proof.
  destruct s as [g0 p0 st m j td ld nd u].
  unfold begins. simpl. intros (-> & -> & -> & -> & -> & -> & [[-> ->]|[-> ->]]);
    destruct u; unfold beginnings; set_solver.
Qed.

Lemma beginnings_reach : Forall (fun s => s ∈ reach) beginnings.
Proof. apply (bool_decide_unpack _). vm_compute. exact I. Qed.

Lemma reach_closed : closed reach.
Proof. apply (bool_decide_unpack _). vm_compute. exact I. Qed.



Lemma closed_step l x y : closed l → x ∈ l → step x y → y ∈ l.
Proof.
  intros H Hin Hxy. unfold closed in H.
  rewrite Forall_forall in H. specialize (H x Hin).
  rewrite Forall_forall in H. by apply H.
Qed.

Lemma closed_rtc l x y : closed l → x ∈ l → rtc step x y → y ∈ l.
Proof.
  intros H Hin Hr. induction Hr as [|x y z Hxy _ IH]; [done|].
  apply IH. by apply (closed_step l x y).
Qed.

Lemma reachable_in_reach init s : begins init → rtc step init s → s ∈ reach.
Proof.
  intros Hb Hr.
  assert (init ∈ reach) as Hin.
  { pose proof beginnings_reach as H. rewrite Forall_forall in H.
    by apply H, begins_beginnings. }
  by apply (closed_rtc reach init s reach_closed).
Qed.





(** The loader thread asleep in the hand-over, Lua unwinding with
    [longjmp], and the collector one step into [load_ctx_gc]. *)
Definition asleep : state :=
  mkState G_joinable P_wait 1 None false false false false false.


(** ** Finalization while the reader runs *)

(** [l] is a run from [s], step by step. *)
Fixpoint follows (s : state) (l : list state) : Prop :=
  match l with
  | [] => True
  | s' :: l' => s' ∈ moves s ∧ follows s' l'
  end.

Global Instance follows_dec s l : Decision (follows s l).
Proof. revert s. induction l as [|s' l IH]; intros s; simpl; apply _. Defined.

(** Where the run [l] from [s] ends. *)
Fixpoint run_end (s : state) (l : list state) : state :=
  match l with
  | [] => s
  | s' :: l' => run_end s' l'
  end.









(** ** The loader thread during finalization *)

(** The loader thread is nowhere but in the wait, in the test that
    follows it, or past [lua_load]; once the collector is past setting
    the state, the state is 3; and when Lua unwinds with an exception the
    lock is free by the time it is destroyed. *)
Definition quiet (s : state) : Prop :=
  (p s = P_wait ∨ p s = P_relock ∨ p s = P_test ∨ p s = P_cancelled ∨
   p s = P_returned ∨ p s = P_done) ∧
  (g s ≠ G_joinable → g s ≠ G_lock → g s ≠ G_set → status s = 3) ∧
  (lock_destroyed s = true → unwinds s = true → mutex s = None).

Global Instance quiet_dec s : Decision (quiet s).
Proof. unfold quiet. apply _. Defined.

Lemma reach_quiet : Forall quiet reach.
Proof. apply (bool_decide_unpack _). vm_compute. exact I. Qed.

(** Cancellation is final.  From the moment finalization begins, however
    the two threads interleave: the loader thread never resumes the
    reader coroutine again, never yields and never stages a result - it
    only wakes up, sees the state, and leaves; the state 3 set by the
    collector is never overwritten; and, when Lua unwinds with an
    exception, the lock is not held when it is destroyed. *)
Theorem cancellation_is_final (init s : state) :
  begins init → rtc step init s →
  p s ≠ P_resume ∧ p s ≠ P_running ∧ p s ≠ P_yield_lock ∧ p s ≠ P_yield_set ∧
  p s ≠ P_stage_lock ∧ p s ≠ P_stage ∧
  (g s ≠ G_joinable → g s ≠ G_lock → g s ≠ G_set → status s = 3) ∧
  (lock_destroyed s = true → unwinds s = true → mutex s = None).
Proof.
  intros Hb Hr.
  pose proof (reachable_in_reach init s Hb Hr) as Hin.
  pose proof reach_quiet as H. rewrite Forall_forall in H.
  destruct (H s Hin) as (Hp & Hs & Hl).
  repeat split; try done;
    intros E; rewrite E in Hp;
    destruct Hp as [?|[?|[?|[?|[?|?]]]]]; discriminate.
Qed.

Lemma cancellation_is_final_witness :
  p (set_g G_lock asleep) ≠ P_running ∧ p (set_g G_lock asleep) ≠ P_stage.
Proof.
  destruct (cancellation_is_final asleep (set_g G_lock asleep))
    as (_ & H2 & _ & _ & _ & H6 & _).
  - unfold begins. simpl. repeat split; try reflexivity. left. split; reflexivity.
  - apply rtc_once. unfold step. vm_compute. left.
  - exact (conj H2 H6).
Defined.

End Finalizer.

(** * Files: [file_reader] and the startup script

    The boot script is compiled by [lua_load] with [file_reader] as its
    reader; the script named on the command line is read by a loop of its
    own in [runComputer].  Both read blocks of 4096 bytes. *)

Module BootScript.

(** A [FILE*] open for reading: the bytes not yet read and the
    end-of-file indicator. *)
Record FILE := mkFILE {
  unread : string;
  eof_indicator : bool
}.

Definition fopen (content : string) : FILE := mkFILE content false.

Fixpoint take_bytes (n : nat) (s : string) : string :=
  match n, s with
  | S n', String b s' => String b (take_bytes n' s')
  | _, _ => ""
  end.

Fixpoint drop_bytes (n : nat) (s : string) : string :=
  match n, s with
  | S n', String _ s' => drop_bytes n' s'
  | _, _ => s
  end.

(** [sizeof file_read_tmp], and the size of [tmp] in [runComputer]. *)
Definition file_read_tmp_size : nat := 4096.

Section WithLibc.

(** The C library sets the end-of-file indicator when a read comes up
    short; whether it also does when a read ends exactly at the end of
    the file is its own business. *)
Variable eager_eof : bool.

(** [fread(buf, 1, n, f)]: the bytes read and the file afterwards.  Read
    errors are not modelled. *)
Definition fread (n : nat) (f : FILE) : string * FILE :=
  (take_bytes n (unread f),
   mkFILE (drop_bytes n (unread f))
     (eof_indicator f
      || (String.length (unread f) <? n)%nat
      || (eager_eof && (String.length (unread f) =? n)%nat))).

Definition feof (f : FILE) : bool := eof_indicator f.

(** [file_reader(L, ud, size)]: NULL at the end of the file, else the
    buffer and in [*size] what [fread] read. *)
Definition file_reader (f : FILE) : option string * FILE :=
  if feof f then (None, f)
  else
    let '(got, f) := fread file_read_tmp_size f in
    (Some got, f).

(** The loop that reads the startup script:
    [while (!feof(in)) { read = fread(tmp, 1, 4096, in);
       if (read == 0) break; script += std::string(tmp, read); }].
    Each unit of [fuel] pays for one pass. *)
Fixpoint read_script (fuel : nat) (f : FILE) (script : string) : option string :=
  match fuel with
  | O => None
  | S fuel' =>
      if feof f then Some script
      else
        let '(got, f) := fread file_read_tmp_size f in
        if decide (got = "") then Some script
        else read_script fuel' f (String.append script got)
  end.

(** What the block "if (!script_file.empty())" does: nothing when no
    script is named; else [_CCPC_STARTUP_SCRIPT] is set, to the text
    after the escape character when [script_file] starts with one, and
    to what the loop reads from the file of that name otherwise.
    [fopen] is not checked: a file that cannot be opened hands NULL to
    [feof]. *)
Inductive startup :=
| NoScript
| StartupScript (script : string)
| NullFILE.

(** [fs] is the file system; the result is [None] when the fuel runs
    out. *)
Definition startup_script (fuel : nat) (fs : string -> option string)
    (script_file : string) : option startup :=
  match script_file with
  | EmptyString => Some NoScript
  | String b rest =>
      if Ascii.eqb b (Ascii.ascii_of_nat 27) then Some (StartupScript rest)
      else
        match fs script_file with
        | Some content => StartupScript <$> read_script fuel (fopen content) ""
        | None => Some NullFILE
        end
  end.

(** The values the block "Set default globals" stores. *)
Inductive global_value :=
| GString (s : string)
| GBoolean (b : bool).

Global Instance global_value_eq_dec : EqDecision global_value.
Proof. solve_decision. Defined.

(** What the block reads: fields of [::config], the version string, the
    renderer, and the script and its arguments from the command line. *)
Record launch := mkLaunch {
  default_computer_settings : string;
  disable_lua51_features : bool;
  host : string;
  selectedRenderer : Z;
  script_file : string;
  script_args : string
}.

(** "Set default globals": the globals set, in order, and
    [onboardingMode] afterwards.  The globals are [None] when the script
    file cannot be opened or the fuel runs out. *)
Definition default_globals (fuel : nat) (fs : string -> option string)
    (cfg : launch) (onboardingMode : Z)
  : option (list (string * global_value)) * Z :=
  let gs :=
    [("_CC_DEFAULT_SETTINGS", GString (default_computer_settings cfg));
     ("_CC_DISABLE_LUA51_FEATURES", GBoolean (disable_lua51_features cfg));
     ("_HOST", GString (host cfg))] in
  let gs :=
    if decide (selectedRenderer cfg = 1) then gs ++ [("_HEADLESS", GBoolean true)]
    else gs in
  let '(gs, onboardingMode) :=
    if decide (onboardingMode = 1)
    then (gs ++ [("_CCPC_FIRST_RUN", GBoolean true)], 0)
    else if decide (onboardingMode = 2)
    then (gs ++ [("_CCPC_UPDATED_VERSION", GBoolean true)], 0)
    else (gs, onboardingMode) in
  match startup_script fuel fs (script_file cfg) with
  | None | Some NullFILE => (None, onboardingMode)
  | Some st =>
      let gs :=
        match st with
        | StartupScript script => gs ++ [("_CCPC_STARTUP_SCRIPT", GString script)]
        | _ => gs
        end in
      let gs :=
        if decide (script_args cfg = "") then gs
        else gs ++ [("_CCPC_STARTUP_ARGS", GString (script_args cfg))] in
      (Some gs, onboardingMode)
  end.

(** The block run once per boot, one boot after the other, whichever
    instance boots: [onboardingMode] is a global of the process. *)
Fixpoint boots_globals (fuel : nat) (fs : string -> option string)
    (boots : list launch) (onboardingMode : Z)
  : list (option (list (string * global_value))) :=
  match boots with
  | [] => []
  | cfg :: rest =>
      let '(gs, onboardingMode) := default_globals fuel fs cfg onboardingMode in
      gs :: boots_globals fuel fs rest onboardingMode
  end.

(** Whether a boot was told of the first run or of an update. *)
Definition announces (gs : option (list (string * global_value))) : bool :=
  match gs with
  | Some l =>
      bool_decide (("_CCPC_FIRST_RUN", GBoolean true) ∈ l)
      || bool_decide (("_CCPC_UPDATED_VERSION", GBoolean true) ∈ l)
  | None => false
  end.

Section WithParser.

Variable fn : Type.
Variable number : Type.
Variable pstate : Type.
Variable pinit : string -> pstate.
Variable pstep : pstate -> Ascii.ascii -> pstate + Z * Trampoline.lua_value fn number.
Variable peof : pstate -> Z * Trampoline.lua_value fn number.

(** [lua_load(self->coro, file_reader, bios_file, "@bios.lua")]: Lua
    calls the reader for the next block until it returns NULL or a block
    of size 0, or the parser has its result.  Each unit of [fuel] pays
    for one call of the reader. *)
Fixpoint lua_load (fuel : nat) (p : pstate) (f : FILE)
  : option (Z * Trampoline.lua_value fn number) :=
  match fuel with
  | O => None
  | S fuel' =>
      match file_reader f with
      | (None, _) => Some (peof p)
      | (Some s, f) =>
          if decide (s = "") then Some (peof p)
          else
            match Trampoline.feed fn number pstate pstep p s with
            | inl p' => lua_load fuel' p' f
            | inr res => Some res
            end
      end
  end.

End WithParser.

End WithLibc.

(** ** Blocks *)

Lemma append_cons b x y :
  String.append (String b x) y = String b (String.append x y).
Proof. reflexivity. Qed.

Lemma take_drop_bytes n : ∀ s, String.append (take_bytes n s) (drop_bytes n s) = s.
Proof.
  induction n as [|n IH]; intros [|b s]; simpl; try done.
  by rewrite append_cons, IH.
Qed.

Lemma drop_bytes_length n : ∀ s,
  String.length (drop_bytes n s) = (String.length s - n)%nat.
Proof.
  induction n as [|n IH]; intros [|b s]; simpl; try done; try lia.
Qed.

Lemma take_bytes_empty n s :
  (0 < n)%nat → take_bytes n s = "" → s = "".
Proof. destruct n; [lia|]. by destruct s. Qed.

Lemma drop_bytes_all n : ∀ s, (String.length s ≤ n)%nat → drop_bytes n s = "".
Proof.
  induction n as [|n IH]; intros [|b s]; simpl; try done; try lia.
  intros H. apply IH. lia.
Qed.

Lemma append_empty_r s : String.append s "" = s.
Proof. induction s as [|b s IH]; [done|]. by rewrite append_cons, IH. Qed.

Lemma append_assoc a b c :
  String.append (String.append a b) c = String.append a (String.append b c).
Proof. induction a as [|x a IH]; [done|]. by rewrite !append_cons, IH. Qed.

Lemma blocks_left n len :
  (0 < n)%nat → (n ≤ len)%nat → ((len - n) / n + 1 = len / n)%nat.
Proof.
  intros Hn Hle.
  replace len with ((len - n) + 1 * n)%nat at 2 by lia.
  rewrite Nat.div_add by lia. done.
Qed.

(** ** The startup script is the file *)

Lemma read_script_whole eager n fuel : ∀ s script,
  n = file_read_tmp_size →
  (String.length s / n + 2 ≤ fuel)%nat →
  read_script eager fuel (mkFILE s false) script = Some (String.append script s).
Proof.
  assert (0 < file_read_tmp_size)%nat as Hpos by (unfold file_read_tmp_size; lia).
  induction fuel as [|fuel IH]; intros s script Hn Hfuel; [lia|].
  cbn [read_script feof eof_indicator fread unread]. rewrite <- Hn.
  rewrite <- Hn in Hpos.
  destruct (decide (take_bytes n s = "")) as [E|E].
  - apply take_bytes_empty in E as ->; [|done]. by rewrite append_empty_r.
  - cbn [orb].
    destruct (String.length s <? n)%nat eqn:Hlt; cbn [orb].
    + apply Nat.ltb_lt in Hlt.
      rewrite (drop_bytes_all n s) by lia.
      pose proof (take_drop_bytes n s) as Hs.
      rewrite (drop_bytes_all n s), append_empty_r in Hs by lia. rewrite Hs.
      destruct fuel as [|fuel]; [lia|]. reflexivity.
    + apply Nat.ltb_ge in Hlt.
      pose proof (blocks_left n (String.length s) Hpos Hlt) as Hb.
      destruct (eager && (String.length s =? n)%nat) eqn:He.
      * apply andb_true_iff in He as [_ He]. apply Nat.eqb_eq in He.
        rewrite (drop_bytes_all n s) by lia.
        pose proof (take_drop_bytes n s) as Hs.
        rewrite (drop_bytes_all n s), append_empty_r in Hs by lia. rewrite Hs.
        destruct fuel as [|fuel]; [lia|]. reflexivity.
      * rewrite IH; [|done|rewrite drop_bytes_length; lia].
        by rewrite append_assoc, take_drop_bytes.
Qed.

(** The script handed to the guest in [_CCPC_STARTUP_SCRIPT] is the whole
    content of the file, whatever its length - empty, shorter than a
    block, a whole number of blocks - and however the C library sets the
    end-of-file indicator; one pass of the loop per block, and two more
    at most, are enough.  A name that starts with the escape character
    is no file name: the script is the rest of it, and no file is
    read. *)
Theorem startup_script_is_the_file
  (eager : bool) (fs : string → option string) (b : Ascii.ascii)
  (name content : string) (fuel : nat)
  (Hfile : fs (String b name) = Some content)
  (Hplain : b ≠ Ascii.ascii_of_nat 27)
  (Hfuel : (String.length content / file_read_tmp_size + 2 ≤ fuel)%nat) :
  startup_script eager fuel fs (String b name) = Some (StartupScript content) ∧
  ∀ text fuel',
    startup_script eager fuel' fs (String (Ascii.ascii_of_nat 27) text)
    = Some (StartupScript text).
Proof.
  split.
  - unfold startup_script.
    destruct (Ascii.eqb b (Ascii.ascii_of_nat 27)) eqn:E;
      [by apply Ascii.eqb_eq in E|].
    rewrite Hfile. unfold fopen.
    by rewrite (read_script_whole eager file_read_tmp_size fuel content "").
  - intros text fuel'. unfold startup_script. by rewrite Ascii.eqb_refl.
Qed.

Lemma startup_script_is_the_file_witness :
  startup_script true 2%nat
    (fun name => if decide (name = "go.lua") then Some "shell.run('x')" else None)
    "go.lua"
  = Some (StartupScript "shell.run('x')").
Proof.
  refine (proj1 (startup_script_is_the_file true
                   (fun name => if decide (name = "go.lua")
                                then Some "shell.run('x')" else None)
                   (Ascii.ascii_of_nat 103) "o.lua" "shell.run('x')" 2%nat
                   eq_refl _ _)).
  - discriminate.
  - vm_compute. lia.
Defined.

(** ** The onboarding flags *)

(** The globals of a boot that found [onboardingMode] at 0. *)
Lemma default_globals_settled eager fuel fs cfg :
  (default_globals eager fuel fs cfg 0).2 = 0 ∧
  announces (default_globals eager fuel fs cfg 0).1 = false.
Proof.
  unfold default_globals.
  destruct (decide (0 = 1)) as [|_]; [done|].
  destruct (decide (0 = 2)) as [|_]; [done|].
  destruct (startup_script eager fuel fs (script_file cfg)) as [[|script|]|];
    cbn [fst snd announces]; try done.
  - split; [done|].
    destruct (decide (selectedRenderer cfg = 1)), (decide (script_args cfg = ""));
      apply orb_false_iff; split; apply bool_decide_eq_false;
      rewrite ?elem_of_app, !elem_of_cons, elem_of_nil;
      intros H; repeat destruct H as [H|H]; done.
  - split; [done|].
    destruct (decide (selectedRenderer cfg = 1)), (decide (script_args cfg = ""));
      apply orb_false_iff; split; apply bool_decide_eq_false;
      rewrite ?elem_of_app, !elem_of_cons, elem_of_nil;
      intros H; repeat destruct H as [H|H]; done.
Qed.

Lemma default_globals_consumes eager fuel fs cfg mode :
  mode = 1 ∨ mode = 2 → (default_globals eager fuel fs cfg mode).2 = 0.
Proof.
  intros Hm. unfold default_globals.
  destruct (decide (mode = 1)); [|destruct (decide (mode = 2)); [|lia]];
    by destruct (startup_script eager fuel fs (script_file cfg)) as [[|script|]|].
Qed.

Lemma boots_globals_settled eager fuel fs boots :
  Forall (fun gs => announces gs = false) (boots_globals eager fuel fs boots 0).
Proof.
  induction boots as [|cfg rest IH]; [constructor|]. cbn [boots_globals].
  destruct (default_globals_settled eager fuel fs cfg) as [H1 H2].
  destruct (default_globals eager fuel fs cfg 0) as [gs mode].
  cbn [fst snd] in *. subst mode. by constructor.
Qed.

(** The first run, or an update, is announced once.  [onboardingMode]
    belongs to the process, and the boot that finds it at 1 or 2 - of
    whichever instance, and also a reboot - sets it back to 0: every
    later boot sets neither [_CCPC_FIRST_RUN] nor
    [_CCPC_UPDATED_VERSION]. *)
Theorem onboarding_is_announced_once
  (eager : bool) (fuel : nat) (fs : string → option string)
  (cfg : launch) (later : list launch) (onboardingMode : Z)
  (Hmode : onboardingMode = 1 ∨ onboardingMode = 2) :
  Forall (fun gs => announces gs = false)
    (tail (boots_globals eager fuel fs (cfg :: later) onboardingMode)) ∧
  ((default_globals eager fuel fs cfg onboardingMode).1 ≠ None →
   announces (default_globals eager fuel fs cfg onboardingMode).1 = true).
Proof.
  split.
  - cbn [boots_globals].
    pose proof (default_globals_consumes eager fuel fs cfg onboardingMode Hmode)
      as Hz.
    destruct (default_globals eager fuel fs cfg onboardingMode) as [gs mode].
    cbn [snd tail] in *. subst mode. apply boots_globals_settled.
  - unfold default_globals.
    destruct (decide (onboardingMode = 1)) as [->|H1].
    + destruct (startup_script eager fuel fs (script_file cfg)) as [[|script|]|],
        (decide (selectedRenderer cfg = 1)), (decide (script_args cfg = ""));
        cbn [fst announces]; try done; intros _;
        apply orb_true_iff; left; apply bool_decide_eq_true;
        rewrite ?elem_of_app, !elem_of_cons; tauto.
    + destruct (decide (onboardingMode = 2)) as [->|H2]; [|lia].
      destruct (startup_script eager fuel fs (script_file cfg)) as [[|script|]|],
        (decide (selectedRenderer cfg = 1)), (decide (script_args cfg = ""));
        cbn [fst announces]; try done; intros _;
        apply orb_true_iff; right; apply bool_decide_eq_true;
        rewrite ?elem_of_app, !elem_of_cons; tauto.
Qed.

Lemma onboarding_is_announced_once_witness :
  let cfg := mkLaunch "" false "ComputerCraft 1.8 (CraftOS-PC v2)" 0 "" "" in
  (1 = 1 ∨ 1 = 2) ∧
  Forall (fun gs => announces gs = false)
    (tail (boots_globals false 2%nat (fun _ => None) [cfg; cfg; cfg] 1)).
Proof.
  intros cfg. split; [left; reflexivity|].
  exact (proj1 (onboarding_is_announced_once false 2%nat (fun _ => None)
                  cfg [cfg; cfg] 1 (or_introl eq_refl))).
Defined.

(** ** The boot script is compiled as a whole *)

Section Loading.

Variable fn : Type.
Variable number : Type.
Variable pstate : Type.
Variable pinit : string → pstate.
Variable pstep : pstate → Ascii.ascii → pstate + Z * Trampoline.lua_value fn number.
Variable peof : pstate → Z * Trampoline.lua_value fn number.

(** A piece that the parser takes in without a result leaves the parser
    before the rest. *)
Lemma pieces_split p p' a b :
  a ≠ "" →
  Trampoline.feed fn number pstate pstep p a = inl p' →
  Trampoline.lua_load_pieces fn number pstate pstep peof p [String.append a b]
  = Trampoline.lua_load_pieces fn number pstate pstep peof p' [b].
Proof.
  intros Ha Hfeed. cbn [Trampoline.lua_load_pieces].
  destruct (decide (String.append a b = "")) as [E|_];
    [by apply Trampoline.append_nonempty in E|].
  rewrite Trampoline.feed_app, Hfeed.
  destruct (decide (b = "")) as [->|_]; [done|].
  by destruct (Trampoline.feed fn number pstate pstep p' b).
Qed.

Lemma pieces_stop p res a b :
  a ≠ "" →
  Trampoline.feed fn number pstate pstep p a = inr res →
  Trampoline.lua_load_pieces fn number pstate pstep peof p [String.append a b] = res.
Proof.
  intros Ha Hfeed. cbn [Trampoline.lua_load_pieces].
  destruct (decide (String.append a b = "")) as [E|_];
    [by apply Trampoline.append_nonempty in E|].
  by rewrite Trampoline.feed_app, Hfeed.
Qed.

Lemma lua_load_whole eager n fuel : ∀ s p,
  n = file_read_tmp_size →
  (String.length s / n + 2 ≤ fuel)%nat →
  lua_load eager fn number pstate pstep peof fuel p (mkFILE s false)
  = Some (Trampoline.lua_load_pieces fn number pstate pstep peof p [s]).
Proof.
  assert (0 < file_read_tmp_size)%nat as Hpos by (unfold file_read_tmp_size; lia).
  induction fuel as [|fuel IH]; intros s p Hn Hfuel; [lia|].
  cbn [lua_load file_reader feof eof_indicator fread unread]. rewrite <- Hn.
  rewrite <- Hn in Hpos.
  destruct (decide (take_bytes n s = "")) as [E|E].
  - apply take_bytes_empty in E as ->; [|done]. reflexivity.
  - replace (Trampoline.lua_load_pieces fn number pstate pstep peof p [s])
      with (Trampoline.lua_load_pieces fn number pstate pstep peof p
              [String.append (take_bytes n s) (drop_bytes n s)])
      by (by rewrite take_drop_bytes).
    destruct (Trampoline.feed fn number pstate pstep p (take_bytes n s))
      as [p'|res] eqn:Hfeed.
    + rewrite (pieces_split p p' _ _ E Hfeed).
      cbn [orb].
      destruct (String.length s <? n)%nat eqn:Hlt; cbn [orb].
      * apply Nat.ltb_lt in Hlt. rewrite (drop_bytes_all n s) by lia.
        destruct fuel as [|fuel]; [lia|]. reflexivity.
      * apply Nat.ltb_ge in Hlt.
        pose proof (blocks_left n (String.length s) Hpos Hlt) as Hb.
        destruct (eager && (String.length s =? n)%nat) eqn:He.
        -- apply andb_true_iff in He as [_ He]. apply Nat.eqb_eq in He.
           rewrite (drop_bytes_all n s) by lia.
           destruct fuel as [|fuel]; [lia|]. reflexivity.
        -- apply IH; [done|]. rewrite drop_bytes_length. lia.
    + by rewrite (pieces_stop p res _ _ E Hfeed).
Qed.

End Loading.

(** [lua_load] with [file_reader] compiles the file as a whole: the
    result is the parser's on the full content, as if it had been handed
    over in one piece, wherever the 4096-byte blocks end and however the
    C library sets the end-of-file indicator.  One call of the reader
    per block, and two more at most, are enough. *)
Theorem boot_script_is_compiled_whole
  (eager : bool) (fn number pstate : Type) (pinit : string → pstate)
  (pstep : pstate → Ascii.ascii → pstate + Z * Trampoline.lua_value fn number)
  (peof : pstate → Z * Trampoline.lua_value fn number)
  (content : string) (fuel : nat)
  (Hfuel : (String.length content / file_read_tmp_size + 2 ≤ fuel)%nat) :
  lua_load eager fn number pstate pstep peof fuel (pinit "@bios.lua") (fopen content)
  = Some (Trampoline.direct_load fn number pstate pinit pstep peof
            "@bios.lua" content).
Proof.
  unfold fopen, Trampoline.direct_load.
  by apply (lua_load_whole fn number pstate pstep peof eager file_read_tmp_size).
Qed.

Lemma boot_script_is_compiled_whole_witness :
  lua_load false nat Z nat Trampoline.toy_pstep Trampoline.toy_peof 2%nat
    (Trampoline.toy_pinit "@bios.lua") (fopen "return 42")
  = Some (0, Trampoline.LFunction 109%nat).
Proof.
  exact (boot_script_is_compiled_whole false nat Z nat Trampoline.toy_pinit
           Trampoline.toy_pstep Trampoline.toy_peof "return 42" 2%nat
           ltac:(vm_compute; lia)).
Defined.

End BootScript.

(** * The queue of terminal events: [Computer_getEvent] *)

Module TermEvents.

Section WithEvents.

Variable SDL_Event : Type.

(** [Computer_getEvent(self, e)] on the instance's [termEventQueue];
    [e_valid] tells whether the destination [e] is a real address or
    NULL.  The result is the returned flag, the queue afterwards and what
    was copied to [*e], if anything.  The address of the front of a
    non-empty queue is never null. *)
Definition Computer_getEvent (termEventQueue : list SDL_Event) (e_valid : bool)
  : bool * list SDL_Event * option SDL_Event :=
  match termEventQueue with
  | [] => (false, termEventQueue, None)
  | front :: rest =>
      if e_valid then (true, rest, Some front)
      else (false, termEventQueue, None)
  end.

(** What the threads around the queue do: a producer pushes an event at
    the back, the consumer polls with a destination or with NULL. *)
Inductive action :=
| Push (ev : SDL_Event)
| Poll (e_valid : bool).

(** The queue and the events the consumer received so far, after the
    actions. *)
Fixpoint run (actions : list action) (q received : list SDL_Event)
  : list SDL_Event * list SDL_Event :=
  match actions with
  | [] => (q, received)
  | Push ev :: rest => run rest (q ++ [ev]) received
  | Poll e_valid :: rest =>
      match Computer_getEvent q e_valid with
      | (true, q', Some ev) => run rest q' (received ++ [ev])
      | (_, q', _) => run rest q' received
      end
  end.

Definition pushed (actions : list action) : list SDL_Event :=
  omap (fun a => match a with Push ev => Some ev | Poll _ => None end) actions.

Lemma run_order actions : ∀ q received,
  (run actions q received).2 ++ (run actions q received).1
  = received ++ q ++ pushed actions.
Proof.
  induction actions as [|[ev|[]] rest IH]; intros q received; cbn [run].
  - cbn [fst snd pushed omap]. by rewrite app_nil_r.
  - rewrite IH. unfold pushed. cbn [omap]. by rewrite <- !app_assoc.
  - destruct q as [|front q']; cbn [Computer_getEvent]; rewrite IH;
      unfold pushed; cbn [omap]; by rewrite <- ?app_assoc.
  - destruct q as [|front q']; cbn [Computer_getEvent]; rewrite IH;
      unfold pushed; cbn [omap]; done.
Qed.

End WithEvents.

(** Terminal events reach the consumer in the order they were queued,
    each once and none lost: whatever the producers and the consumer do,
    in whatever order, the events received followed by those still
    queued are exactly the events pushed.  A poll answers true exactly
    when the queue is not empty and the destination is not NULL, and
    only then takes an event off the queue. *)
Theorem events_are_delivered_in_order
  (SDL_Event : Type) (actions : list (action SDL_Event))
  (q : list SDL_Event) (e_valid : bool) :
  (run SDL_Event actions [] []).2 ++ (run SDL_Event actions [] []).1
  = pushed SDL_Event actions ∧
  ((Computer_getEvent SDL_Event q e_valid).1.1 = true ↔ q ≠ [] ∧ e_valid = true) ∧
  ((Computer_getEvent SDL_Event q e_valid).1.1 = false →
   (Computer_getEvent SDL_Event q e_valid).1.2 = q ∧
   (Computer_getEvent SDL_Event q e_valid).2 = None) ∧
  ((Computer_getEvent SDL_Event q e_valid).1.1 = true →
   (Computer_getEvent SDL_Event q e_valid).2 = head q ∧
   (Computer_getEvent SDL_Event q e_valid).1.2 = tail q).
Proof.
  split; [apply (run_order SDL_Event actions [] [])|].
  destruct q as [|front rest], e_valid; cbn; repeat split; try done;
    intros []; done.
Qed.

End TermEvents.
